(** * npm_fetcher: a shallow embedding of [mod.ts]

    The program comes first, in the order of the source file:
    - [JS]         the string and number primitives of the language that the
                   code calls ([split], [trim], [replaceAll], [parseInt], ...);
    - [SemVer]     [parsePackageVersion], [semVerMatches], [findHighestSemVer];
    - [Names]      [splitNameAndVersion];
    - [Sha1]       the digest computed by [crypto.subtle.digest("SHA-1", ...)]
                   and the hexadecimal rendering used by the checksum test;
    - [Path]       POSIX [path.resolve];
    - [Fs]         the file system calls of the standard library and of Deno;
    - [Fetcher]    [fetchNpmPackage], [getPackageContents],
                   [downloadNpmPackage] and [downloadPackageDependencies] over
                   an explicit world (registry, archive decoder, manifest
                   parser, working directory) and an explicit state (file
                   system, request log, invocation log);
    - [Historical] the earlier [downloadNpmPackage], with its prefix test.

    Then come the notions the statements are written with, two registries to
    run the program against, and the proofs.

    Strings are sequences of code units below 256. The numbers of the
    program are the results of [parseInt]: integers that a double
    represents, held in [Z] after rounding to the nearest double
    ([JS.number_of]). *)

From Stdlib Require Import ZArith Ascii String List Lia Bool.
From Stdlib Require Import Init.Byte.
From stdpp Require Import base option list strings gmap.

Local Open Scope Z_scope.

(* ===================================================================== *)
(** * Language primitives *)
(* ===================================================================== *)

Module JS.

(** [s.charCodeAt(i)] of a character. *)
Definition code (c : ascii) : N := N_of_ascii c.

(** [\d] *)
Definition is_digit (c : ascii) : bool :=
  ((48 <=? code c) && (code c <=? 57))%N.

(** [\s], and the white space and line terminators removed by [trim] and
    skipped by [parseInt]: TAB, LF, VT, FF, CR, SP, NBSP. *)
Definition is_white_space (c : ascii) : bool :=
  match code c with
  | 9 | 10 | 11 | 12 | 13 | 32 | 160 => true
  | _ => false
  end%N.

(** The value of a decimal digit. *)
Definition digit_value (c : ascii) : Z := Z.of_N (code c) - 48.

(** A string is falsy exactly when it is empty. *)
Definition truthy (s : string) : bool :=
  match s with "" => false | _ => true end.

(** [s.startsWith(p)] *)
Fixpoint startsWith (p s : string) : bool :=
  match p, s with
  | "", _ => true
  | String a p', String b s' => bool_decide (a = b) && startsWith p' s'
  | String _ _, "" => false
  end.

(** [s.slice(n)] and [s.substring(n)] for [0 <= n]. *)
Fixpoint slice_from (n : nat) (s : string) : string :=
  match n, s with
  | O, _ => s
  | S n', String _ s' => slice_from n' s'
  | S _, "" => ""
  end.

(** [s.slice(0, n)] for [0 <= n]. *)
Fixpoint slice_to (n : nat) (s : string) : string :=
  match n, s with
  | O, _ => ""
  | S n', String c s' => String c (slice_to n' s')
  | S _, "" => ""
  end.

(** [s.lastIndexOf(c)], with [None] for [-1]. *)
Fixpoint lastIndexOf (c : ascii) (s : string) : option nat :=
  match s with
  | "" => None
  | String a s' =>
      match lastIndexOf c s' with
      | Some i => Some (S i)
      | None => if bool_decide (a = c) then Some O else None
      end
  end.

(** [s.split(sep)] for a one-character separator. *)
Fixpoint split (sep : ascii) (s : string) : list string :=
  match s with
  | "" => [""]
  | String a s' =>
      if bool_decide (a = sep) then "" :: split sep s'
      else match split sep s' with
           | h :: t => String a h :: t
           | [] => [String a ""]
           end
  end.

(** [s.replaceAll(c, r)] for a one-character pattern. *)
Fixpoint replaceAll (c : ascii) (r : string) (s : string) : string :=
  match s with
  | "" => ""
  | String a s' =>
      if bool_decide (a = c) then r +:+ replaceAll c r s'
      else String a (replaceAll c r s')
  end.

(** [s.trimStart()], [s.trimEnd()] and [s.trim()] *)
Fixpoint trimStart (s : string) : string :=
  match s with
  | String a s' => if is_white_space a then trimStart s' else s
  | "" => ""
  end.

Fixpoint trimEnd (s : string) : string :=
  match s with
  | "" => ""
  | String a s' =>
      match trimEnd s' with
      | "" => if is_white_space a then "" else String a ""
      | r => String a r
      end
  end.

Definition trim (s : string) : string := trimEnd (trimStart s).

(** [s.match(/\d+/)] is truthy exactly when [s] has a digit. *)
Fixpoint has_digit (s : string) : bool :=
  match s with
  | "" => false
  | String a s' => is_digit a || has_digit s'
  end.

(** Every character of [s] satisfies [p]. *)
Fixpoint all_chars (p : ascii -> bool) (s : string) : bool :=
  match s with
  | "" => true
  | String a s' => p a && all_chars p s'
  end.

(** The longest prefix of decimal digits, read as a number; [acc] is the
    value read so far, [None] while no digit has been seen. *)
Fixpoint digits (acc : option Z) (s : string) : option Z :=
  match s with
  | String a s' =>
      if is_digit a
      then digits (Some (10 * default 0 acc + digit_value a)) s'
      else acc
  | "" => acc
  end.

(** The Number value for the integer [n]: the nearest double, ties to even.
    An integer of magnitude below 2^53 is a double; beyond, a double keeps
    the 53 leading bits of the magnitude. What rounds to 2^1024 or more is
    [Infinity]; the integer 2^1024 stands for it, which lies above every
    finite double, as [Infinity] does under [>], [==] and [!=]. *)
Definition number_of (n : Z) : Z :=
  let magnitude := Z.abs n in
  if magnitude <? 2 ^ 53 then n
  else
    let dropped := Z.log2 magnitude - 52 in
    let kept := Z.shiftr magnitude dropped in
    let rest := magnitude - Z.shiftl kept dropped in
    let half := 2 ^ (dropped - 1) in
    let kept :=
      if (half <? rest) || ((rest =? half) && Z.odd kept)
      then kept + 1 else kept in
    let rounded := Z.shiftl kept dropped in
    Z.sgn n * (if 2 ^ 1024 <=? rounded then 2 ^ 1024 else rounded).

(** [parseInt(s, 10)]; the argument is [None] for [undefined] and the result
    is [None] for [NaN]. The digits denote an integer, and the result is
    the Number value for it. The language lets an implementation read the
    digits after the twentieth as zeros; this is the reading that keeps
    them, as V8 has it. *)
Definition parseInt (s : option string) : option Z :=
  match s with
  | None => None
  | Some s =>
      match trimStart s with
      | String "-" r => (fun n => number_of (- n)) <$> digits None r
      | String "+" r => number_of <$> digits None r
      | t => number_of <$> digits None t
      end
  end.

End JS.

(* ===================================================================== *)
(** * The version matcher *)
(* ===================================================================== *)

Module SemVer.
Import JS.

(** [[major, minor, patch]] *)
Definition triple : Type := Z * Z * Z.

(** [parsePackageVersion] *)
Definition parsePackageVersion (packageVersion : string) : triple :=
  let packageVersion := replaceAll "~" "" packageVersion in
  let packageVersion := replaceAll "^" "" packageVersion in
  let packageVersion := replaceAll "x" "0" packageVersion in
  let packageVersion := replaceAll "X" "0" packageVersion in
  let packageVersion := replaceAll "*" "0" packageVersion in
  let parts := split "." packageVersion in
  let major := parseInt (parts !! 0%nat) in
  let minor := parseInt (parts !! 1%nat) in
  let patch := parseInt (parts !! 2%nat) in
  (default 0 major, default 0 minor, default 0 patch).

(** [semVerMatches] *)
Definition semVerMatches (version packageVersion : string) : bool :=
  let needsExactMajor := true in
  let needsExactMinor := true in
  let needsExactPatch := true in
  let version := trim version in
  let versionPartLength := length (List.filter has_digit (split "." version)) in
  let '(needsExactMajor, needsExactMinor, needsExactPatch) :=
    if bool_decide (version ∈ ["x"; "X"; "*"])
    then (false, false, false)
    else (needsExactMajor, needsExactMinor, needsExactPatch) in
  let '(needsExactMinor, needsExactPatch) :=
    if startsWith "^" version || (versionPartLength =? 1)%nat
    then (false, false)
    else (needsExactMinor, needsExactPatch) in
  let needsExactPatch :=
    if startsWith "~" version || (versionPartLength =? 2)%nat
    then false
    else needsExactPatch in
  let '(major, minor, patch) := parsePackageVersion version in
  let '(packageMajor, packageMinor, packagePatch) :=
    parsePackageVersion packageVersion in
  if needsExactMajor && negb (major =? packageMajor) then false
  else if needsExactMinor && negb (minor =? packageMinor) then false
  else if needsExactPatch && negb (patch =? packagePatch) then false
  else true.

(** The four variables of the loop in [findHighestSemVer]. *)
Record highest := Highest {
  highestMajor : Z;
  highestMinor : Z;
  highestPatch : Z;
  highestVersion : option string
}.

(** The test that sets [isHighest]. *)
Definition isHighest (h : highest) (t : triple) : bool :=
  let '(major, minor, patch) := t in
  if major >? highestMajor h then true
  else if major =? highestMajor h then
    if minor >? highestMinor h then true
    else if minor =? highestMinor h then
      if patch >? highestPatch h then true else false
    else false
  else false.

(** One iteration of the loop. *)
Definition visit (version : string) (h : highest) (packageVersion : string)
  : highest :=
  if negb (semVerMatches version packageVersion) then h
  else
    let '(major, minor, patch) := parsePackageVersion packageVersion in
    if isHighest h (major, minor, patch)
    then Highest major minor patch (Some packageVersion)
    else h.

(** [findHighestSemVer] *)
Definition findHighestSemVer (version : string) (versionList : list string)
  : option string :=
  highestVersion (fold_left (visit version) versionList (Highest 0 0 0 None)).

End SemVer.

(* ===================================================================== *)
(** * Results of fallible code *)
(* ===================================================================== *)

(** A function that may throw returns [Ok] or the thrown value. *)
Inductive result (E A : Type) : Type :=
| Ok (a : A)
| Err (e : E).
Arguments Ok {E A} a.
Arguments Err {E A} e.

Definition is_err {E A} (r : result E A) : Prop :=
  match r with Ok _ => False | Err _ => True end.

(* ===================================================================== *)
(** * Package specifiers: [splitNameAndVersion] *)
(* ===================================================================== *)

Module Names.
Import JS.

Record NameAndVersion := {
  packageName : string;
  version : string
}.

(** [splitNameAndVersion]; the error carries the message of the [Error]. *)
Definition splitNameAndVersion (nameAndVersion : string)
  : result string NameAndVersion :=
  if negb (truthy nameAndVersion) then Err "The provided string is empty"
  else
    match lastIndexOf "@" nameAndVersion with
    | None => Err "The provided string contains no version"
    | Some index =>
        let packageName := slice_to index nameAndVersion in
        let version := slice_from (index + 1) nameAndVersion in
        if negb (truthy packageName)
        then Err "The provided string contains no package name"
        else if negb (truthy version)
        then Err "The provided string contains no version"
        else Ok {| packageName := packageName; version := version |}
    end.

End Names.

(* ===================================================================== *)
(** * The checksum: SHA-1 and its hexadecimal rendering *)
(* ===================================================================== *)

Module Sha1.

(** Words are 32-bit unsigned integers; every operation wraps. *)
Definition wrap (x : Z) : Z := x mod 2 ^ 32.
Definition add32 (a b : Z) : Z := wrap (a + b).
Definition not32 (x : Z) : Z := Z.lxor x 0xFFFFFFFF.
Definition rotl (n x : Z) : Z :=
  wrap (Z.lor (Z.shiftl x n) (Z.shiftr x (32 - n))).

Definition byte_value (b : byte) : Z := Z.of_N (Byte.to_N b).

(** The length of the message in bits, as eight big-endian bytes. *)
Definition be64 (n : Z) : list Z :=
  List.map (fun i => Z.land (Z.shiftr n (8 * i)) 255) [7; 6; 5; 4; 3; 2; 1; 0].

(** The message, the byte 0x80, zeros up to 56 modulo 64, the bit length. *)
Definition pad (msg : list byte) : list Z :=
  let l := Z.of_nat (length msg) in
  List.map byte_value msg ++ [0x80]
    ++ repeat 0 (Z.to_nat ((55 - l) mod 64)) ++ be64 (8 * l).

Fixpoint blocks (fuel : nat) (l : list Z) : list (list Z) :=
  match fuel, l with
  | S fuel', _ :: _ => take 64 l :: blocks fuel' (drop 64 l)
  | _, _ => []
  end.

Fixpoint be_words (l : list Z) : list Z :=
  match l with
  | a :: b :: c :: d :: r =>
      Z.lor (Z.shiftl a 24) (Z.lor (Z.shiftl b 16) (Z.lor (Z.shiftl c 8) d))
      :: be_words r
  | _ => []
  end.

(** The message schedule, most recent word first:
    w[t] = rotl 1 (w[t-3] xor w[t-8] xor w[t-14] xor w[t-16]). *)
Fixpoint schedule (n : nat) (w : list Z) : list Z :=
  match n with
  | O => w
  | S n' =>
      let x := Z.lxor (Z.lxor (nth 2 w 0) (nth 7 w 0))
                      (Z.lxor (nth 13 w 0) (nth 15 w 0)) in
      schedule n' (rotl 1 x :: w)
  end.

Record regs := Regs { ra : Z; rb : Z; rc : Z; rd : Z; re : Z }.

Definition round (t : nat) (r : regs) (w : Z) : regs :=
  let '(f, k) :=
    if (t <? 20)%nat
    then (Z.lor (Z.land (rb r) (rc r)) (Z.land (not32 (rb r)) (rd r)),
          0x5A827999)
    else if (t <? 40)%nat
    then (Z.lxor (rb r) (Z.lxor (rc r) (rd r)), 0x6ED9EBA1)
    else if (t <? 60)%nat
    then (Z.lor (Z.land (rb r) (rc r))
                (Z.lor (Z.land (rb r) (rd r)) (Z.land (rc r) (rd r))),
          0x8F1BBCDC)
    else (Z.lxor (rb r) (Z.lxor (rc r) (rd r)), 0xCA62C1D6) in
  let temp := add32 (add32 (add32 (add32 (rotl 5 (ra r)) f) (re r)) k) w in
  Regs temp (ra r) (rotl 30 (rb r)) (rc r) (rd r).

Fixpoint rounds (t : nat) (r : regs) (ws : list Z) : regs :=
  match ws with
  | [] => r
  | w :: ws' => rounds (S t) (round t r w) ws'
  end.

Definition compress (h : regs) (block : list Z) : regs :=
  let ws := rev (schedule 64 (rev (be_words block))) in
  let r := rounds 0 h ws in
  Regs (add32 (ra h) (ra r)) (add32 (rb h) (rb r)) (add32 (rc h) (rc r))
       (add32 (rd h) (rd r)) (add32 (re h) (re r)).

Definition initial : regs :=
  Regs 0x67452301 0xEFCDAB89 0x98BADCFE 0x10325476 0xC3D2E1F0.

Definition be32 (x : Z) : list Z :=
  List.map (fun i => Z.land (Z.shiftr x (8 * i)) 255) [3; 2; 1; 0].

(** [crypto.subtle.digest("SHA-1", bytes)] viewed as a [Uint8Array]:
    twenty numbers between 0 and 255. *)
Definition digest (msg : list byte) : list Z :=
  let padded := pad msg in
  let h := fold_left compress (blocks (length padded) padded) initial in
  be32 (ra h) ++ be32 (rb h) ++ be32 (rc h) ++ be32 (rd h) ++ be32 (re h).

(** One hexadecimal digit of [Number.prototype.toString(16)]. *)
Definition hex_digit (d : Z) : ascii :=
  if d <? 10 then ascii_of_N (Z.to_N (48 + d))
  else ascii_of_N (Z.to_N (87 + d)).

(** [b.toString(16)] for [0 <= b < 256]. *)
Definition toString16 (b : Z) : string :=
  if b <? 16 then String (hex_digit b) ""
  else String (hex_digit (b / 16)) (String (hex_digit (b mod 16)) "").

(** [s.padStart(2, "0")] *)
Definition padStart2 (s : string) : string :=
  match s with
  | "" => "00"
  | String a "" => String "0" (String a "")
  | _ => s
  end.

(** [hashArray.map((b) => b.toString(16).padStart(2, "0")).join("")] *)
Definition hashHex (hashArray : list Z) : string :=
  fold_right (fun b acc => padStart2 (toString16 b) +:+ acc) "" hashArray.

End Sha1.

(* ===================================================================== *)
(** * Paths: POSIX [path.resolve] *)
(* ===================================================================== *)

Module Path.
Import JS.

(** An absolute normalized path is the list of its segments, root first;
    the root directory is the empty list. *)
Definition path : Type := list string.

(** [a.join("/")] *)
Fixpoint join (segments : list string) : string :=
  match segments with
  | [] => ""
  | [a] => a
  | a :: rest => a +:+ "/" +:+ join rest
  end.

(** The string of an absolute normalized path. *)
Definition path_string (p : path) : string := "/" +:+ join p.

(** The loop of [resolve], from the last argument to the first and then the
    working directory: empty arguments are skipped, and the loop stops at
    the first absolute one. The second component is [resolvedAbsolute]. *)
Fixpoint gather (reversed : list string) (resolvedPath : string)
  : string * bool :=
  match reversed with
  | [] => (resolvedPath, false)
  | p :: rest =>
      if negb (truthy p) then gather rest resolvedPath
      else
        let resolvedPath := p +:+ "/" +:+ resolvedPath in
        if startsWith "/" p then (resolvedPath, true)
        else gather rest resolvedPath
  end.

(** One segment of [normalizeString] when going above the root is not
    allowed; the stack holds the segments kept so far, last first. *)
Definition normalize_step (stack : list string) (segment : string)
  : list string :=
  if bool_decide (segment = "") || bool_decide (segment = ".") then stack
  else if bool_decide (segment = "..") then tail stack
  else segment :: stack.

Definition normalize (segments : list string) : path :=
  rev (fold_left normalize_step segments []).

(** The segments of [path.resolve(...pathSegments)] in a process whose
    working directory is [cwd]. *)
Definition resolve_path (cwd : path) (pathSegments : list string) : path :=
  let '(resolvedPath, _) :=
    gather (rev pathSegments ++ [path_string cwd]) "" in
  normalize (split "/" resolvedPath).

(** [path.resolve(...pathSegments)] *)
Definition resolve (cwd : path) (pathSegments : list string) : string :=
  path_string (resolve_path cwd pathSegments).

(** [path.dirname] of an absolute normalized path. *)
Definition dirname (p : path) : path := removelast p.

(** [p] lies in the directory [root] (or is [root] itself). *)
Definition within (root p : path) : Prop := root `prefix_of` p.

End Path.

(* ===================================================================== *)
(** * The file system *)
(* ===================================================================== *)

Module Fs.
Import Path.

(** What a path holds: a directory or a regular file with its bytes (links
    are not modelled; the program creates none). *)
Inductive node :=
| Dir
| File (content : list byte).

(** The failures of the file system calls. *)
Inductive fs_error :=
| NotFound
| NotADirectory
| IsADirectory
| AlreadyExists
| ExpectedDir     (* ensureDir: "Ensure path exists, expected 'dir', ..." *)
| ExpectedFile.   (* ensureFile: "Ensure path exists, expected 'file', ..." *)

(** Files and directories by absolute path; the root always exists. *)
Abbreviation tree := (gmap path node).

(** What [p] holds. *)
Definition lookup_node (fs : tree) (p : path) : option node :=
  match p with
  | [] => Some Dir
  | _ => fs !! p
  end.

(** Path lookup from the directory [at]: every component before the last
    has to be a directory. *)
Fixpoint walk (fs : tree) (at_ : path) (rest : list string)
  : result fs_error node :=
  match lookup_node fs at_ with
  | None => Err NotFound
  | Some (File c) =>
      match rest with
      | [] => Ok (File c)
      | _ :: _ => Err NotADirectory
      end
  | Some Dir =>
      match rest with
      | [] => Ok Dir
      | segment :: rest' => walk fs (at_ ++ [segment]) rest'
      end
  end.

(** [Deno.lstat] *)
Definition lstat (fs : tree) (p : path) : result fs_error node :=
  walk fs [] p.

(** Creates the directories [rest] below [at_] that do not exist yet. *)
Fixpoint mkdir_from (fs : tree) (at_ : path) (rest : list string)
  : result fs_error tree :=
  match rest with
  | [] => Ok fs
  | segment :: rest' =>
      let q := at_ ++ [segment] in
      match lookup_node fs q with
      | None => mkdir_from (<[q := Dir]> fs) q rest'
      | Some Dir => mkdir_from fs q rest'
      | Some (File _) =>
          match rest' with
          | [] => Err AlreadyExists
          | _ :: _ => Err NotADirectory
          end
      end
  end.

(** [Deno.mkdir(dir, { recursive: true })] *)
Definition mkdir_recursive (fs : tree) (p : path) : result fs_error tree :=
  mkdir_from fs [] p.

(** [fs.ensureDir] *)
Definition ensureDir (fs : tree) (dir : path) : result fs_error tree :=
  match lstat fs dir with
  | Ok Dir => Ok fs
  | Ok (File _) => Err ExpectedDir
  | Err NotFound => mkdir_recursive fs dir
  | Err e => Err e
  end.

(** [Deno.writeFile(p, data)]: creates the file or replaces its content. *)
Definition writeFile (fs : tree) (p : path) (data : list byte)
  : result fs_error tree :=
  match p with
  | [] => Err IsADirectory
  | _ :: _ =>
      match lstat fs (dirname p) with
      | Ok Dir =>
          match lookup_node fs p with
          | Some Dir => Err IsADirectory
          | _ => Ok (<[p := File data]> fs)
          end
      | Ok (File _) => Err NotADirectory
      | Err e => Err e
      end
  end.

(** [fs.ensureFile] *)
Definition ensureFile (fs : tree) (filePath : path) : result fs_error tree :=
  match lstat fs filePath with
  | Ok (File _) => Ok fs
  | Ok Dir => Err ExpectedFile
  | Err NotFound =>
      match ensureDir fs (dirname filePath) with
      | Ok fs' => writeFile fs' filePath []
      | Err e => Err e
      end
  | Err e => Err e
  end.

(** [Deno.open(p, { write: true })], [streams.copy(entry, file)] and
    [file.close()]: the file is neither created nor truncated, the bytes
    are written from its start. *)
Definition open_copy_close (fs : tree) (p : path) (data : list byte)
  : result fs_error tree :=
  match lstat fs p with
  | Ok (File old) => Ok (<[p := File (data ++ drop (length data) old)]> fs)
  | Ok Dir => Err IsADirectory
  | Err e => Err e
  end.

(** [Deno.readTextFile], before the bytes are decoded. *)
Definition readFile (fs : tree) (p : path) : result fs_error (list byte) :=
  match lstat fs p with
  | Ok (File c) => Ok c
  | Ok Dir => Err IsADirectory
  | Err e => Err e
  end.

End Fs.

(* ===================================================================== *)
(** * Fetching and downloading *)
(* ===================================================================== *)

Module Fetcher.
Import JS Path Fs.

(** ** Registry data ([NpmPackageDist], [NpmPackage],
    [NpmVersionlessPackage]) *)

Module NpmPackageDist.
Record t := Make { tarball : string; shasum : string }.
End NpmPackageDist.

Module NpmPackage.
Record t := Make {
  name : string;
  version : string;
  description : string;
  dist : NpmPackageDist.t
}.
End NpmPackage.

(** [versions] in the order in which [Object.keys] enumerates it. *)
Module NpmVersionlessPackage.
Record t := Make { versions : list (string * NpmPackage.t) }.
End NpmVersionlessPackage.

(** What [Response.json()] gives for a registry answer, at the interfaces the
    code casts it to: [NpmPackage] after a direct lookup,
    [NpmVersionlessPackage] after a lookup of the version list. An answer of
    the other interface lies outside the declared types: the code does not
    test for it and goes on with whatever the answer holds, while the
    functions below stop with [JsonError]. *)
Inductive RegistryJson :=
| JsonPackage (p : NpmPackage.t)
| JsonVersionless (v : NpmVersionlessPackage.t).

(** [obj[key]] on a [Record<string, V>] *)
Fixpoint property {V} (obj : list (string * V)) (key : string) : option V :=
  match obj with
  | [] => None
  | (k, v) :: rest => if bool_decide (k = key) then Some v else property rest key
  end.

(** ** Options ([FetchNpmPackageOptions], [DownloadNpmPackageOptions]);
    an absent field is [None]. *)

Module Options.
Record t := Make {
  packageName : string;
  version : option string;
  destination : option string;
  downloadDependencies : option bool;
  downloadDevDependencies : option bool
}.
End Options.

(** ** Archive entries ([TarEntry]) *)

Module TarEntry.
Record t := Make {
  fileName : string;
  type : string;
  content : list byte
}.
End TarEntry.

(** The entries that [Untar] reads from the decompressed stream, in archive
    order, and whether reading ends in a failure (a stream that is not
    gzip, a truncated archive) instead of the end of the archive. *)
Module Archive.
Record t := Make { entries : list TarEntry.t; broken : bool }.
End Archive.

(** The parsed [package.json]: [None] for an absent field, and the pairs of
    a field in the order in which [Object.entries] enumerates them. *)
Module PackageJson.
Record t := Make {
  dependencies : option (list (string * string));
  devDependencies : option (list (string * string))
}.
End PackageJson.

(** ** The world outside the program *)

Module Response.
Record t := Make { status : N; body : option (list byte) }.

(** [response.ok] *)
Definition ok (r : t) : bool := ((200 <=? status r) && (status r <=? 299))%N.

(** The bytes of [response.blob()]. *)
Definition blob (r : t) : list byte := default [] (body r).
End Response.

Record World := {
  (** [Deno.cwd()] *)
  cwd : path;
  (** [fetch(url)]; [None] when the request itself fails. *)
  http : string -> option Response.t;
  (** [Response.json()] on the bytes of a registry answer; [None] when
      they are not a document of either interface. *)
  json : list byte -> option RegistryJson;
  (** [DecompressionStream("gzip")] followed by [Untar]. *)
  untar : list byte -> Archive.t;
  (** [JSON.parse] on the bytes of a [package.json]. *)
  manifest : list byte -> option PackageJson.t
}.

(** ** Errors *)

Inductive error :=
(** "Failed to fetch npm package information for "..." because it doesn't
    exist." *)
| DoesNotExist (errorMessagePackageName : string)
(** "Failed to fetch npm package information for "..."." *)
| RegistryFailed (errorMessagePackageName : string)
(** "Failed to resolve ...@..., version was not found in registry." *)
| VersionNotFound (packageName version : string)
(** "Failed to fetch ...@..., ... responded with an invalid status code:
    ..." *)
| InvalidStatus (packageName version url : string) (status : N)
(** "Failed to fetch ...@..., checksum failed" *)
| ChecksumFailed (packageName version : string)
(** "Assertion failed, response body is null." *)
| BodyIsNull
(** [fetch] rejected. *)
| NetworkError (url : string)
(** [Response.json()] or [JSON.parse] rejected, or the document is not of
    the interface it is cast to. *)
| JsonError
(** The archive reader failed. *)
| ArchiveError
(** A file system call failed. *)
| FsError (e : fs_error).

(** ** State and effects *)

(** The arguments of one call of [downloadNpmPackage] made by
    [downloadPackageDependencies], with the [destination] argument of the
    latter. The log is an observer of the calls; no function reads it. *)
Module Invocation.
Record t := Make { via : string; args : Options.t }.
End Invocation.

Record state := State {
  files : tree;
  requests : list string;          (* the urls passed to [fetch], in order *)
  invocations : list Invocation.t
}.

(** How a call ends: it returns, it throws, or it has not ended within the
    recursion depth explored. *)
Inductive outcome (A : Type) :=
| Return (a : A)
| Throw (e : error)
| Unfinished.
Arguments Return {A} a.
Arguments Throw {A} e.
Arguments Unfinished {A}.

Definition M (A : Type) : Type := state -> outcome A * state.

Definition ret {A} (a : A) : M A := fun s => (Return a, s).
Definition throw {A} (e : error) : M A := fun s => (Throw e, s).
Definition unfinished {A} : M A := fun s => (Unfinished, s).

Definition bind {A B} (m : M A) (k : A -> M B) : M B :=
  fun s =>
    match m s with
    | (Return a, s') => k a s'
    | (Throw e, s') => (Throw e, s')
    | (Unfinished, s') => (Unfinished, s')
    end.

Declare Scope fetch_scope.
Delimit Scope fetch_scope with fetch.
Notation "x <- m ;; k" := (bind m (fun x => k))
  (at level 100, m at next level, right associativity) : fetch_scope.
Notation "m ;;; k" := (bind m (fun _ => k))
  (at level 100, right associativity) : fetch_scope.
Local Open Scope fetch_scope.

(** [for (const a of l) body(a)] *)
Fixpoint for_each {A} (body : A -> M unit) (l : list A) : M unit :=
  match l with
  | [] => ret tt
  | a :: l' => body a ;;; for_each body l'
  end.

(** [await fetch(url)] *)
Definition fetch (w : World) (url : string) : M Response.t :=
  fun s =>
    let s' := State (files s) (requests s ++ [url]) (invocations s) in
    match http w url with
    | Some r => (Return r, s')
    | None => (Throw (NetworkError url), s')
    end.

(** A file system call that changes the tree. *)
Definition fs_update (f : tree -> result fs_error tree) : M unit :=
  fun s =>
    match f (files s) with
    | Ok fs' => (Return tt, State fs' (requests s) (invocations s))
    | Err e => (Throw (FsError e), s)
    end.

(** A file system call that reads the tree. *)
Definition fs_read {A} (f : tree -> result fs_error A) : M A :=
  fun s =>
    match f (files s) with
    | Ok a => (Return a, s)
    | Err e => (Throw (FsError e), s)
    end.

(** Records a call in the invocation log. *)
Definition observe (i : Invocation.t) : M unit :=
  fun s => (Return tt, State (files s) (requests s) (invocations s ++ [i])).

(** ** [fetchNpmPackage] *)

(** The address of the registry. *)
Definition registry : string := "https://registry.npmjs.org/".

(** [version.match(/^[\d\.\s]+$/)] *)
Definition digits_dots_spaces (version : string) : bool :=
  truthy version
  && all_chars
       (fun c => is_digit c || bool_decide (c = "."%char) || is_white_space c)
       version.

(** The flag [registryNeedsVersion] computed from [version]. *)
Definition registryNeedsVersion (version : string) : bool :=
  let registryNeedsVersion := false in
  if bool_decide (version = "latest") then true
  else if digits_dots_spaces version
          && (length (split "." version) =? 3)%nat then true
  else registryNeedsVersion.

(** The object that [fetchNpmPackage] returns. Its method
    [getPackageContents] closes over the arguments [packageName] and
    [version], over [url] and over [registryJson]; [requestedVersion] and
    [url] hold the two of these that are not fields already. *)
Module FetchedNpmPackageData.
Record t := Make {
  packageName : string;
  version : string;
  registryData : NpmPackage.t;
  requestedVersion : string;
  url : string
}.
End FetchedNpmPackageData.

(** [fetchNpmPackage({ packageName, version })] *)
Definition fetchNpmPackage (w : World) (packageName : string)
    (version : option string) : M FetchedNpmPackageData.t :=
  let version := default "latest" version in
  let registryNeedsVersion := registryNeedsVersion version in
  let '(url, errorMessagePackageName) :=
    if registryNeedsVersion
    then (registry +:+ packageName +:+ "/" +:+ version,
          packageName +:+ "@" +:+ version)
    else (registry +:+ packageName, packageName) in
  registryResponse <- fetch w url ;;
  if negb (Response.ok registryResponse) then
    if (Response.status registryResponse =? 404)%N
    then throw (DoesNotExist errorMessagePackageName)
    else throw (RegistryFailed errorMessagePackageName)
  else
    registryJson <-
      (if registryNeedsVersion then
         match json w (Response.blob registryResponse) with
         | Some (JsonPackage p) => ret p
         | _ => throw JsonError
         end
       else
         match json w (Response.blob registryResponse) with
         | Some (JsonVersionless versionlessPackageJson) =>
             let versions :=
               List.map fst
                 (NpmVersionlessPackage.versions versionlessPackageJson) in
             match SemVer.findHighestSemVer version versions with
             | Some highestVersion =>
                 if negb (truthy highestVersion)
                 then throw (VersionNotFound packageName version)
                 else
                   match property
                           (NpmVersionlessPackage.versions
                              versionlessPackageJson) highestVersion with
                   | Some p => ret p
                   | None => throw JsonError
                   end
             | None => throw (VersionNotFound packageName version)
             end
         | _ => throw JsonError
         end) ;;
    ret (FetchedNpmPackageData.Make packageName
           (NpmPackage.version registryJson) registryJson version url).

(** ** [getPackageContents] *)

(** [entry.fileName = entry.fileName.replace(/^package\//, "")] *)
Definition strip_package (entry : TarEntry.t) : TarEntry.t :=
  let fileName := TarEntry.fileName entry in
  TarEntry.Make
    (if startsWith "package/" fileName then slice_from 8 fileName
     else fileName)
    (TarEntry.type entry) (TarEntry.content entry).

(** The generator: what runs before the first entry is yielded, and then
    the entries it yields, in order, with the way the sequence ends. *)
Definition getPackageContents (w : World) (this : FetchedNpmPackageData.t)
  : M Archive.t :=
  let packageName := FetchedNpmPackageData.packageName this in
  let version := FetchedNpmPackageData.requestedVersion this in
  let url := FetchedNpmPackageData.url this in
  let dist := NpmPackage.dist (FetchedNpmPackageData.registryData this) in
  tarResponse <- fetch w (NpmPackageDist.tarball dist) ;;
  if negb (Response.ok tarResponse) then
    throw (InvalidStatus packageName version url (Response.status tarResponse))
  else
    let tarArrayBuffer := Response.blob tarResponse in
    let hashArray := Sha1.digest tarArrayBuffer in
    let hashHex := Sha1.hashHex hashArray in
    if negb (bool_decide (hashHex = NpmPackageDist.shasum dist)) then
      throw (ChecksumFailed packageName version)
    else
      match Response.body tarResponse with
      | None => throw BodyIsNull
      | Some bytes =>
          let untar := untar w bytes in
          ret (Archive.Make (List.map strip_package (Archive.entries untar))
                            (Archive.broken untar))
      end.

(** [for await (const entry of generator) body(entry)] *)
Definition for_await (generator : M Archive.t) (body : TarEntry.t -> M unit)
  : M unit :=
  contents <- generator ;;
  for_each body (Archive.entries contents) ;;;
  if Archive.broken contents then throw ArchiveError else ret tt.

(** ** [downloadPackageDependencies]

    The function and [downloadNpmPackage] call each other; the callee is a
    parameter here and is tied below. *)
Definition downloadPackageDependencies
    (downloadNpmPackage : Options.t -> M unit) (w : World)
    (depencencies : list (string * string)) (destination : string)
  : M unit :=
  for_each
    (fun '(packageName, version) =>
       let options :=
         Options.Make packageName (Some version)
           (Some (resolve (cwd w) [destination; packageName]))
           (Some true) None in
       observe (Invocation.Make destination options) ;;;
       downloadNpmPackage options)
    depencencies.

(** ** [downloadNpmPackage] *)

(** The body of the loop over the entries. The file system calls take the
    segments of the string that [path.resolve] returns. *)
Definition write_entry (w : World) (destination : string)
    (entry : TarEntry.t) : M unit :=
  let destinationPath :=
    resolve_path (cwd w) [destination; TarEntry.fileName entry] in
  if bool_decide (TarEntry.type entry = "directory") then
    fs_update (fun fs => ensureDir fs destinationPath)
  else
    fs_update (fun fs => ensureFile fs destinationPath) ;;;
    fs_update (fun fs =>
      open_copy_close fs destinationPath (TarEntry.content entry)).

(** [downloadNpmPackage(options)]. [depth] bounds how deep downloads of
    dependencies nest; every loop is over a finite list. *)
Fixpoint downloadNpmPackage (depth : nat) (w : World) (options : Options.t)
  : M unit :=
  match depth with
  | O => unfinished
  | S depth' =>
      let packageName := Options.packageName options in
      let version := default "latest" (Options.version options) in
      let destination := default "" (Options.destination options) in
      let downloadDependencies :=
        default false (Options.downloadDependencies options) in
      let downloadDevDependencies :=
        default false (Options.downloadDevDependencies options) in
      fetchedData <- fetchNpmPackage w packageName (Some version) ;;
      let destination :=
        if negb (truthy destination)
        then resolve (cwd w)
               [path_string (cwd w);
                "./npm_packages/"
                  +:+ FetchedNpmPackageData.packageName fetchedData
                  +:+ "/" +:+ FetchedNpmPackageData.version fetchedData]
        else destination in
      for_await (getPackageContents w fetchedData)
                (write_entry w destination) ;;;
      let needsPackageJson := downloadDependencies || downloadDevDependencies in
      if needsPackageJson then
        let packageJsonPath :=
          resolve_path (cwd w) [destination; "package.json"] in
        packageJsonStr <- fs_read (fun fs => readFile fs packageJsonPath) ;;
        match manifest w packageJsonStr with
        | None => throw JsonError
        | Some packageJson =>
            let nodeModulesPath :=
              resolve (cwd w) [destination; "node_modules"] in
            (if downloadDependencies then
               downloadPackageDependencies (downloadNpmPackage depth' w) w
                 (default [] (PackageJson.dependencies packageJson))
                 nodeModulesPath
             else ret tt) ;;;
            (if downloadDevDependencies then
               downloadPackageDependencies (downloadNpmPackage depth' w) w
                 (default [] (PackageJson.devDependencies packageJson))
                 nodeModulesPath
             else ret tt)
        end
      else ret tt
  end.

End Fetcher.

(* ===================================================================== *)
(** * The earlier [downloadNpmPackage] *)
(* ===================================================================== *)

Module Historical.
Import JS.

(** The earlier [downloadNpmPackage] fetched, verified and unpacked in one
    function, always by a direct lookup at {packageName}/{version}; its loop
    over the entries differs from the present one in how it removes the
    prefix: an entry outside [package/] made it throw "Assertion failed, ...
    is not in the package directory.". [entryPath] is that test and the
    [substring] after it; the error carries the file name. *)
Definition entryPath (fileName : string) : result string string :=
  if negb (startsWith "package/" fileName) then Err fileName
  else Ok (slice_from (String.length "package/") fileName).

Import Path Fs Fetcher.
Local Open Scope fetch_scope.

(** The loop of the earlier function over the entries of the archive. An
    entry outside [package/] ends it with the assertion error; [error] has
    no such case, so that ending is the result [Err] with the file name,
    and the entries after it are not read. The file is left to be closed
    by the runtime, which does not change what it holds. *)
Fixpoint write_entries (w : World) (destination : string)
    (entries : list TarEntry.t) : M (result string unit) :=
  match entries with
  | [] => ret (Ok tt)
  | entry :: rest =>
      match entryPath (TarEntry.fileName entry) with
      | Err fileName => ret (Err fileName)
      | Ok entryPath =>
          let destinationPath :=
            resolve_path (cwd w) [destination; entryPath] in
          (if bool_decide (TarEntry.type entry = "directory") then
             fs_update (fun fs => ensureDir fs destinationPath)
           else
             fs_update (fun fs => ensureFile fs destinationPath) ;;;
             fs_update (fun fs =>
               open_copy_close fs destinationPath (TarEntry.content entry))) ;;;
          write_entries w destination rest
      end
  end.

(** The earlier [downloadNpmPackage({ packageName, version, destination })];
    the answer of the registry is cast to [NpmPackage] without a look at
    its status. *)
Definition downloadNpmPackage (w : World) (packageName : string)
    (version destination : option string) : M (result string unit) :=
  let version := default "latest" version in
  let destination := default "" destination in
  let url := registry +:+ packageName +:+ "/" +:+ version in
  packageResponse <- fetch w url ;;
  packageJson <-
    match json w (Response.blob packageResponse) with
    | Some (JsonPackage p) => ret p
    | _ => throw JsonError
    end ;;
  let dist := NpmPackage.dist packageJson in
  let destination :=
    if negb (truthy destination)
    then resolve (cwd w)
           [path_string (cwd w);
            "./npm_packages/" +:+ packageName +:+ "/"
              +:+ NpmPackage.version packageJson]
    else destination in
  tarResponse <- fetch w (NpmPackageDist.tarball dist) ;;
  if negb (Response.ok tarResponse) then
    throw (InvalidStatus packageName version url (Response.status tarResponse))
  else
    let tarArrayBuffer := Response.blob tarResponse in
    let hashArray := Sha1.digest tarArrayBuffer in
    let hashHex := Sha1.hashHex hashArray in
    if negb (bool_decide (hashHex = NpmPackageDist.shasum dist)) then
      throw (ChecksumFailed packageName version)
    else
      match Response.body tarResponse with
      | None => throw BodyIsNull
      | Some bytes =>
          let untar := untar w bytes in
          ended <- write_entries w destination (Archive.entries untar) ;;
          match ended with
          | Err fileName => ret (Err fileName)
          | Ok _ => if Archive.broken untar then throw ArchiveError
                    else ret (Ok tt)
          end
      end.

End Historical.

(* ===================================================================== *)
(** * The vocabulary of the statements *)
(* ===================================================================== *)

Section Vocabulary.
Import JS SemVer Path Fs Fetcher.

(** ** Strings *)

(** [c] occurs in [s]. *)
Fixpoint occurs (c : ascii) (s : string) : bool :=
  match s with
  | "" => false
  | String a s' => bool_decide (a = c) || occurs c s'
  end.

(** A non-empty string of decimal digits, and the number it denotes. *)
Definition numeral (m : string) : Prop :=
  m <> "" /\ all_chars is_digit m = true.

(** The number a numeral denotes. *)
Definition numeral_value (m : string) : Z := default 0 (digits None m).

(** The integer that a string of decimal digits denotes: the digit at
    position [i], counted from the right, counts [10 ^ i]. *)
Fixpoint decimal (m : string) : Z :=
  match m with
  | "" => 0
  | String a m' =>
      digit_value a * 10 ^ Z.of_nat (String.length m') + decimal m'
  end.

(** The number that a numeral is read as: the double nearest to the integer
    it denotes. *)
Definition read (m : string) : Z := number_of (decimal m).

(** The integers that are doubles themselves. *)
Definition safe (n : Z) : Prop := Z.abs n < 2 ^ 53.

(** ["^M.N.P"] *)
Definition caret (m n p : string) : string :=
  "^" +:+ m +:+ "." +:+ n +:+ "." +:+ p.

(** The characters of a version made of numerals and dots. *)
Definition digit_or_dot (a : ascii) : bool :=
  is_digit a || bool_decide (a = "."%char).

(** [0-9a-f] *)
Definition lower_hex (c : ascii) : bool :=
  is_digit c || ((97 <=? code c) && (code c <=? 102))%N.

(** [A-F] *)
Definition upper_hex_letter (c : ascii) : bool :=
  ((65 <=? code c) && (code c <=? 70))%N.

(** A number between 0 and 255. *)
Definition octet (b : Z) : Prop := 0 <= b < 256.

(** [s.toLowerCase()] and [s.toUpperCase()] on the letters A to Z. *)
Definition lower_char (c : ascii) : ascii :=
  if ((65 <=? code c) && (code c <=? 90))%N
  then ascii_of_N (code c + 32) else c.

Definition upper_char (c : ascii) : ascii :=
  if ((97 <=? code c) && (code c <=? 122))%N
  then ascii_of_N (code c - 32) else c.

Fixpoint map_chars (f : ascii -> ascii) (s : string) : string :=
  match s with
  | "" => ""
  | String a s' => String (f a) (map_chars f s')
  end.

Definition toLowerCase : string -> string := map_chars lower_char.

Definition toUpperCase : string -> string := map_chars upper_char.

(** ** Versions *)

(** Version precedence: major first, then minor, then patch. *)
Definition precedes (a b : triple) : Prop :=
  let '(a1, a2, a3) := a in
  let '(b1, b2, b3) := b in
  a1 < b1 \/ (a1 = b1 /\ (a2 < b2 \/ (a2 = b2 /\ a3 < b3))).

(** The triple held by the variables of the loop. *)
Definition current (h : highest) : triple :=
  (highestMajor h, highestMinor h, highestPatch h).

(** What the loop has established after the candidates [seen]. *)
Record loop_invariant (version : string) (seen : list string) (h : highest)
  : Prop := {
  inv_floor : ~ precedes (current h) (0, 0, 0);
  inv_bound : forall c, c ∈ seen -> semVerMatches version c = true ->
              ~ precedes (current h) (parsePackageVersion c);
  inv_version :
    match highestVersion h with
    | Some c => c ∈ seen /\ semVerMatches version c = true
                /\ parsePackageVersion c = current h
                /\ precedes (0, 0, 0) (current h)
    | None => current h = (0, 0, 0)
    end
}.

(** The major component of a triple. *)
Definition major (t : triple) : Z := t.1.1.

(** ** Paths *)

(** The path of an entry stays inside: it is relative and has no [..]
    segment. *)
Definition stays_inside (fileName : string) : Prop :=
  startsWith "/" fileName = false /\ ".." ∉ split "/" fileName.

(** A segment that [normalizeString] keeps as it is. *)
Definition plain (segment : string) : Prop :=
  segment <> "" /\ segment <> "." /\ segment <> "..".

(** The path at which the loop of [downloadNpmPackage] writes an entry. *)
Definition target_of (w : World) (destination : string) (entry : TarEntry.t)
  : path :=
  resolve_path (cwd w) [destination; TarEntry.fileName entry].

(** ** Runs *)

(** The relation [R] holds between the state before and the state after
    every run of [m], whatever its outcome. *)
Definition steps (R : state -> state -> Prop) {A} (m : M A) : Prop :=
  forall s, R s (m s).2.

(** The file system and the invocation log are left as they are. *)
Definition quiet (s s' : state) : Prop :=
  files s' = files s /\ invocations s' = invocations s.

(** The state after the request for the tarball. *)
Definition requested (url : string) (s : state) : state :=
  State (files s) (requests s ++ [url]) (invocations s).

(** ** Registry answers *)

(** The address that [fetchNpmPackage] requests. *)
Definition registry_url (packageName version : string) : string :=
  if registryNeedsVersion version
  then registry +:+ packageName +:+ "/" +:+ version
  else registry +:+ packageName.

(** How the record [p] comes out of the registry's answer [r]: it is the
    answer itself on a direct lookup, and the entry of the version that
    [findHighestSemVer] selects otherwise. *)
Definition record_of (w : World) (version : string) (r : Response.t)
    (p : NpmPackage.t) : Prop :=
  if registryNeedsVersion version
  then json w (Response.blob r) = Some (JsonPackage p)
  else exists versionless highestVersion,
         json w (Response.blob r) = Some (JsonVersionless versionless)
         /\ SemVer.findHighestSemVer version
              (List.map fst (NpmVersionlessPackage.versions versionless))
            = Some highestVersion
         /\ property (NpmVersionlessPackage.versions versionless)
              highestVersion = Some p.

(** The tarball address, the declared checksum and the checksum error of a
    fetched package. *)
Definition tarball_of (data : FetchedNpmPackageData.t) : string :=
  NpmPackageDist.tarball
    (NpmPackage.dist (FetchedNpmPackageData.registryData data)).

Definition shasum_of (data : FetchedNpmPackageData.t) : string :=
  NpmPackageDist.shasum
    (NpmPackage.dist (FetchedNpmPackageData.registryData data)).

Definition checksum_error (data : FetchedNpmPackageData.t) : error :=
  ChecksumFailed (FetchedNpmPackageData.packageName data)
                 (FetchedNpmPackageData.requestedVersion data).

(** ** Calls of the dependency walker *)




(** ** The candidate that the loop selects *)

(** What the loop of [findHighestSemVer] holds after the candidates [seen]:
    nothing as long as no matching candidate lay above 0.0.0, and otherwise
    a matching candidate above everything matching before it and not below
    anything matching after it. *)
Definition selected (version : string) (seen : list string) (h : highest)
  : Prop :=
  match highestVersion h with
  | Some c =>
      parsePackageVersion c = current h
      /\ semVerMatches version c = true
      /\ precedes (0, 0, 0) (parsePackageVersion c)
      /\ exists before after,
           seen = before ++ c :: after
           /\ (forall c', c' ∈ before -> semVerMatches version c' = true ->
               precedes (parsePackageVersion c') (parsePackageVersion c))
           /\ (forall c', c' ∈ after -> semVerMatches version c' = true ->
               ~ precedes (parsePackageVersion c) (parsePackageVersion c'))
  | None =>
      current h = (0, 0, 0)
      /\ forall c, c ∈ seen -> semVerMatches version c = true ->
                   ~ precedes (0, 0, 0) (parsePackageVersion c)
  end.

(** ** Specifiers *)

(** The minor and the patch component of a triple. *)
Definition minor (t : triple) : Z := t.1.2.

Definition patch (t : triple) : Z := t.2.

(** ["M.N.P"], ["M.N"] and ["~M.N.P"] *)
Definition three_part (m n p : string) : string :=
  m +:+ "." +:+ n +:+ "." +:+ p.

Definition two_part (m n : string) : string := m +:+ "." +:+ n.

Definition tilde (m n p : string) : string := "~" +:+ three_part m n p.

(** The wildcards: "x", "X" and "*". *)
Definition wildcard (q : string) : Prop := q ∈ ["x"; "X"; "*"].

(** The number of parts of a specifier that have a digit. *)
Definition versionPartLength (version : string) : nat :=
  length (List.filter has_digit (split "." version)).

(** [A-Za-z] *)
Definition is_letter (c : ascii) : bool :=
  ((65 <=? code c) && (code c <=? 90) || (97 <=? code c) && (code c <=? 122))%N.

(** A character at which a version number ends: no digit, no dot, and none
    of the characters that [parsePackageVersion] removes or replaces. *)
Definition ends_number (c : ascii) : bool :=
  negb (is_digit c)
  && negb (bool_decide (c ∈ ["."; "~"; "^"; "x"; "X"; "*"]%char)).

(** ** Outcomes of [fetchNpmPackage] *)

(** The name that the errors of a failed registry lookup carry. *)
Definition errorMessagePackageName (packageName version : string) : string :=
  if registryNeedsVersion version
  then packageName +:+ "@" +:+ version
  else packageName.

(** What a successful [fetchNpmPackage] returns for the record [p]. *)
Definition fetched (packageName version : string) (p : NpmPackage.t)
  : FetchedNpmPackageData.t :=
  FetchedNpmPackageData.Make packageName (NpmPackage.version p) p version
    (registry_url packageName version).

(** ** Dependencies without end *)

(** Every manifest that can be read declares a dependency. *)
Definition always_depends (w : World) : Prop :=
  forall b packageJson,
    manifest w b = Some packageJson ->
    exists dependency rest,
      PackageJson.dependencies packageJson = Some (dependency :: rest).

(** ** Termination and the request log *)



(** ** Reading a rendering back *)

(** The value of a hexadecimal digit among [0-9a-f]. *)
Definition hex_value (c : ascii) : Z :=
  if is_digit c then digit_value c else Z.of_N (code c) - 87.

(** The numbers that a string of pairs of hexadecimal digits spells. *)
Fixpoint unhex (s : string) : list Z :=
  match s with
  | String h (String l rest) => (16 * hex_value h + hex_value l) :: unhex rest
  | _ => []
  end.

(** ** The earlier and the present download *)

(** An entry in the directory [package/]. *)
Definition in_package (entry : TarEntry.t) : Prop :=
  startsWith "package/" (TarEntry.fileName entry) = true.

(** A run of the present code as a run of the earlier one, which returns
    [Ok] where it does not end with its assertion. *)
Definition as_earlier (run : outcome unit * state)
  : outcome (result string unit) * state :=
  match run with
  | (Return _, s) => (Return (Ok tt), s)
  | (Throw e, s) => (Throw e, s)
  | (Unfinished, s) => (Unfinished, s)
  end.

(** A run of the present code cut by the assertion on [fileName]. *)
Definition asserting (fileName : string) (run : outcome unit * state)
  : outcome (result string unit) * state :=
  match run with
  | (Return _, s) => (Return (Err fileName), s)
  | (Throw e, s) => (Throw e, s)
  | (Unfinished, s) => (Unfinished, s)
  end.

(** ** The walk over the dependencies *)

(** The options with which [downloadPackageDependencies] downloads the
    dependency [packageName] at [version] below [destination]. *)
Definition dependency_options (w : World) (destination : string)
    (packageName version : string) : Options.t :=
  Options.Make packageName (Some version)
    (Some (resolve (cwd w) [destination; packageName])) (Some true) None.

(** The state once the call for a dependency has been logged. *)
Definition called (destination : string) (options : Options.t) (s : state)
  : state :=
  State (files s) (requests s)
        (invocations s ++ [Invocation.Make destination options]).

(** ** The calls of the dependency walker *)








End Vocabulary.

(* ===================================================================== *)
(** * A registry to run the code against *)
(* ===================================================================== *)

Module Scenario.
Import Path Fs Fetcher.

(** Bytes are written as the text they spell. *)
Definition bytes_of (s : string) : list byte := String.list_byte_of_string s.
Definition text_of (b : list byte) : string := String.string_of_list_byte b.

(** An empty file system, and nothing requested or called yet. *)
Definition start : state := State ∅ [] [].

(** The answer 200 with the body [s]. *)
Definition respond (s : string) : Response.t :=
  Response.Make 200 (Some (bytes_of s)).

(** The lowercase hexadecimal SHA-1 digest of a tarball. *)
Definition checksum (tarball : string) : string :=
  Sha1.hashHex (Sha1.digest (bytes_of tarball)).

(** A world given by tables: what each address answers, which registry
    document, archive and manifest each answer or file holds. The working
    directory is /home/me. *)
Definition world_of (routes : list (string * string))
    (documents : list (string * RegistryJson))
    (archives : list (string * Archive.t))
    (manifests : list (string * PackageJson.t)) : World := {|
  cwd := ["home"; "me"];
  http := fun url => respond <$> property routes url;
  json := fun b => property documents (text_of b);
  untar := fun b =>
    default (Archive.Make [] true) (property archives (text_of b));
  manifest := fun b => property manifests (text_of b)
|}.

(** ** The package "pkg", requested under the spelling "Pkg" *)

(** The records of pkg name their tarballs and carry the right checksums. *)
Definition pkg_tarball (version : string) : string :=
  "https://registry.npmjs.org/pkg/-/pkg-" +:+ version +:+ ".tgz".

Definition pkg (version : string) : NpmPackage.t :=
  NpmPackage.Make "pkg" version "a package"
    (NpmPackageDist.Make (pkg_tarball version)
       (checksum ("tarball of pkg " +:+ version))).

Definition pkg_versions : NpmVersionlessPackage.t :=
  NpmVersionlessPackage.Make
    [("1.0.0", pkg "1.0.0"); ("2.0.0", pkg "2.0.0");
     ("3.0.0-rc.1", pkg "3.0.0-rc.1")].

(** The archive of pkg 2.0.0, with one entry outside [package/]. *)
Definition pkg_archive : Archive.t :=
  Archive.Make
    [TarEntry.Make "package/" "directory" [];
     TarEntry.Make "package/package.json" "file" (bytes_of "{}");
     TarEntry.Make "other/readme.md" "file" (bytes_of "read me")]
    false.

(** The registry answers with [record] at .../Pkg/latest and serves
    [served], which unpacks to [archive], as the tarball of pkg 2.0.0. *)
Definition pkg_world_with (record : NpmPackage.t) (served : string)
    (archive : Archive.t) : World :=
  world_of
    [("https://registry.npmjs.org/Pkg/latest", "latest of pkg");
     ("https://registry.npmjs.org/Pkg", "versions of pkg");
     (pkg_tarball "2.0.0", served)]
    [("latest of pkg", JsonPackage record);
     ("versions of pkg", JsonVersionless pkg_versions)]
    [(served, archive)]
    [("{}", PackageJson.Make None None)].

(** The registry as it should be. *)
Definition pkg_world : World :=
  pkg_world_with (pkg "2.0.0") "tarball of pkg 2.0.0" pkg_archive.

(** What [fetchNpmPackage] returns for "Pkg" at "latest". *)
Definition pkg_latest : FetchedNpmPackageData.t :=
  FetchedNpmPackageData.Make "Pkg" "2.0.0" (pkg "2.0.0") "latest"
    "https://registry.npmjs.org/Pkg/latest".

(** The state after that call, and after the request for the tarball. *)
Definition after_pkg_latest : state :=
  State ∅ ["https://registry.npmjs.org/Pkg/latest"] [].

Definition after_pkg_tarball : state :=
  State ∅ ["https://registry.npmjs.org/Pkg/latest"; pkg_tarball "2.0.0"] [].

(** The record of pkg 2.0.0 with its checksum in capitals. *)
Definition capitals : NpmPackage.t :=
  NpmPackage.Make "pkg" "2.0.0" "a package"
    (NpmPackageDist.Make (pkg_tarball "2.0.0")
       (toUpperCase (checksum "tarball of pkg 2.0.0"))).

(** What [fetchNpmPackage] returns when the registry answers with it. *)
Definition capitals_latest : FetchedNpmPackageData.t :=
  FetchedNpmPackageData.Make "Pkg" "2.0.0" capitals "latest"
    "https://registry.npmjs.org/Pkg/latest".

(** The entries yielded for pkg 2.0.0. *)
Definition pkg_contents : Archive.t :=
  Archive.Make
    [TarEntry.Make "" "directory" [];
     TarEntry.Make "package.json" "file" (bytes_of "{}");
     TarEntry.Make "other/readme.md" "file" (bytes_of "read me")]
    false.

(** A download of "Pkg" at its default version into /srv/out. *)
Definition into_srv_out : Options.t :=
  Options.Make "Pkg" None (Some "/srv/out") None None.

(** The registry serves bytes that differ in one byte from those the
    checksum was made of. *)
Definition corrupted_world : World :=
  pkg_world_with (pkg "2.0.0") "tarball of pkg 2.0.1" pkg_archive.

(** An archive whose second entry climbs out of [package/]. *)
Definition climbing_archive : Archive.t :=
  Archive.Make
    [TarEntry.Make "package/index.js" "file" (bytes_of "inside");
     TarEntry.Make "package/../evil" "file" (bytes_of "outside")]
    false.

(** The registry serving that archive. *)
Definition climbing_world : World :=
  pkg_world_with (pkg "2.0.0") "tarball of pkg 2.0.0" climbing_archive.

(** The registry of pkg with [answer] as the answer to the request for the
    tarball of pkg 2.0.0. *)
Definition tarball_answer_world (answer : Response.t) : World := {|
  cwd := cwd pkg_world;
  http := fun url =>
    if bool_decide (url = pkg_tarball "2.0.0") then Some answer
    else http pkg_world url;
  json := json pkg_world;
  untar := untar pkg_world;
  manifest := manifest pkg_world
|}.

(** The tarball of pkg 2.0.0 answered with status 404, and with status 204
    and no body. *)
Definition tarball_not_found : World :=
  tarball_answer_world
    (Response.Make 404 (Some (bytes_of "tarball of pkg 2.0.0"))).

Definition tarball_without_body : World :=
  tarball_answer_world (Response.Make 204 None).

(** What [fetchNpmPackage] returns when the record of pkg 2.0.0 declares
    the checksum of the empty input. *)
Definition empty_latest : FetchedNpmPackageData.t :=
  FetchedNpmPackageData.Make "Pkg" "2.0.0"
    (NpmPackage.Make "pkg" "2.0.0" "a package"
       (NpmPackageDist.Make (pkg_tarball "2.0.0") (checksum "")))
    "latest" "https://registry.npmjs.org/Pkg/latest".

End Scenario.

Module DependencyScenario.
Import Path Fs Fetcher Scenario.

(** Three packages: app depends on dep and has the dev dependency tool; dep
    and tool both declare the dev dependency hidden. *)
Definition tarball_url (name version : string) : string :=
  "https://registry.npmjs.org/" +:+ name +:+ "/-/" +:+ name +:+ "-"
    +:+ version +:+ ".tgz".

Definition package (name version : string) : NpmPackage.t :=
  NpmPackage.Make name version ""
    (NpmPackageDist.Make (tarball_url name version)
       (checksum ("tarball of " +:+ name +:+ " " +:+ version))).

Definition only_manifest (manifest : string) : Archive.t :=
  Archive.Make
    [TarEntry.Make "package/package.json" "file" (bytes_of manifest)] false.

Definition app_world : World :=
  world_of
    [("https://registry.npmjs.org/app/1.0.0", "app 1.0.0");
     (tarball_url "app" "1.0.0", "tarball of app 1.0.0");
     ("https://registry.npmjs.org/dep", "versions of dep");
     (tarball_url "dep" "1.0.0", "tarball of dep 1.0.0");
     (tarball_url "dep" "1.2.0", "tarball of dep 1.2.0");
     ("https://registry.npmjs.org/tool/1.0.0", "tool 1.0.0");
     (tarball_url "tool" "1.0.0", "tarball of tool 1.0.0");
     ("https://registry.npmjs.org/hidden/1.0.0", "hidden 1.0.0");
     (tarball_url "hidden" "1.0.0", "tarball of hidden 1.0.0")]
    [("app 1.0.0", JsonPackage (package "app" "1.0.0"));
     ("versions of dep",
      JsonVersionless
        (NpmVersionlessPackage.Make
           [("1.0.0", package "dep" "1.0.0"); ("1.2.0", package "dep" "1.2.0");
            ("2.0.0", package "dep" "2.0.0")]));
     ("tool 1.0.0", JsonPackage (package "tool" "1.0.0"));
     ("hidden 1.0.0", JsonPackage (package "hidden" "1.0.0"))]
    [("tarball of app 1.0.0", only_manifest "manifest of app");
     ("tarball of dep 1.0.0", only_manifest "manifest of dep");
     ("tarball of dep 1.2.0", only_manifest "manifest of dep");
     ("tarball of tool 1.0.0", only_manifest "manifest of tool");
     ("tarball of hidden 1.0.0", only_manifest "manifest of hidden")]
    [("manifest of app",
      PackageJson.Make (Some [("dep", "^1.0.0")]) (Some [("tool", "1.0.0")]));
     ("manifest of dep", PackageJson.Make None (Some [("hidden", "1.0.0")]));
     ("manifest of tool", PackageJson.Make None (Some [("hidden", "1.0.0")]));
     ("manifest of hidden", PackageJson.Make None None)].

(** A download of app 1.0.0 into /srv/app with both kinds of dependencies. *)
Definition app_options : Options.t :=
  Options.Make "app" (Some "1.0.0") (Some "/srv/app") (Some true) (Some true).

(** A package that depends on itself. *)
Definition loop_world : World :=
  world_of
    [("https://registry.npmjs.org/loop/1.0.0", "loop 1.0.0");
     (tarball_url "loop" "1.0.0", "tarball of loop 1.0.0")]
    [("loop 1.0.0", JsonPackage (package "loop" "1.0.0"))]
    [("tarball of loop 1.0.0", only_manifest "manifest of loop")]
    [("manifest of loop",
      PackageJson.Make (Some [("loop", "1.0.0")]) None)].

Definition loop_options : Options.t :=
  Options.Make "loop" (Some "1.0.0") (Some "/srv/loop") (Some true) None.



End DependencyScenario.

(* ===================================================================== *)
(** * The program on examples *)
(* ===================================================================== *)

Section SemVerExamples.
Import SemVer.

Example resolve_tilde :
  findHighestSemVer "~1.2" ["1.2.0"; "1.2.9"; "1.3.0"] = Some "1.2.9".
Proof. reflexivity. Qed.

Example resolve_x :
  findHighestSemVer "1.x" ["1.0.0"; "1.9.0"; "2.0.0"] = Some "1.9.0".
Proof. reflexivity. Qed.

Example resolve_exact :
  findHighestSemVer "2.0.0" ["2.0.0"; "2.0.1"] = Some "2.0.0".
Proof. reflexivity. Qed.

Example resolve_zero :
  findHighestSemVer "*" ["0.0.0"] = None.
Proof. reflexivity. Qed.
End SemVerExamples.

Section NamesExamples.
Import Names.

Example split_scoped :
  splitNameAndVersion "@rollup/plugin-alias@4.0.2"
  = Ok {| packageName := "@rollup/plugin-alias"; version := "4.0.2" |}.
Proof. reflexivity. Qed.

Example split_many_at :
  splitNameAndVersion "@@@version"
  = Ok {| packageName := "@@"; version := "version" |}.
Proof. reflexivity. Qed.

Example split_empty :
  splitNameAndVersion "" = Err "The provided string is empty".
Proof. reflexivity. Qed.

Example split_no_at :
  splitNameAndVersion "package" = Err "The provided string contains no version".
Proof. reflexivity. Qed.

Example split_no_version :
  splitNameAndVersion "package@" = Err "The provided string contains no version".
Proof. reflexivity. Qed.

Example split_no_name :
  splitNameAndVersion "@version"
  = Err "The provided string contains no package name".
Proof. reflexivity. Qed.
End NamesExamples.

Section Sha1Examples.
Import Sha1.

Example sha1_empty :
  hashHex (digest []) = "da39a3ee5e6b4b0d3255bfef95601890afd80709".
Proof. vm_compute. reflexivity. Qed.

Example sha1_abc :
  hashHex (digest (String.list_byte_of_string "abc"))
  = "a9993e364706816aba3e25717850c26c9cd0d89d".
Proof. vm_compute. reflexivity. Qed.

Example sha1_two_blocks :
  hashHex (digest (String.list_byte_of_string
    "abcdbcdecdefdefgefghfghighijhijkijkljklmklmnlmnomnopnopq"))
  = "84983e441c3bd26ebaae4aa1f95129e5e54670f1".
Proof. vm_compute. reflexivity. Qed.
End Sha1Examples.

Section PathExamples.
Import Path.

Example resolve_relative :
  resolve ["home"; "me"] ["out"; "lib/index.js"] = "/home/me/out/lib/index.js".
Proof. reflexivity. Qed.

Example resolve_absolute :
  resolve ["home"; "me"] ["/tmp/x"; "./a/../b/"] = "/tmp/x/b".
Proof. reflexivity. Qed.

Example resolve_escape :
  resolve ["home"; "me"] ["/dest"; "../evil"] = "/evil".
Proof. reflexivity. Qed.

Example resolve_above_root :
  resolve [] ["/dest"; "../../.."] = "/".
Proof. reflexivity. Qed.
End PathExamples.

Section ScenarioExamples.
Import Fetcher Scenario.

Example fetch_pkg_latest :
  fetchNpmPackage pkg_world "Pkg" (Some "latest") start
  = (Return pkg_latest, after_pkg_latest).
Proof. vm_compute. reflexivity. Qed.

Example fetch_pkg_range :
  (fetchNpmPackage pkg_world "Pkg" (Some "^1.0.0") start).2
  = State ∅ ["https://registry.npmjs.org/Pkg"] [].
Proof. vm_compute. reflexivity. Qed.
End ScenarioExamples.

Section DependencyExamples.
Import Path Fs Fetcher Scenario DependencyScenario.

(** The download of app with dependencies and dev dependencies: dep and tool
    are downloaded below /srv/app/node_modules, hidden is never requested. *)
Example download_app :
  let run := downloadNpmPackage 2 app_world app_options start in
  run.1 = Return tt
  /\ requests run.2
     = ["https://registry.npmjs.org/app/1.0.0"; tarball_url "app" "1.0.0";
        "https://registry.npmjs.org/dep"; tarball_url "dep" "1.2.0";
        "https://registry.npmjs.org/tool/1.0.0"; tarball_url "tool" "1.0.0"]
  /\ invocations run.2
     = [Invocation.Make "/srv/app/node_modules"
          (Options.Make "dep" (Some "^1.0.0")
             (Some "/srv/app/node_modules/dep") (Some true) None);
        Invocation.Make "/srv/app/node_modules"
          (Options.Make "tool" (Some "1.0.0")
             (Some "/srv/app/node_modules/tool") (Some true) None)]
  /\ files run.2 !! ["srv"; "app"; "node_modules"; "dep"; "package.json"]
     = Some (File (bytes_of "manifest of dep"))
  /\ files run.2 !! ["srv"; "app"; "node_modules"; "tool"; "package.json"]
     = Some (File (bytes_of "manifest of tool"))
  /\ size (files run.2) = 8%nat.
Proof. vm_compute. repeat split. Qed.

(** With too small a depth the download does not finish. *)
Example download_app_unfinished :
  (downloadNpmPackage 1 app_world app_options start).1 = Unfinished.
Proof. vm_compute. reflexivity. Qed.

End DependencyExamples.

(* ===================================================================== *)
(** * Properties of the string primitives *)
(* ===================================================================== *)

Section StringFacts.
Import JS Names.

Lemma app_empty_l (s : string) : "" +:+ s = s.
Proof. reflexivity. Qed.

Lemma app_String (a : ascii) (s t : string) :
  String a s +:+ t = String a (s +:+ t).
Proof. reflexivity. Qed.

Lemma app_empty_r (s : string) : s +:+ "" = s.
Proof. induction s as [|a s IH]; [done|]. by rewrite app_String, IH. Qed.

Lemma app_assoc_s (s t u : string) : (s +:+ t) +:+ u = s +:+ (t +:+ u).
Proof.
  induction s as [|a s IH]; [done|]. by rewrite !app_String, IH.
Qed.

Lemma truthy_true (s : string) : truthy s = true <-> s <> "".
Proof. destruct s; simpl; split; congruence. Qed.

Lemma truthy_false (s : string) : truthy s = false <-> s = "".
Proof. destruct s; simpl; split; congruence. Qed.

Lemma occurs_app (c : ascii) (s t : string) :
  occurs c (s +:+ t) = occurs c s || occurs c t.
Proof.
  induction s as [|a s IH]; [done|].
  rewrite app_String. simpl. rewrite IH. by rewrite orb_assoc.
Qed.

Lemma lastIndexOf_None (c : ascii) (s : string) :
  lastIndexOf c s = None <-> occurs c s = false.
Proof.
  induction s as [|a s IH]; simpl; [done|].
  destruct (lastIndexOf c s) as [i|].
  - split; [done|]. intros [_ H]%orb_false_iff.
    apply IH in H. discriminate.
  - destruct IH as [IH _]. rewrite (IH eq_refl), orb_false_r.
    by destruct (bool_decide (a = c)).
Qed.

Lemma lastIndexOf_Some (c : ascii) (s : string) (i : nat) :
  lastIndexOf c s = Some i ->
  s = slice_to i s +:+ String c (slice_from (S i) s)
  /\ occurs c (slice_from (S i) s) = false.
Proof.
  revert i. induction s as [|a s IH]; intros i; simpl; [done|].
  destruct (lastIndexOf c s) as [j|] eqn:E.
  - intros [= <-]. destruct (IH j eq_refl) as [H1 H2].
    split; [|done].
    change (slice_from (S (S j)) (String a s)) with (slice_from (S j) s).
    change (slice_to (S j) (String a s)) with (String a (slice_to j s)).
    rewrite app_String. by f_equal.
  - case_bool_decide as Hac; [|done]. intros [= <-]. subst a.
    split; [done|]. simpl. by apply lastIndexOf_None.
Qed.

Lemma lastIndexOf_app (c : ascii) (a b : string) :
  occurs c b = false ->
  lastIndexOf c (a +:+ String c b) = Some (String.length a).
Proof.
  intros Hb. induction a as [|x a IH].
  - rewrite app_empty_l. simpl.
    apply lastIndexOf_None in Hb. rewrite Hb.
    by rewrite bool_decide_eq_true_2.
  - rewrite app_String. simpl. by rewrite IH.
Qed.

Lemma slice_to_app (a b : string) : slice_to (String.length a) (a +:+ b) = a.
Proof.
  induction a as [|x a IH]; [done|]. rewrite app_String. simpl. by rewrite IH.
Qed.

Lemma slice_from_app (a b : string) :
  slice_from (String.length a) (a +:+ b) = b.
Proof. induction a as [|x a IH]; [done|]. by rewrite app_String. Qed.

(** The value on a decomposition at the last [@]. *)
Lemma splitNameAndVersion_at (a b : string) :
  occurs "@" b = false ->
  splitNameAndVersion (a +:+ "@" +:+ b)
  = if negb (truthy a) then Err "The provided string contains no package name"
    else if negb (truthy b) then Err "The provided string contains no version"
    else Ok {| packageName := a; version := b |}.
Proof.
  intros Hb. unfold splitNameAndVersion.
  assert (truthy (a +:+ "@" +:+ b) = true) as ->.
  { destruct a; [done|]. by rewrite app_String. }
  change ("@" +:+ b) with (String "@" b).
  rewrite (lastIndexOf_app _ _ _ Hb). cbn [negb].
  rewrite slice_to_app, Nat.add_1_r.
  assert (slice_from (S (String.length a)) (a +:+ String "@" b) = b) as ->.
  { clear Hb. induction a as [|x a IH]; [done|]. by rewrite app_String. }
  done.
Qed.

(** The value when there is no [@]. *)
Lemma splitNameAndVersion_no_at (s : string) :
  occurs "@" s = false -> is_err (splitNameAndVersion s).
Proof.
  intros Hs. unfold splitNameAndVersion.
  destruct (truthy s); simpl; [|done].
  apply lastIndexOf_None in Hs. by rewrite Hs.
Qed.

(** Every string without [@] or with a last one. *)
Lemma last_at_cases (s : string) :
  occurs "@" s = false
  \/ exists a b, s = a +:+ "@" +:+ b /\ occurs "@" b = false.
Proof.
  destruct (lastIndexOf "@" s) as [i|] eqn:E.
  - right. apply lastIndexOf_Some in E as [H1 H2].
    exists (slice_to i s), (slice_from (S i) s). split; [exact H1|exact H2].
  - left. by apply lastIndexOf_None.
Qed.

(** The decomposition at the last [@] is unique. *)
Lemma last_at_unique (a b a' b' : string) :
  a +:+ "@" +:+ b = a' +:+ "@" +:+ b' ->
  occurs "@" b = false -> occurs "@" b' = false ->
  a = a' /\ b = b'.
Proof.
  intros Heq Hb Hb'.
  pose proof (lastIndexOf_app "@" a b Hb) as H1.
  pose proof (lastIndexOf_app "@" a' b' Hb') as H2.
  change ("@" +:+ b) with (String "@" b) in Heq.
  change ("@" +:+ b') with (String "@" b') in Heq.
  rewrite Heq, H2 in H1. injection H1 as Hlen.
  pose proof (slice_to_app a (String "@" b)) as Ha.
  rewrite Heq, <- Hlen, slice_to_app in Ha. subst a'.
  split; [done|]. apply String.app_inj in Heq. by injection Heq.
Qed.

End StringFacts.

(* ===================================================================== *)
(** * [splitNameAndVersion] splits on the last [@] *)
(* ===================================================================== *)

Section SplitNameAndVersion.
Import JS Names.

Lemma occurs_at_app (a b : string) : occurs "@" (a +:+ "@" +:+ b) = true.
Proof.
  rewrite occurs_app. change ("@" +:+ b) with (String "@" b).
  simpl. by rewrite orb_true_r.
Qed.

(** C8. For every input string, [splitNameAndVersion] returns the part
    before the last [@] as the package name and the part after it as the
    version, and it throws exactly when the input is empty, has no [@], or
    has an empty part before or after its last [@]. *)
Theorem splitNameAndVersion_splits_on_last_at (s : string) :
  (forall name ver,
     splitNameAndVersion s = Ok {| packageName := name; version := ver |}
     <-> s = name +:+ "@" +:+ ver /\ occurs "@" ver = false
         /\ name <> "" /\ ver <> "")
  /\ (is_err (splitNameAndVersion s)
      <-> s = "" \/ occurs "@" s = false
          \/ exists name ver,
               s = name +:+ "@" +:+ ver /\ occurs "@" ver = false
               /\ (name = "" \/ ver = "")).
Proof.
  destruct (last_at_cases s) as [Hno|(a & b & -> & Hb)].
  - pose proof (splitNameAndVersion_no_at s Hno) as Herr. split.
    + intros name ver. split.
      * intros E. rewrite E in Herr. destruct Herr.
      * intros (-> & _). by rewrite occurs_at_app in Hno.
    + split; [by auto|]. by intros _.
  - rewrite (splitNameAndVersion_at a b Hb). split.
    + intros name ver. split.
      * destruct (truthy a) eqn:Ha; [|done].
        destruct (truthy b) eqn:Hb'; [|done]. simpl.
        intros [= <- <-]. by rewrite <- !truthy_true.
      * intros (Heq & Hver & Hname & Hver').
        destruct (last_at_unique _ _ _ _ Heq Hb Hver) as [-> ->].
        apply truthy_true in Hname, Hver'. by rewrite Hname, Hver'.
    + split.
      * intros Herr. right. right. exists a, b. split; [done|]. split; [done|].
        destruct (truthy a) eqn:Ha; [|left; by apply truthy_false].
        destruct (truthy b) eqn:Hb'; [|right; by apply truthy_false].
        destruct Herr.
      * intros [Hs|[Hs|(name & ver & Heq & Hver & Hor)]].
        -- destruct a; discriminate Hs.
        -- by rewrite occurs_at_app in Hs.
        -- destruct (last_at_unique _ _ _ _ Heq Hb Hver) as [-> ->].
           destruct Hor as [-> | ->]; [done|].
           by destruct (truthy name).
Qed.

End SplitNameAndVersion.

(* ===================================================================== *)
(** * What [findHighestSemVer] returns *)
(* ===================================================================== *)

Section FindHighest.
Import JS SemVer.

Lemma isHighest_precedes (h : highest) (t : triple) :
  isHighest h t = true <-> precedes (current h) t.
Proof.
  destruct h as [hM hm hp hv], t as [[M m] p]. unfold isHighest, current, precedes.
  simpl.
  destruct (Z.gtb_spec M hM); [split; [lia|done]|].
  destruct (Z.eqb_spec M hM); [|split; [done|lia]].
  destruct (Z.gtb_spec m hm); [split; [lia|done]|].
  destruct (Z.eqb_spec m hm); [|split; [done|lia]].
  destruct (Z.gtb_spec p hp); split; (done || lia).
Qed.

Lemma precedes_trans (a b c : triple) :
  precedes a b -> precedes b c -> precedes a c.
Proof.
  destruct a as [[??]?], b as [[??]?], c as [[??]?]. unfold precedes. lia.
Qed.

Lemma precedes_irrefl (a : triple) : ~ precedes a a.
Proof. destruct a as [[??]?]. unfold precedes. lia. Qed.

Lemma precedes_total (a b : triple) : precedes a b \/ a = b \/ precedes b a.
Proof.
  destruct a as [[a1 a2] a3], b as [[b1 b2] b3]. unfold precedes.
  destruct (Z.lt_total a1 b1) as [?|[->|?]]; [lia| |lia].
  destruct (Z.lt_total a2 b2) as [?|[->|?]]; [lia| |lia].
  destruct (Z.lt_total a3 b3) as [?|[->|?]]; [lia| |lia].
  right; left; done.
Qed.

Lemma loop_invariant_start (version : string) :
  loop_invariant version [] (Highest 0 0 0 None).
Proof.
  split; simpl; [unfold precedes, current; simpl; lia| |done].
  intros c Hc. by apply elem_of_nil in Hc.
Qed.

Lemma loop_invariant_visit (version : string) (seen : list string)
    (h : highest) (c : string) :
  loop_invariant version seen h ->
  loop_invariant version (seen ++ [c]) (visit version h c).
Proof.
  intros [Hfloor Hbound Hver]. unfold visit.
  destruct (semVerMatches version c) eqn:Hm; cbn [negb].
  - destruct (parsePackageVersion c) as [[M m] p] eqn:Hp. cbv beta iota.
    destruct (isHighest h (M, m, p)) eqn:Hhi.
    + apply isHighest_precedes in Hhi.
      assert (precedes (0, 0, 0) (M, m, p)) as Hpos.
      { destruct (precedes_total (0, 0, 0) (current h)) as [H|[H|H]].
        - by eapply precedes_trans.
        - by rewrite H.
        - done. }
      split.
      * change (~ precedes (M, m, p) (0, 0, 0)). intros H.
        apply (precedes_irrefl (0, 0, 0)). by eapply precedes_trans.
      * change (current (Highest M m p (Some c))) with (M, m, p).
        intros c' [Hc'|Hc']%elem_of_app Hm' H.
        -- apply (Hbound c' Hc' Hm'). by eapply precedes_trans.
        -- apply list_elem_of_singleton in Hc'. subst c'. rewrite Hp in H.
           by eapply precedes_irrefl.
      * change (c ∈ seen ++ [c] /\ semVerMatches version c = true
                /\ parsePackageVersion c = (M, m, p)
                /\ precedes (0, 0, 0) (M, m, p)).
        split; [apply elem_of_app; right; by apply list_elem_of_singleton|].
        by rewrite Hp.
    + assert (~ precedes (current h) (M, m, p)) as Hno.
      { intros H. apply isHighest_precedes in H. congruence. }
      split; [done| |].
      * intros c' [Hc'|Hc']%elem_of_app Hm'; [by apply Hbound|].
        apply list_elem_of_singleton in Hc'. subst c'. by rewrite Hp.
      * destruct (highestVersion h); [|done].
        destruct Hver as (? & ? & ? & ?). split; [|done].
        apply elem_of_app. by left.
  - split; [done| |].
    + intros c' [Hc'|Hc']%elem_of_app Hm'; [by apply Hbound|].
      apply list_elem_of_singleton in Hc'. subst c'. congruence.
    + destruct (highestVersion h); [|done].
      destruct Hver as (? & ? & ? & ?). split; [|done].
      apply elem_of_app. by left.
Qed.

Lemma loop_invariant_end (version : string) (versionList : list string) :
  loop_invariant version versionList
    (fold_left (visit version) versionList (Highest 0 0 0 None)).
Proof.
  induction versionList as [|c l IH] using rev_ind.
  - apply loop_invariant_start.
  - rewrite fold_left_app. simpl. by apply loop_invariant_visit.
Qed.

(** A returned version is a candidate that matches, lies above 0.0.0 and
    is not preceded by a matching candidate. *)
Lemma findHighestSemVer_Some (version : string) (versionList : list string)
    (c : string) :
  findHighestSemVer version versionList = Some c ->
  c ∈ versionList /\ semVerMatches version c = true
  /\ precedes (0, 0, 0) (parsePackageVersion c)
  /\ forall c', c' ∈ versionList -> semVerMatches version c' = true ->
                ~ precedes (parsePackageVersion c) (parsePackageVersion c').
Proof.
  unfold findHighestSemVer. intros E.
  destruct (loop_invariant_end version versionList) as [_ Hbound Hver].
  rewrite E in Hver. destruct Hver as (Hin & Hm & Hp & Hpos).
  rewrite Hp. auto.
Qed.

(** Nothing is returned exactly when no matching candidate lies above
    0.0.0. *)
Lemma findHighestSemVer_None (version : string) (versionList : list string) :
  findHighestSemVer version versionList = None
  <-> forall c, c ∈ versionList -> semVerMatches version c = true ->
                ~ precedes (0, 0, 0) (parsePackageVersion c).
Proof.
  unfold findHighestSemVer.
  destruct (loop_invariant_end version versionList) as [_ Hbound Hver].
  destruct (highestVersion _) as [c|] eqn:E.
  - split; [done|]. intros H. exfalso.
    destruct Hver as (Hin & Hm & Hp & Hpos).
    apply (H c Hin Hm). by rewrite Hp.
  - split; [|done]. intros _ c Hin Hm. rewrite <- Hver. by apply Hbound.
Qed.

End FindHighest.

(* ===================================================================== *)
(** * Caret specifiers *)
(* ===================================================================== *)

Section Caret.
Import JS SemVer Names.

Lemma all_chars_app (q : ascii -> bool) (s t : string) :
  all_chars q (s +:+ t) = all_chars q s && all_chars q t.
Proof.
  induction s as [|a s IH]; [done|].
  rewrite app_String. simpl. by rewrite IH, andb_assoc.
Qed.

Lemma all_chars_weaken (q r : ascii -> bool) (s : string) :
  (forall a, q a = true -> r a = true) ->
  all_chars q s = true -> all_chars r s = true.
Proof.
  intros Hqr. induction s as [|a s IH]; [done|]. simpl.
  intros [Ha Hs]%andb_true_iff. by rewrite (Hqr a Ha), IH.
Qed.

Lemma all_chars_absent (q : ascii -> bool) (c : ascii) (s : string) :
  q c = false -> all_chars q s = true -> occurs c s = false.
Proof.
  intros Hc. induction s as [|a s IH]; [done|]. simpl.
  intros [Ha Hs]%andb_true_iff. rewrite (IH Hs), orb_false_r.
  apply bool_decide_eq_false_2. intros ->. congruence.
Qed.

Lemma replaceAll_absent (c : ascii) (r s : string) :
  occurs c s = false -> replaceAll c r s = s.
Proof.
  induction s as [|a s IH]; [done|]. simpl.
  intros [Ha Hs]%orb_false_iff. by rewrite Ha, IH.
Qed.

Lemma trimEnd_id (s : string) :
  all_chars (fun a => negb (is_white_space a)) s = true -> trimEnd s = s.
Proof.
  induction s as [|a s IH]; [done|]. simpl.
  intros [Ha Hs]%andb_true_iff. rewrite (IH Hs).
  apply negb_true_iff in Ha. rewrite Ha. by destruct s.
Qed.

Lemma split_first (sep : ascii) (m rest : string) :
  occurs sep m = false ->
  split sep (m +:+ String sep rest) = m :: split sep rest.
Proof.
  induction m as [|a m IH]; intros Hm.
  - rewrite app_empty_l. simpl. by rewrite bool_decide_eq_true_2.
  - rewrite app_String. simpl in *.
    apply orb_false_iff in Hm as [Ha Hm]. by rewrite Ha, (IH Hm).
Qed.

Lemma digit_not_sign (d : ascii) :
  is_digit d = true ->
  d <> "-"%char /\ d <> "+"%char /\ is_white_space d = false.
Proof.
  destruct d as [[] [] [] [] [] [] [] []]; intros H;
    try discriminate H; by repeat split.
Qed.

Lemma default_number_of (o : option Z) :
  default 0 (number_of <$> o) = number_of (default 0 o).
Proof. by destruct o. Qed.

Lemma parseInt_from_digit (d : ascii) (r : string) :
  is_digit d = true ->
  parseInt (Some (String d r)) = number_of <$> digits None (String d r).
Proof.
  intros Hd. destruct (digit_not_sign d Hd) as (Hm & Hp & Hw).
  unfold parseInt. cbn [trimStart]. rewrite Hw.
  destruct d as [[] [] [] [] [] [] [] []]; try done.
Qed.

Lemma parseInt_numeral (m : string) :
  numeral m -> default 0 (parseInt (Some m)) = number_of (numeral_value m).
Proof.
  intros [Hne Hd]. destruct m as [|d m]; [done|].
  simpl in Hd. apply andb_true_iff in Hd as [Hd _].
  by rewrite parseInt_from_digit, default_number_of.
Qed.

Lemma digits_decimal (acc : option Z) (m : string) :
  all_chars is_digit m = true -> m <> "" ->
  digits acc m
  = Some (default 0 acc * 10 ^ Z.of_nat (String.length m) + decimal m).
Proof.
  revert acc. induction m as [|a m IH]; intros acc Hm Hne; [done|].
  cbn [all_chars] in Hm. apply andb_true_iff in Hm as [Ha Hm].
  cbn [digits decimal]. rewrite Ha.
  destruct (decide (m = "")) as [->|Hm'].
  - cbn [digits String.length decimal]. f_equal.
    change (default 0 (Some ?x)) with x.
    change (Z.of_nat 1) with 1. change (Z.of_nat 0) with 0. lia.
  - rewrite (IH _ Hm Hm'). f_equal.
    change (default 0 (Some ?x)) with x. cbn [String.length].
    rewrite Nat2Z.inj_succ, Z.pow_succ_r by lia. ring.
Qed.

(** A numeral is read as the integer it denotes. *)
Lemma numeral_value_decimal (m : string) :
  numeral m -> numeral_value m = decimal m.
Proof.
  intros [Hne Hm]. unfold numeral_value. rewrite digits_decimal by done.
  change (default 0 (Some ?x)) with x. change (default 0 None) with 0. lia.
Qed.

Lemma parseInt_read (m : string) :
  numeral m -> default 0 (parseInt (Some m)) = read m.
Proof.
  intros Hm. by rewrite parseInt_numeral, numeral_value_decimal.
Qed.

Lemma number_of_safe (n : Z) : safe n -> number_of n = n.
Proof.
  unfold safe, number_of. intros Hn. cbv zeta.
  by rewrite (proj2 (Z.ltb_lt _ _) Hn).
Qed.

(** The parts of a number from 2^53 on: the 53 leading bits and the rest. *)
Lemma leading_bits (n : Z) :
  2 ^ 53 <= n ->
  let dropped := Z.log2 n - 52 in
  let half := 2 ^ (dropped - 1) in
  let kept := Z.shiftr n dropped in
  1 <= dropped /\ 0 < half /\ 2 ^ dropped = 2 * half
  /\ Z.shiftl kept dropped = kept * (2 * half)
  /\ Z.shiftl (kept + 1) dropped = (kept + 1) * (2 * half)
  /\ 2 ^ 52 <= kept < 2 ^ 53
  /\ kept * (2 * half) <= n < (kept + 1) * (2 * half).
Proof.
  intros Hn dropped half kept.
  assert (0 < n) as Hpos by (pose proof (Z.pow_pos_nonneg 2 53); lia).
  assert (53 <= Z.log2 n) as Hlog.
  { rewrite <- (Z.log2_pow2 53) by lia. apply Z.log2_le_mono; exact Hn. }
  assert (1 <= dropped) as Hd by (unfold dropped; lia).
  assert (0 < half) as Hhalf by (apply Z.pow_pos_nonneg; lia).
  assert (2 ^ dropped = 2 * half) as Hpow.
  { unfold half. rewrite <- Z.pow_succ_r by lia. f_equal. lia. }
  destruct (Z.log2_spec n Hpos) as [Hlo Hhi].
  assert (2 ^ Z.log2 n = 2 ^ 52 * (2 * half)) as Hlo'.
  { rewrite <- Hpow, <- Z.pow_add_r by lia. f_equal. unfold dropped. lia. }
  assert (2 ^ Z.succ (Z.log2 n) = 2 ^ 53 * (2 * half)) as Hhi'.
  { rewrite <- Hpow, <- Z.pow_add_r by lia. f_equal. unfold dropped. lia. }
  rewrite Hlo' in Hlo. rewrite Hhi' in Hhi.
  assert (kept = n / (2 * half)) as Hkept.
  { unfold kept. rewrite Z.shiftr_div_pow2 by lia. rewrite Hpow; reflexivity. }
  pose proof (Z.div_mod n (2 * half) ltac:(lia)) as Hdiv.
  pose proof (Z.mod_pos_bound n (2 * half) ltac:(lia)) as Hmod.
  rewrite <- Hkept in Hdiv.
  repeat split; try lia.
  - rewrite Z.shiftl_mul_pow2 by lia. rewrite Hpow; reflexivity.
  - rewrite Z.shiftl_mul_pow2 by lia. rewrite Hpow; reflexivity.
  - apply Z.nlt_ge. intros Hlt. 
    assert (kept + 1 <= 2 ^ 52) by lia. nia.
  - apply Z.nle_gt. intros Hge. nia.
Qed.

(** From 2^53 on, [number_of] gives [Infinity] or the nearest of the
    numbers with 53 leading bits, the even one of two at the same
    distance. *)
Lemma number_of_nearest (n : Z) :
  2 ^ 53 <= n ->
  let ulp := 2 ^ (Z.log2 n - 52) in
  number_of n = 2 ^ 1024
  \/ exists k,
       2 ^ 52 <= k <= 2 ^ 53 /\ number_of n = k * ulp
       /\ 2 * Z.abs (number_of n - n) <= ulp
       /\ (2 * Z.abs (number_of n - n) = ulp -> Z.even k = true).
Proof.
  intros Hn ulp.
  destruct (leading_bits n Hn)
    as (Hd & Hhalf & Hpow & Hkept & Hnext & Hbits & Hbetween).
  assert (0 < n) as Hpos by (pose proof (Z.pow_pos_nonneg 2 53); lia).
  unfold number_of. rewrite (Z.abs_eq n) by lia.
  destruct (Z.ltb_spec n (2 ^ 53)) as [Hlt|_]; [lia|]. cbv zeta.
  rewrite (Z.sgn_pos n) by lia. unfold ulp. rewrite Hpow, Hkept.
  set (half := 2 ^ (Z.log2 n - 52 - 1)) in *.
  set (kept := Z.shiftr n (Z.log2 n - 52)) in *.
  set (rest := n - kept * (2 * half)).
  assert (0 <= rest < 2 * half) as Hrest by (unfold rest; lia).
  destruct ((half <? rest) || ((rest =? half) && Z.odd kept)) eqn:Hup.
  - rewrite Hnext.
    destruct (Z.leb_spec (2 ^ 1024) ((kept + 1) * (2 * half)));
      [left; lia|right].
    exists (kept + 1). split; [lia|]. split; [lia|].
    apply orb_true_iff in Hup as [Hup|Hup].
    + apply Z.ltb_lt in Hup. split; [unfold rest in Hup; lia|].
      unfold rest in Hup. lia.
    + apply andb_true_iff in Hup as [Hup Hodd]. apply Z.eqb_eq in Hup.
      split; [unfold rest in Hup; lia|]. intros _.
      rewrite Z.add_1_r, Z.even_succ. exact Hodd.
  - rewrite Hkept.
    destruct (Z.leb_spec (2 ^ 1024) (kept * (2 * half)));
      [left; lia|right].
    exists kept. split; [lia|]. split; [lia|].
    apply orb_false_iff in Hup as [Hup Htie]. apply Z.ltb_ge in Hup.
    split; [unfold rest in Hup; lia|]. intros Heq.
    assert (rest = half) as Hr by (unfold rest; lia).
    apply Z.eqb_eq in Hr. rewrite Hr in Htie. cbn [andb] in Htie.
    rewrite <- Z.negb_odd. rewrite Htie; reflexivity.
Qed.

(** [number_of] gives [Infinity] from 2^1024 - 2^970 on, the middle between
    the largest double and 2^1024. *)
Lemma number_of_infinite (n : Z) :
  2 ^ 53 <= n ->
  number_of n = 2 ^ 1024 <-> 2 ^ 1024 - 2 ^ 970 <= n.
Proof.
  intros Hn.
  destruct (leading_bits n Hn)
    as (Hd & Hhalf & Hpow & Hkept & Hnext & Hbits & Hbetween).
  assert (0 < n) as Hpos by (pose proof (Z.pow_pos_nonneg 2 53); lia).
  unfold number_of. rewrite (Z.abs_eq n) by lia.
  destruct (Z.ltb_spec n (2 ^ 53)) as [Hlt|_]; [lia|]. cbv zeta.
  rewrite (Z.sgn_pos n) by lia. rewrite Hkept.
  set (dropped := Z.log2 n - 52) in *.
  set (half := 2 ^ (dropped - 1)) in *.
  set (kept := Z.shiftr n dropped) in *.
  set (rest := n - kept * (2 * half)).
  set (up := (half <? rest) || ((rest =? half) && Z.odd kept)).
  assert (Z.shiftl (if up then kept + 1 else kept) dropped
          = (if up then kept + 1 else kept) * (2 * half)) as ->
    by (destruct up; [exact Hnext|exact Hkept]).
  set (rounded := (if up then kept + 1 else kept) * (2 * half)).
  assert ((if 2 ^ 1024 <=? rounded then 2 ^ 1024 else rounded) = 2 ^ 1024
          <-> 2 ^ 1024 <= rounded) as Hinf.
  { destruct (Z.leb_spec (2 ^ 1024) rounded); lia. }
  rewrite Z.mul_1_l, Hinf. clear Hinf.
  destruct (Z.lt_ge_cases n (2 ^ 1024)) as [Hfinite|Hhuge].
  - apply Z.log2_lt_pow2 in Hfinite as Hlog; [|exact Hpos].
    destruct (Z.lt_ge_cases n (2 ^ 1023)) as [Hsmall|Hlarge].
    + apply Z.log2_lt_pow2 in Hsmall as Hlog'; [|exact Hpos].
      assert (2 * half <= 2 ^ 970) as Hulp.
      { rewrite <- Hpow. apply Z.pow_le_mono_r; [lia|]. unfold dropped. lia. }
      split; [|lia]. intros Hr.
      assert (rounded <= 2 ^ 53 * (2 * half)) as Hle
        by (unfold rounded; destruct up; nia).
      assert (2 ^ 53 * (2 * half) <= 2 ^ 53 * 2 ^ 970) by nia. lia.
    + apply Z.log2_le_pow2 in Hlarge as Hlog'; [|exact Hpos].
      assert (dropped = 971) as Hdropped by (unfold dropped; lia).
      assert (half = 2 ^ 970) as Hh by (unfold half; rewrite Hdropped; reflexivity).
      clearbody half. subst half.
      destruct (Z.lt_ge_cases kept (2 ^ 53 - 1)) as [Hlow|Htop].
      * split; [|lia]. intros Hr.
        assert (rounded <= (kept + 1) * (2 * 2 ^ 970))
          by (unfold rounded; destruct up; lia). lia.
      * assert (kept = 2 ^ 53 - 1) as Hk by lia.
        assert (Z.odd kept = true) as Hodd by (rewrite Hk; reflexivity).
        unfold rounded, up. rewrite Hodd, andb_true_r.
        destruct (Z.ltb_spec (2 ^ 970) rest) as [Hup|Hup]; cbn [orb].
        -- unfold rest in Hup. lia.
        -- destruct (Z.eqb_spec rest (2 ^ 970)) as [Heq|Hne].
           ++ unfold rest in Heq. lia.
           ++ unfold rest in Hup, Hne. lia.
  - apply Z.log2_le_pow2 in Hhuge as Hlog; [|exact Hpos].
    assert (2 ^ 1024 <= 2 ^ Z.log2 n) as Hle
      by (apply Z.pow_le_mono_r; lia).
    assert (2 ^ Z.log2 n = 2 ^ 52 * (2 * half)) as Hlo.
    { rewrite <- Hpow, <- Z.pow_add_r by lia. f_equal. unfold dropped. lia. }
    split; [lia|]. intros _.
    assert (kept * (2 * half) <= rounded)
      by (unfold rounded; destruct up; lia).
    nia.
Qed.

(** Rounding keeps a positive integer positive. *)
Lemma number_of_positive (n : Z) : 0 < n -> 0 < number_of n.
Proof.
  intros Hn. unfold number_of. cbv zeta.
  destruct (Z.ltb_spec (Z.abs n) (2 ^ 53)) as [|Hbig]; [done|].
  rewrite Z.sgn_pos by done. rewrite Z.abs_eq in * by lia.
  set (dropped := Z.log2 n - 52). set (kept := Z.shiftr n dropped).
  set (kept' := if _ : bool then kept + 1 else kept).
  assert (0 < Z.shiftl kept' dropped) as Hpos;
    [|destruct (_ <=? _); lia].
  assert (53 <= Z.log2 n) as Hlog by (apply Z.log2_le_pow2; [lia|done]).
  assert (0 < kept) as Hkept.
  { unfold kept. rewrite Z.shiftr_div_pow2 by (unfold dropped; lia).
    apply Z.div_str_pos. split; [apply Z.pow_pos_nonneg; unfold dropped; lia|].
    etrans; [|apply (Z.log2_spec n Hn)].
    apply Z.pow_le_mono_r; unfold dropped; lia. }
  rewrite Z.shiftl_mul_pow2 by (unfold dropped; lia).
  apply Z.mul_pos_pos.
  - unfold kept'. destruct (_ || _); lia.
  - apply Z.pow_pos_nonneg; unfold dropped; lia.
Qed.

Lemma body_chars (m n p : string) :
  numeral m -> numeral n -> numeral p ->
  all_chars digit_or_dot (m +:+ "." +:+ n +:+ "." +:+ p) = true.
Proof.
  intros [_ Hm] [_ Hn] [_ Hp].
  assert (forall s, all_chars is_digit s = true ->
                    all_chars digit_or_dot s = true) as Hw.
  { intros s. apply all_chars_weaken. intros a Ha. unfold digit_or_dot.
    by rewrite Ha. }
  rewrite !all_chars_app, (Hw m Hm), (Hw n Hn), (Hw p Hp). done.
Qed.

Lemma trim_caret (m n p : string) :
  numeral m -> numeral n -> numeral p -> trim (caret m n p) = caret m n p.
Proof.
  intros Hm Hn Hp. unfold trim, caret.
  change ("^" +:+ m +:+ "." +:+ n +:+ "." +:+ p)
    with (String "^" (m +:+ "." +:+ n +:+ "." +:+ p)).
  cbn [trimStart]. change (is_white_space "^") with false. cbv iota.
  apply trimEnd_id. simpl.
  eapply all_chars_weaken; [|by apply body_chars].
  intros a. unfold digit_or_dot. intros [Ha| ->%bool_decide_eq_true]%orb_true_iff.
  - by destruct (digit_not_sign a Ha) as (_ & _ & ->).
  - done.
Qed.

Lemma parse_caret_major (m n p : string) :
  numeral m -> numeral n -> numeral p ->
  major (parsePackageVersion (caret m n p)) = read m.
Proof.
  intros Hm Hn Hp. pose proof (body_chars m n p Hm Hn Hp) as Hbody.
  unfold parsePackageVersion, caret.
  set (body := m +:+ "." +:+ n +:+ "." +:+ p) in *.
  change ("^" +:+ body) with (String "^" body).
  assert (forall c, digit_or_dot c = false -> occurs c body = false) as Hfree.
  { intros c Hc. by eapply all_chars_absent. }
  rewrite (replaceAll_absent "~" "" (String "^" body))
    by (simpl; by rewrite Hfree).
  assert (replaceAll "^" "" (String "^" body) = body) as ->.
  { simpl. rewrite app_empty_l. by apply replaceAll_absent, Hfree. }
  rewrite (replaceAll_absent "x" "0" body) by by apply Hfree.
  rewrite (replaceAll_absent "X" "0" body) by by apply Hfree.
  rewrite (replaceAll_absent "*" "0" body) by by apply Hfree.
  unfold body. change ("." +:+ n +:+ "." +:+ p) with (String "." (n +:+ "." +:+ p)).
  rewrite split_first.
  - unfold major. cbv zeta. cbn [fst].
    replace ((m :: split "." (n +:+ "." +:+ p)) !! 0%nat) with (Some m)
      by reflexivity.
    exact (parseInt_read m Hm).
  - destruct Hm as [_ Hm]. by apply (all_chars_absent is_digit).
Qed.

(** A specifier that starts with [^] constrains the major component and
    nothing else. *)
Lemma semVerMatches_starts_caret (version c : string) :
  trim version = version -> startsWith "^" version = true ->
  semVerMatches version c
  = (major (parsePackageVersion version) =? major (parsePackageVersion c)).
Proof.
  intros Htrim Hstart. unfold semVerMatches. rewrite Htrim, Hstart.
  rewrite bool_decide_eq_false_2.
  - cbn [orb]. cbv beta iota.
    destruct (parsePackageVersion version) as [[M m] p].
    destruct (parsePackageVersion c) as [[M' m'] p']. unfold major. cbn [fst].
    destruct (_ || _); cbn [andb negb]; by destruct (M =? M').
  - intros H. repeat (apply elem_of_cons in H as [->|H]; [discriminate Hstart|]).
    by apply elem_of_nil in H.
Qed.

Lemma semVerMatches_caret (m n p c : string) :
  numeral m -> numeral n -> numeral p ->
  semVerMatches (caret m n p) c
  = (read m =? major (parsePackageVersion c)).
Proof.
  intros Hm Hn Hp. rewrite semVerMatches_starts_caret.
  - by rewrite parse_caret_major.
  - by apply trim_caret.
  - done.
Qed.

(** For ["^M.N.P"], as soon as a candidate with major [M] lies above 0.0.0,
    the result is a candidate with major [M] that no candidate with major
    [M] exceeds; minor and patch of the specifier play no role. *)
Lemma caret_selects_highest (m n p : string) (versionList : list string) :
  numeral m -> numeral n -> numeral p ->
  (exists c, c ∈ versionList
             /\ major (parsePackageVersion c) = read m
             /\ precedes (0, 0, 0) (parsePackageVersion c)) ->
  exists c, findHighestSemVer (caret m n p) versionList = Some c
            /\ c ∈ versionList
            /\ major (parsePackageVersion c) = read m
            /\ forall c', c' ∈ versionList ->
                 major (parsePackageVersion c') = read m ->
                 ~ precedes (parsePackageVersion c) (parsePackageVersion c').
Proof.
  intros Hm Hn Hp (c0 & Hin0 & Hmaj0 & Hpos0).
  destruct (findHighestSemVer (caret m n p) versionList) as [c|] eqn:E.
  - apply findHighestSemVer_Some in E as (Hin & Hmatch & Hpos & Hmax).
    rewrite semVerMatches_caret in Hmatch by done.
    apply Z.eqb_eq in Hmatch. exists c. repeat split; [done..|].
    intros c' Hin' Hmaj'. apply Hmax; [done|].
    rewrite semVerMatches_caret by done. by apply Z.eqb_eq.
  - exfalso. rewrite findHighestSemVer_None in E.
    apply (E c0 Hin0); [|done].
    rewrite semVerMatches_caret by done. by apply Z.eqb_eq.
Qed.

(** X22. For "^M.N.P" with M of at least 1, as soon as the list has a
    candidate whose major is the number that M is read as, the double
    nearest to M, [findHighestSemVer] returns a candidate with that major
    that no candidate with that major exceeds; the N and P of the specifier
    play no role. Below 2^53 the number read is M itself. *)
Lemma caret_selects_highest_positive (m n p : string)
    (versionList : list string) :
  numeral m -> numeral n -> numeral p -> 0 < decimal m ->
  (exists c, c ∈ versionList
             /\ major (parsePackageVersion c) = read m) ->
  exists c, findHighestSemVer (caret m n p) versionList = Some c
            /\ c ∈ versionList
            /\ major (parsePackageVersion c) = read m
            /\ forall c', c' ∈ versionList ->
                 major (parsePackageVersion c') = read m ->
                 ~ precedes (parsePackageVersion c) (parsePackageVersion c').
Proof.
  intros Hm Hn Hp Hpos (c0 & Hin0 & Hmaj0).
  apply caret_selects_highest; [done..|].
  exists c0. repeat split; [done..|].
  pose proof (number_of_positive _ Hpos) as Hread. fold (read m) in Hread.
  destruct (parsePackageVersion c0) as [[M' m'] p'].
  unfold major in Hmaj0. cbn [fst] in Hmaj0. unfold precedes. lia.
Qed.

End Caret.

(* ===================================================================== *)
(** * The candidate 0.0.0 *)
(* ===================================================================== *)

Section ZeroVersion.
Import SemVer.

(** C4. The candidate "0.0.0" satisfies the specifier "*" and parses to
    the triple (0, 0, 0), the value the loop starts from; the strict
    comparison never selects it, so [findHighestSemVer] returns nothing
    although a candidate satisfies the specifier. *)
Theorem findHighestSemVer_misses_zero :
  semVerMatches "*" "0.0.0" = true
  /\ parsePackageVersion "0.0.0" = (0, 0, 0)
  /\ isHighest (Highest 0 0 0 None) (0, 0, 0) = false
  /\ findHighestSemVer "*" ["0.0.0"] = None.
Proof. repeat split. Qed.

(** C5. For the specifier "^0.0.0" and the candidates "0.0.0" and "1.0.0",
    the candidate "0.0.0" has the major of the specifier and is the only
    one that has; [findHighestSemVer] returns nothing instead of it. *)
Theorem caret_zero_misses_zero :
  semVerMatches "^0.0.0" "0.0.0" = true
  /\ semVerMatches "^0.0.0" "1.0.0" = false
  /\ major (parsePackageVersion "0.0.0") = numeral_value "0"
  /\ findHighestSemVer (caret "0" "0" "0") ["0.0.0"; "1.0.0"] = None.
Proof. repeat split. Qed.

End ZeroVersion.

(* ===================================================================== *)
(** * Reasoning about effects *)
(* ===================================================================== *)

Section Effects.
Import Path Fs Fetcher.
Local Open Scope fetch_scope.

Lemma bind_Return {A B} (m : M A) (k : A -> M B) (s s' : state) (a : A) :
  m s = (Return a, s') -> bind m k s = k a s'.
Proof. unfold bind. by intros ->. Qed.

Lemma bind_Throw {A B} (m : M A) (k : A -> M B) (s s' : state) (e : error) :
  m s = (Throw e, s') -> bind m k s = (Throw e, s').
Proof. unfold bind. by intros ->. Qed.

(** A successful [bind] went through a successful first part. *)
Lemma bind_inv_Return {A B} (m : M A) (k : A -> M B) (s s' : state) (b : B) :
  bind m k s = (Return b, s') ->
  exists a s1, m s = (Return a, s1) /\ k a s1 = (Return b, s').
Proof.
  unfold bind. destruct (m s) as [[a| |] s1]; [eauto|done|done].
Qed.

(** ** Relations between the state before and after a computation *)

Section Steps.
Context (R : state -> state -> Prop).
Hypothesis R_refl : forall s, R s s.
Hypothesis R_trans : forall s1 s2 s3, R s1 s2 -> R s2 s3 -> R s1 s3.

Lemma steps_ret {A} (a : A) : steps R (ret a).
Proof. intros s. apply R_refl. Qed.

Lemma steps_throw {A} (e : error) : steps R (@throw A e).
Proof. intros s. apply R_refl. Qed.


Lemma steps_bind {A B} (m : M A) (k : A -> M B) :
  steps R m -> (forall a, steps R (k a)) -> steps R (bind m k).
Proof.
  intros Hm Hk s. unfold bind. specialize (Hm s).
  destruct (m s) as [[a| |] s1]; simpl in *; [|done|done].
  eapply R_trans; [exact Hm|apply Hk].
Qed.


Lemma steps_if {A} (b : bool) (m1 m2 : M A) :
  steps R m1 -> steps R m2 -> steps R (if b then m1 else m2).
Proof. by destruct b. Qed.
End Steps.

Lemma quiet_refl (s : state) : quiet s s.
Proof. done. Qed.

Lemma quiet_trans (s1 s2 s3 : state) : quiet s1 s2 -> quiet s2 s3 -> quiet s1 s3.
Proof. unfold quiet. intros [-> ->] [-> ->]. done. Qed.

Lemma fetch_quiet (w : World) (url : string) : steps quiet (fetch w url).
Proof. intros s. unfold fetch. by destruct (http w url). Qed.

Lemma fetch_requests (w : World) (url : string) (s : state) :
  requests (fetch w url s).2 = requests s ++ [url].
Proof. unfold fetch. by destruct (http w url). Qed.

Lemma fetch_Return (w : World) (url : string) (s s' : state) (r : Response.t) :
  fetch w url s = (Return r, s') -> http w url = Some r.
Proof. unfold fetch. destruct (http w url); [|done]. by intros [= -> _]. Qed.

Lemma fetchNpmPackage_quiet (w : World) (packageName : string)
    (version : option string) :
  steps quiet (fetchNpmPackage w packageName version).
Proof.
  unfold fetchNpmPackage.
  destruct (registryNeedsVersion (default "latest" version));
    (apply steps_bind; [apply quiet_trans|apply fetch_quiet|]; intros r;
     destruct (negb (Response.ok r));
     [destruct (_ =? _)%N; apply steps_throw, quiet_refl|];
     apply steps_bind;
     [apply quiet_trans
     |repeat case_match; (apply steps_throw || apply steps_ret);
      apply quiet_refl
     |intros; apply steps_ret, quiet_refl]).
Qed.

End Effects.

(* ===================================================================== *)
(** * What [fetchNpmPackage] requests and returns *)
(* ===================================================================== *)

Section FetchNpmPackage.
Import JS Path Fs Fetcher.
Local Open Scope fetch_scope.

(** One request is made, whatever the outcome. *)
Lemma fetchNpmPackage_requests (w : World) (packageName : string)
    (version : option string) (s : state) :
  requests (fetchNpmPackage w packageName version s).2
  = requests s ++ [registry_url packageName (default "latest" version)].
Proof.
  unfold fetchNpmPackage, registry_url.
  destruct (registryNeedsVersion (default "latest" version));
    unfold bind, fetch, ret, throw in *;
    repeat (case_match; simplify_eq/=); done.
Qed.

Lemma fetchNpmPackage_Return (w : World) (packageName : string)
    (version : option string) (s s' : state)
    (data : FetchedNpmPackageData.t) :
  fetchNpmPackage w packageName version s = (Return data, s') ->
  let version := default "latest" version in
  FetchedNpmPackageData.packageName data = packageName
  /\ FetchedNpmPackageData.version data
     = NpmPackage.version (FetchedNpmPackageData.registryData data)
  /\ FetchedNpmPackageData.requestedVersion data = version
  /\ FetchedNpmPackageData.url data = registry_url packageName version
  /\ exists r, http w (registry_url packageName version) = Some r
               /\ Response.ok r = true
               /\ record_of w version r
                    (FetchedNpmPackageData.registryData data).
Proof.
  unfold fetchNpmPackage, registry_url, record_of. cbv zeta.
  destruct (registryNeedsVersion (default "latest" version)) eqn:Hneeds;
    intros (r & s1 & Hfetch%fetch_Return & Hrest)%bind_inv_Return;
    (destruct (Response.ok r) eqn:Hok; cbn [negb] in Hrest;
     [|by destruct (Response.status r =? 404)%N]);
    apply bind_inv_Return in Hrest as (p & s2 & Hjson & [= <- _]);
    cbn [FetchedNpmPackageData.packageName FetchedNpmPackageData.version
         FetchedNpmPackageData.registryData FetchedNpmPackageData.url
         FetchedNpmPackageData.requestedVersion];
    (repeat split; exists r; split; [done|split; [done|]]);
    unfold ret, throw in Hjson.
  - repeat case_match; by simplify_eq.
  - repeat case_match; simplify_eq. eauto.
Qed.

End FetchNpmPackage.

(* ===================================================================== *)
(** * The specifier "latest" and the returned package name *)
(* ===================================================================== *)

Section Latest.
Import JS SemVer Path Fs Fetcher Scenario.

(** The version matcher has nothing to return for "latest": the specifier
    parses to 0.0.0 with every component exact. *)
Lemma findHighestSemVer_latest (versionList : list string) :
  findHighestSemVer "latest" versionList = None.
Proof.
  apply findHighestSemVer_None. intros c _ Hmatch.
  unfold semVerMatches in Hmatch.
  destruct (parsePackageVersion c) as [[M m] p].
  vm_compute in Hmatch.
  destruct M, m, p; try discriminate Hmatch.
  unfold precedes. lia.
Qed.

(** C6, as the code has it. For the specifier "latest", [fetchNpmPackage]
    makes one request, the direct lookup at {packageName}/latest, and a
    successful call returns the very record the registry answers with;
    the version list is not fetched and the version matcher is not run. *)
Theorem latest_is_looked_up_directly (w : World) (packageName : string)
    (s : state) :
  registryNeedsVersion "latest" = true
  /\ requests (fetchNpmPackage w packageName (Some "latest") s).2
     = requests s ++ [registry +:+ packageName +:+ "/latest"]
  /\ forall data s',
       fetchNpmPackage w packageName (Some "latest") s = (Return data, s') ->
       exists r,
         http w (registry +:+ packageName +:+ "/latest") = Some r
         /\ json w (Response.blob r)
            = Some (JsonPackage (FetchedNpmPackageData.registryData data)).
Proof.
  split; [done|]. split.
  - by rewrite fetchNpmPackage_requests.
  - intros data s' H. apply fetchNpmPackage_Return in H.
    destruct H as (_ & _ & _ & _ & r & Hr & _ & Hrec). by exists r.
Qed.

(** C6 fails as stated: for "Pkg" at "latest" the only request goes to
    .../Pkg/latest, not to the version list at .../Pkg, and the version
    returned is the one of the direct answer although the list holds
    others. *)
Lemma latest_is_not_list_resolved :
  let run := fetchNpmPackage pkg_world "Pkg" (Some "latest") start in
  requests run.2 = ["https://registry.npmjs.org/Pkg/latest"]
  /\ requests run.2 <> ["https://registry.npmjs.org/Pkg"]
  /\ run.1 = Return pkg_latest
  /\ findHighestSemVer "latest"
       (List.map fst (NpmVersionlessPackage.versions pkg_versions)) = None.
Proof. vm_compute. repeat split. discriminate. Qed.

(** C10. A successful [fetchNpmPackage] returns the [packageName] it was
    called with, and a [version] that is the version field of the record
    taken from the registry's answer for the resolved version. *)
Theorem fetchNpmPackage_returns_given_name (w : World) (packageName : string)
    (version : option string) (s s' : state)
    (data : FetchedNpmPackageData.t) :
  fetchNpmPackage w packageName version s = (Return data, s') ->
  FetchedNpmPackageData.packageName data = packageName
  /\ FetchedNpmPackageData.version data
     = NpmPackage.version (FetchedNpmPackageData.registryData data)
  /\ exists r,
       http w (registry_url packageName (default "latest" version)) = Some r
       /\ record_of w (default "latest" version) r
            (FetchedNpmPackageData.registryData data).
Proof.
  intros H. apply fetchNpmPackage_Return in H.
  destruct H as (Hname & Hversion & _ & _ & r & Hr & _ & Hrec).
  split; [done|]. split; [done|]. by exists r.
Qed.

(** The registry names the package "pkg"; the call for "Pkg" returns
    "Pkg". *)
Lemma fetchNpmPackage_returns_given_name_witness :
  fetchNpmPackage pkg_world "Pkg" (Some "latest") start
  = (Return pkg_latest, after_pkg_latest)
  /\ NpmPackage.name (FetchedNpmPackageData.registryData pkg_latest) = "pkg"
  /\ FetchedNpmPackageData.packageName pkg_latest = "Pkg"
  /\ FetchedNpmPackageData.version pkg_latest
     = NpmPackage.version (FetchedNpmPackageData.registryData pkg_latest).
Proof.
  assert (fetchNpmPackage pkg_world "Pkg" (Some "latest") start
          = (Return pkg_latest, after_pkg_latest)) as H
    by (vm_compute; reflexivity).
  split; [exact H|]. split; [reflexivity|].
  destruct (fetchNpmPackage_returns_given_name _ _ _ _ _ _ H) as (H1 & H2 & _).
  split; [exact H1|exact H2].
Defined.

End Latest.

(* ===================================================================== *)
(** * The checksum test in [getPackageContents] *)
(* ===================================================================== *)

Section Checksum.
Import JS Path Fs Fetcher.
Local Open Scope fetch_scope.

(** [getPackageContents] once the tarball has been answered with [r]. *)
Lemma getPackageContents_answered (w : World)
    (data : FetchedNpmPackageData.t) (s : state) (r : Response.t) :
  http w (tarball_of data) = Some r -> Response.ok r = true ->
  getPackageContents w data s
  = if bool_decide (Sha1.hashHex (Sha1.digest (Response.blob r))
                    = shasum_of data)
    then match Response.body r with
         | None => (Throw BodyIsNull, requested (tarball_of data) s)
         | Some bytes =>
             (Return (Archive.Make
                        (List.map strip_package
                           (Archive.entries (untar w bytes)))
                        (Archive.broken (untar w bytes))),
              requested (tarball_of data) s)
         end
    else (Throw (checksum_error data), requested (tarball_of data) s).
Proof.
  intros Hr Hok. unfold getPackageContents, bind, fetch.
  fold (tarball_of data). fold (shasum_of data). rewrite Hr, Hok.
  cbn [negb]. case_bool_decide; cbn [negb]; [|done].
  by destruct (Response.body r).
Qed.

Lemma getPackageContents_quiet (w : World) (data : FetchedNpmPackageData.t) :
  steps quiet (getPackageContents w data).
Proof.
  unfold getPackageContents.
  apply steps_bind; [apply quiet_trans|apply fetch_quiet|]. intros r.
  repeat case_match; (apply steps_throw || apply steps_ret); apply quiet_refl.
Qed.

(** C2. When the SHA-1 digest of the fetched tarball bytes differs from the
    checksum of the registry record, [getPackageContents] throws the
    checksum error instead of producing entries, and [downloadNpmPackage]
    ends with that error and the file system as it was before the call. *)
Theorem checksum_mismatch_writes_nothing (depth : nat) (w : World)
    (options : Options.t) (s s1 : state) (data : FetchedNpmPackageData.t)
    (r : Response.t) :
  fetchNpmPackage w (Options.packageName options)
    (Some (default "latest" (Options.version options))) s
  = (Return data, s1) ->
  http w (tarball_of data) = Some r ->
  Response.ok r = true ->
  Sha1.hashHex (Sha1.digest (Response.blob r)) <> shasum_of data ->
  (exists s2, getPackageContents w data s1 = (Throw (checksum_error data), s2)
              /\ files s2 = files s1)
  /\ exists s3, downloadNpmPackage (S depth) w options s
                = (Throw (checksum_error data), s3)
                /\ files s3 = files s.
Proof.
  intros Hfetch Hr Hok Hsum.
  pose proof (getPackageContents_answered w data s1 r Hr Hok) as Hget.
  rewrite bool_decide_eq_false_2 in Hget by done.
  split; [by eexists|].
  exists (requested (tarball_of data) s1). split.
  - cbn [downloadNpmPackage]. rewrite (bind_Return _ _ _ _ _ Hfetch).
    apply bind_Throw. unfold for_await. by apply bind_Throw.
  - pose proof (fetchNpmPackage_quiet w (Options.packageName options)
                  (Some (default "latest" (Options.version options))) s) as Hq.
    rewrite Hfetch in Hq. by destruct Hq as [Hq _].
Qed.

End Checksum.

(* ===================================================================== *)
(** * The rendering of the digest *)
(* ===================================================================== *)

Section HexDigest.
Import JS Sha1.

Lemma hex_digit_lower (d : Z) : 0 <= d < 16 -> lower_hex (hex_digit d) = true.
Proof.
  intros Hd. rewrite <- (Z2Nat.id d) by lia.
  assert (Z.to_nat d < 16)%nat as Hn by lia.
  remember (Z.to_nat d) as n eqn:En. clear En Hd.
  do 16 (destruct n as [|n]; [reflexivity|]). lia.
Qed.

Lemma padded_lower (b : Z) :
  octet b ->
  exists h l, padStart2 (toString16 b) = String h (String l "")
              /\ lower_hex h = true /\ lower_hex l = true.
Proof.
  intros Hb. unfold octet in Hb. unfold toString16.
  destruct (Z.ltb_spec b 16).
  - exists "0"%char, (hex_digit b). split; [done|]. split; [done|].
    apply hex_digit_lower. lia.
  - exists (hex_digit (b / 16)), (hex_digit (b mod 16)). split; [done|].
    split; apply hex_digit_lower.
    + split; [apply Z.div_pos; lia|apply Z.div_lt_upper_bound; lia].
    + apply Z.mod_pos_bound. lia.
Qed.

Lemma hashHex_lower (hashArray : list Z) :
  Forall octet hashArray ->
  all_chars lower_hex (hashHex hashArray) = true
  /\ String.length (hashHex hashArray) = (2 * length hashArray)%nat.
Proof.
  induction 1 as [|b l Hb _ [IH1 IH2]]; [done|].
  destruct (padded_lower b Hb) as (h & lo & E & Hh & Hl).
  cbn [hashHex fold_right]. fold (hashHex l). rewrite E, !app_String, app_empty_l.
  split.
  - cbn [all_chars]. by rewrite Hh, Hl, IH1.
  - cbn [String.length length]. rewrite IH2. lia.
Qed.

Lemma land_255_octet (x : Z) : octet (Z.land x 255).
Proof.
  change 255 with (Z.ones 8). rewrite Z.land_ones by lia.
  unfold octet. apply Z.mod_pos_bound. lia.
Qed.

Lemma be32_octets (x : Z) : Forall octet (be32 x) /\ length (be32 x) = 4%nat.
Proof.
  unfold be32. cbn [List.map]. split; [|done].
  repeat (constructor; [apply land_255_octet|]). constructor.
Qed.

(** The digest has twenty bytes. *)
Lemma digest_octets (msg : list byte) :
  Forall octet (digest msg) /\ length (digest msg) = 20%nat.
Proof.
  unfold digest. cbv zeta.
  generalize (fold_left compress (blocks (length (pad msg)) (pad msg)) initial).
  intros h.
  destruct (be32_octets (ra h)) as [Ha La], (be32_octets (rb h)) as [Hb Lb],
    (be32_octets (rc h)) as [Hc Lc], (be32_octets (rd h)) as [Hd Ld],
    (be32_octets (re h)) as [He Le].
  split.
  - by repeat (apply Forall_app; split).
  - rewrite !length_app. lia.
Qed.

(** [hashHex] of a digest: forty characters among [0-9a-f]. *)
Lemma hashHex_digest (msg : list byte) :
  all_chars lower_hex (hashHex (digest msg)) = true
  /\ String.length (hashHex (digest msg)) = 40%nat.
Proof.
  destruct (digest_octets msg) as [Hoct Hlen].
  destruct (hashHex_lower _ Hoct) as [H1 H2]. rewrite Hlen in H2. done.
Qed.

(** A string with a letter among [A-F] is not such a rendering. *)
Lemma upper_not_lower (s : string) :
  all_chars lower_hex s = true ->
  all_chars (fun c => negb (upper_hex_letter c)) s = true.
Proof.
  apply all_chars_weaken. intros a.
  destruct a as [[] [] [] [] [] [] [] []]; by vm_compute.
Qed.

End HexDigest.

(* ===================================================================== *)
(** * Letter case of the checksum; the [package/] prefix *)
(* ===================================================================== *)

Section CaseAndPrefix.
Import JS Path Fs Fetcher Scenario.
Local Open Scope fetch_scope.

(** C7, as the code has it. The digest is rendered in lowercase
    hexadecimal and compared with the declared checksum by strict string
    equality: the checksum error is thrown exactly when the two strings
    differ. *)
Theorem checksum_is_compared_exactly (w : World)
    (data : FetchedNpmPackageData.t) (s : state) (r : Response.t) :
  http w (tarball_of data) = Some r -> Response.ok r = true ->
  let hashHex := Sha1.hashHex (Sha1.digest (Response.blob r)) in
  all_chars lower_hex hashHex = true
  /\ ((getPackageContents w data s).1 = Throw (checksum_error data)
      <-> hashHex <> shasum_of data).
Proof.
  intros Hr Hok hashHex. split; [apply hashHex_digest|].
  rewrite (getPackageContents_answered w data s r Hr Hok). fold hashHex.
  case_bool_decide as Heq.
  - split; [|done]. by destruct (Response.body r).
  - done.
Qed.

Lemma checksum_is_compared_exactly_witness :
  all_chars lower_hex (checksum "tarball of pkg 2.0.0") = true
  /\ ((getPackageContents pkg_world pkg_latest after_pkg_latest).1
      = Throw (checksum_error pkg_latest)
      <-> checksum "tarball of pkg 2.0.0" <> shasum_of pkg_latest).
Proof.
  apply (checksum_is_compared_exactly pkg_world pkg_latest after_pkg_latest
           (respond "tarball of pkg 2.0.0")); reflexivity.
Defined.

(** C7 fails as stated: the declared checksum is the digest of the served
    bytes spelled in capitals, equal to it up to letter case, and the
    checksum error is thrown. *)
Lemma capital_checksum_is_rejected :
  let w := pkg_world_with capitals "tarball of pkg 2.0.0" pkg_archive in
  fetchNpmPackage w "Pkg" (Some "latest") start
  = (Return capitals_latest, after_pkg_latest)
  /\ http w (tarball_of capitals_latest)
     = Some (respond "tarball of pkg 2.0.0")
  /\ checksum "tarball of pkg 2.0.0"
     = "0c26f23b9f291a720fa6f33dc284e7e572e96a0a"
  /\ shasum_of capitals_latest = "0C26F23B9F291A720FA6F33DC284E7E572E96A0A"
  /\ toLowerCase (shasum_of capitals_latest)
     = toLowerCase (checksum "tarball of pkg 2.0.0")
  /\ (getPackageContents w capitals_latest after_pkg_latest).1
     = Throw (ChecksumFailed "Pkg" "latest").
Proof. vm_compute. repeat split. Qed.

End CaseAndPrefix.

Section PackagePrefix.
Import JS Path Fs Fetcher Scenario.
Local Open Scope fetch_scope.

Lemma startsWith_app (p rest : string) : startsWith p (p +:+ rest) = true.
Proof.
  induction p as [|a p IH]; [done|].
  rewrite app_String. simpl. by rewrite bool_decide_eq_true_2.
Qed.

Lemma strip_package_prefixed (entry : TarEntry.t) (rest : string) :
  TarEntry.fileName entry = "package/" +:+ rest ->
  strip_package entry
  = TarEntry.Make rest (TarEntry.type entry) (TarEntry.content entry).
Proof.
  intros E. unfold strip_package. rewrite E, startsWith_app.
  change (slice_from 8 ("package/" +:+ rest))
    with (slice_from (String.length "package/") ("package/" +:+ rest)).
  by rewrite slice_from_app.
Qed.

Lemma strip_package_other (entry : TarEntry.t) :
  startsWith "package/" (TarEntry.fileName entry) = false ->
  strip_package entry = entry.
Proof. intros E. unfold strip_package. rewrite E. by destruct entry. Qed.

(** The earlier loop stripped the prefix too, and threw on an entry outside
    [package/]. *)
Lemma historical_entryPath (fileName rest : string) :
  (fileName = "package/" +:+ rest -> Historical.entryPath fileName = Ok rest)
  /\ (startsWith "package/" fileName = false ->
      Historical.entryPath fileName = Err fileName).
Proof.
  unfold Historical.entryPath. split.
  - intros ->. by rewrite startsWith_app, slice_from_app.
  - by intros ->.
Qed.

(** C3, as the code has it. The entries that [getPackageContents] yields
    are the entries of the archive, each passed through [strip_package],
    and the sequence ends as the archive does: an entry whose path begins
    with "package/" is yielded with the prefix removed, and an entry whose
    path does not is yielded as it is. *)
Theorem package_prefix_is_stripped_when_present (w : World)
    (data : FetchedNpmPackageData.t) (s s' : state) (contents : Archive.t) :
  getPackageContents w data s = (Return contents, s') ->
  (exists r bytes,
     http w (tarball_of data) = Some r /\ Response.body r = Some bytes
     /\ Archive.entries contents
        = List.map strip_package (Archive.entries (untar w bytes))
     /\ Archive.broken contents = Archive.broken (untar w bytes))
  /\ forall entry,
       (forall rest,
          TarEntry.fileName entry = "package/" +:+ rest ->
          strip_package entry
          = TarEntry.Make rest (TarEntry.type entry) (TarEntry.content entry))
       /\ (startsWith "package/" (TarEntry.fileName entry) = false ->
           strip_package entry = entry).
Proof.
  intros Hget. split.
  - unfold getPackageContents in Hget.
    apply bind_inv_Return in Hget as (r & s1 & Hr%fetch_Return & Hget).
    unfold throw, ret in Hget. repeat case_match; simplify_eq.
    by eexists _, _.
  - intros entry. split;
      [apply strip_package_prefixed|apply strip_package_other].
Qed.

Lemma package_prefix_is_stripped_when_present_witness :
  getPackageContents pkg_world pkg_latest after_pkg_latest
  = (Return pkg_contents, after_pkg_tarball)
  /\ exists r bytes,
       http pkg_world (tarball_of pkg_latest) = Some r
       /\ Response.body r = Some bytes
       /\ Archive.entries pkg_contents
          = List.map strip_package (Archive.entries (untar pkg_world bytes))
       /\ Archive.broken pkg_contents
          = Archive.broken (untar pkg_world bytes).
Proof.
  assert (getPackageContents pkg_world pkg_latest after_pkg_latest
          = (Return pkg_contents, after_pkg_tarball)) as H
    by (vm_compute; reflexivity).
  split; [exact H|].
  exact (proj1 (package_prefix_is_stripped_when_present _ _ _ _ _ H)).
Defined.

(** C3 fails as stated: the archive of pkg 2.0.0 has the entry
    "other/readme.md", which does not begin with "package/"; the iteration
    does not abort, the entry is yielded under its own path and the
    sequence ends without an error. *)
Lemma entry_outside_package_is_yielded :
  TarEntry.Make "other/readme.md" "file" (bytes_of "read me")
    ∈ Archive.entries (untar pkg_world (bytes_of "tarball of pkg 2.0.0"))
  /\ startsWith "package/" "other/readme.md" = false
  /\ getPackageContents pkg_world pkg_latest after_pkg_latest
     = (Return pkg_contents, after_pkg_tarball)
  /\ Archive.entries pkg_contents !! 2%nat
     = Some (TarEntry.Make "other/readme.md" "file" (bytes_of "read me"))
  /\ Archive.broken pkg_contents = false.
Proof.
  split; [|by vm_compute].
  vm_compute. do 2 apply list_elem_of_further. apply list_elem_of_here.
Qed.

End PackagePrefix.

Section ChecksumScenario.
Import JS Path Fs Fetcher Scenario.

(** The download of pkg 2.0.0 into /srv/out. *)
Example download_pkg :
  let run := downloadNpmPackage 1 pkg_world into_srv_out start in
  run.1 = Return tt
  /\ requests run.2
     = ["https://registry.npmjs.org/Pkg/latest"; pkg_tarball "2.0.0"]
  /\ files run.2 !! ["srv"] = Some Dir
  /\ files run.2 !! ["srv"; "out"] = Some Dir
  /\ files run.2 !! ["srv"; "out"; "package.json"]
     = Some (File (bytes_of "{}"))
  /\ files run.2 !! ["srv"; "out"; "other"] = Some Dir
  /\ files run.2 !! ["srv"; "out"; "other"; "readme.md"]
     = Some (File (bytes_of "read me"))
  /\ size (files run.2) = 5%nat.
Proof. vm_compute. repeat split. Qed.

Lemma checksum_mismatch_writes_nothing_witness :
  (exists s2,
     getPackageContents corrupted_world pkg_latest after_pkg_latest
     = (Throw (checksum_error pkg_latest), s2)
     /\ files s2 = files after_pkg_latest)
  /\ exists s3,
       downloadNpmPackage 1 corrupted_world into_srv_out start
       = (Throw (checksum_error pkg_latest), s3)
       /\ files s3 = files start.
Proof.
  apply (checksum_mismatch_writes_nothing 0 corrupted_world into_srv_out
           start after_pkg_latest pkg_latest
           (respond "tarball of pkg 2.0.1")).
  - vm_compute. reflexivity.
  - reflexivity.
  - reflexivity.
  - vm_compute. discriminate.
Defined.

End ChecksumScenario.

(* ===================================================================== *)
(** * Where the file system calls write *)
(* ===================================================================== *)

Section FsFacts.
Import Path Fs.

Lemma lookup_node_snoc (fs : tree) (p : path) (segment : string) :
  lookup_node fs (p ++ [segment]) = fs !! (p ++ [segment]).
Proof. by destruct p. Qed.

Lemma walk_lookup (fs : tree) (at_ : path) (rest : list string) (n : node) :
  walk fs at_ rest = Ok n -> lookup_node fs (at_ ++ rest) = Some n.
Proof.
  revert at_. induction rest as [|segment rest IH]; intros at_; simpl.
  - rewrite app_nil_r. destruct (lookup_node fs at_) as [[|c]|]; congruence.
  - destruct (lookup_node fs at_) as [[|c]|]; [|done..].
    intros H. apply IH in H. by rewrite <- app_assoc in H.
Qed.

Lemma lstat_root (fs : tree) : lstat fs [] = Ok Dir.
Proof. done. Qed.

Lemma mkdir_from_dir (fs fs' : tree) (at_ : path) (rest : list string) :
  mkdir_from fs at_ rest = Ok fs' ->
  lookup_node fs at_ = Some Dir ->
  lookup_node fs' (at_ ++ rest) = Some Dir.
Proof.
  revert fs at_. induction rest as [|segment rest IH]; intros fs at_; simpl.
  - intros [= <-]. by rewrite app_nil_r.
  - intros H _. rewrite (assoc_L (++) at_ [segment] rest : at_ ++ segment :: rest = _).
    destruct (lookup_node fs (at_ ++ [segment])) as [[|c]|] eqn:E.
    + by apply (IH fs).
    + by destruct rest.
    + apply (IH _ _ H). rewrite lookup_node_snoc. apply lookup_insert_eq.
Qed.

Lemma mkdir_from_frame (fs fs' : tree) (at_ : path) (rest : list string)
    (q : path) :
  mkdir_from fs at_ rest = Ok fs' ->
  ~ q `prefix_of` at_ ++ rest -> fs' !! q = fs !! q.
Proof.
  revert fs at_. induction rest as [|segment rest IH]; intros fs at_; simpl.
  - by intros [= <-].
  - intros H Hq.
    rewrite (assoc_L (++) at_ [segment] rest : at_ ++ segment :: rest = _) in Hq.
    destruct (lookup_node fs (at_ ++ [segment])) as [[|c]|] eqn:E.
    + by apply (IH fs (at_ ++ [segment])).
    + by destruct rest.
    + rewrite (IH _ _ H Hq). apply lookup_insert_ne.
      intros <-. apply Hq. by apply prefix_app_r.
Qed.

Lemma ensureDir_dir (fs fs' : tree) (dir : path) :
  ensureDir fs dir = Ok fs' -> lookup_node fs' dir = Some Dir.
Proof.
  unfold ensureDir. destruct (lstat fs dir) as [[|c]|e] eqn:E.
  - intros [= <-]. by apply (walk_lookup fs [] dir).
  - done.
  - destruct e; try done. intros H.
    by apply (mkdir_from_dir fs fs' [] dir H).
Qed.

Lemma ensureDir_frame (fs fs' : tree) (dir q : path) :
  ensureDir fs dir = Ok fs' -> ~ q `prefix_of` dir -> fs' !! q = fs !! q.
Proof.
  unfold ensureDir. destruct (lstat fs dir) as [[|c]|e] eqn:E.
  - by intros [= <-].
  - done.
  - destruct e; try done. intros H Hq.
    by apply (mkdir_from_frame fs fs' [] dir q H).
Qed.

Lemma writeFile_frame (fs fs' : tree) (p q : path) (data : list byte) :
  writeFile fs p data = Ok fs' -> q <> p -> fs' !! q = fs !! q.
Proof.
  unfold writeFile. destruct p as [|a p]; [done|].
  destruct (lstat fs (dirname (a :: p))) as [[|c]|e]; [|done..].
  destruct (lookup_node fs (a :: p)) as [[|c]|]; [done| |];
    intros [= <-] Hq; by apply lookup_insert_ne.
Qed.

Lemma dirname_prefix (p : path) : dirname p `prefix_of` p.
Proof.
  unfold dirname. destruct (decide (p = [])) as [->|Hp]; [done|].
  exists [List.last p ""]. by apply app_removelast_last.
Qed.

Lemma ensureFile_frame (fs fs' : tree) (filePath q : path) :
  ensureFile fs filePath = Ok fs' ->
  ~ q `prefix_of` filePath -> fs' !! q = fs !! q.
Proof.
  unfold ensureFile. destruct (lstat fs filePath) as [[|c]|e] eqn:E.
  - done.
  - by intros [= <-].
  - destruct e; try done.
    destruct (ensureDir fs (dirname filePath)) as [fs1|e] eqn:E1; [|done].
    intros H Hq. rewrite (writeFile_frame _ _ _ q _ H).
    + apply (ensureDir_frame _ _ _ _ E1). intros Hpre. apply Hq.
      etrans; [exact Hpre|apply dirname_prefix].
    + by intros ->.
Qed.

Lemma open_copy_close_file (fs fs' : tree) (p : path) (data : list byte) :
  open_copy_close fs p data = Ok fs' ->
  exists old, lookup_node fs' p = Some (File (data ++ drop (length data) old)).
Proof.
  unfold open_copy_close. destruct (lstat fs p) as [[|old]|e] eqn:E; [done| |done].
  intros [= <-]. exists old. destruct p as [|a p]; [done|].
  apply lookup_insert_eq.
Qed.

Lemma open_copy_close_frame (fs fs' : tree) (p q : path) (data : list byte) :
  open_copy_close fs p data = Ok fs' -> q <> p -> fs' !! q = fs !! q.
Proof.
  unfold open_copy_close. destruct (lstat fs p) as [[|old]|e]; [done| |done].
  intros [= <-] Hq. by apply lookup_insert_ne.
Qed.

End FsFacts.

(* ===================================================================== *)
(** * Where [path.resolve] lands *)
(* ===================================================================== *)

Section ResolveFacts.
Import JS Path.

Lemma split_nonempty (sep : ascii) (s : string) : split sep s <> [].
Proof.
  induction s as [|a s IH]; simpl; [done|].
  case_bool_decide; [done|]. by destruct (split sep s).
Qed.

Lemma split_app_sep (sep : ascii) (a b : string) :
  split sep (a +:+ String sep b) = split sep a ++ split sep b.
Proof.
  induction a as [|c a IH].
  - rewrite app_empty_l. simpl. by rewrite bool_decide_eq_true_2.
  - rewrite app_String. simpl. rewrite IH. case_bool_decide; [done|].
    pose proof (split_nonempty sep a). by destruct (split sep a).
Qed.

Lemma gather_acc (reversed : list string) (acc : string) :
  gather reversed acc
  = ((gather reversed "").1 +:+ acc, (gather reversed "").2).
Proof.
  revert acc. induction reversed as [|p rest IH]; intros acc; [done|].
  cbn [gather]. destruct (truthy p); cbn [negb]; [|apply IH].
  destruct (startsWith "/" p); cbn [fst snd].
  - by rewrite !app_assoc_s.
  - rewrite (IH (p +:+ "/" +:+ acc)), (IH (p +:+ "/" +:+ "")). cbn [fst snd].
    by rewrite !app_assoc_s.
Qed.

Lemma gather_cons (p : string) (rest : list string) (acc : string) :
  gather (p :: rest) acc
  = if negb (truthy p) then gather rest acc
    else if startsWith "/" p then (p +:+ "/" +:+ acc, true)
    else gather rest (p +:+ "/" +:+ acc).
Proof. done. Qed.

(** What the loop has gathered is empty or ends with a slash. *)
Lemma gather_slash (reversed : list string) :
  (gather reversed "").1 = ""
  \/ exists r, (gather reversed "").1 = r +:+ "/".
Proof.
  induction reversed as [|p rest IH]; [by left|].
  cbn [gather]. destruct (truthy p); cbn [negb]; [|done].
  destruct (startsWith "/" p); cbn [fst snd].
  - right. exists p. done.
  - right. rewrite gather_acc. cbn [fst snd]. destruct IH as [->|[r ->]].
    + exists p. done.
    + exists (r +:+ "/" +:+ p). by rewrite !app_assoc_s.
Qed.

Lemma normalize_snoc_empty (segments : list string) :
  normalize (segments ++ [""]) = normalize segments.
Proof. unfold normalize. by rewrite fold_left_app. Qed.

(** Without [..], segments are only added. *)
Lemma normalize_step_push (segments stack : list string) :
  ".." ∉ segments ->
  exists pushed, fold_left normalize_step segments stack = pushed ++ stack.
Proof.
  revert stack. induction segments as [|x l IH]; intros stack Hno; simpl.
  - by exists [].
  - apply not_elem_of_cons in Hno as [Hx Hl]. unfold normalize_step at 2.
    destruct (bool_decide (x = "") || bool_decide (x = ".")).
    + by apply IH.
    + rewrite bool_decide_eq_false_2 by done.
      destruct (IH (x :: stack) Hl) as [pushed ->].
      exists (pushed ++ [x]). by rewrite <- app_assoc.
Qed.

(** A relative non-empty last argument continues from the stack that the
    arguments before it leave. *)
Lemma resolve_path_relative (cwd : path) (destination fileName : string) :
  truthy fileName = true -> startsWith "/" fileName = false ->
  exists stack,
    resolve_path cwd [destination] = rev stack
    /\ resolve_path cwd [destination; fileName]
       = rev (fold_left normalize_step (split "/" fileName) stack).
Proof.
  intros Hf Hrel. unfold resolve_path.
  change (rev [destination; fileName] ++ [path_string cwd])
    with (fileName :: [destination; path_string cwd]).
  change (rev [destination] ++ [path_string cwd])
    with [destination; path_string cwd].
  set (rest := [destination; path_string cwd]).
  assert (gather (fileName :: rest) ""
          = ((gather rest "").1 +:+ fileName +:+ String "/" "",
             (gather rest "").2)) as ->.
  { rewrite gather_cons, Hf, Hrel. cbn [negb]. by rewrite gather_acc. }
  destruct (gather rest "") as [r a] eqn:E. cbn [fst snd].
  destruct (gather_slash rest) as [Hr|[r0 Hr]]; rewrite E in Hr;
    cbn [fst] in Hr; subst r.
  - exists []. split; [done|].
    rewrite app_empty_l, split_app_sep. change (split "/" "") with [""].
    by rewrite normalize_snoc_empty.
  - exists (fold_left normalize_step (split "/" r0) []).
    change (r0 +:+ "/") with (r0 +:+ String "/" "").
    rewrite app_assoc_s, app_String, app_empty_l.
    rewrite !split_app_sep.
    change (split "/" "") with [""].
    rewrite !(assoc_L (++)), !normalize_snoc_empty.
    unfold normalize. by rewrite fold_left_app.
Qed.

Lemma resolve_path_within (cwd : path) (destination fileName : string) :
  stays_inside fileName ->
  within (resolve_path cwd [destination])
         (resolve_path cwd [destination; fileName]).
Proof.
  intros [Hrel Hno]. unfold within.
  destruct (truthy fileName) eqn:Hf.
  - destruct (resolve_path_relative cwd destination fileName Hf Hrel)
      as (stack & -> & ->).
    destruct (normalize_step_push (split "/" fileName) stack Hno)
      as [pushed ->].
    rewrite rev_app_distr. by apply prefix_app_r.
  - unfold resolve_path.
    change (rev [destination; fileName] ++ [path_string cwd])
      with (fileName :: [destination; path_string cwd]).
    by rewrite gather_cons, Hf.
Qed.

(** ** Paths made of plain segments *)

Lemma normalize_step_plain (stack : list string) (segment : string) :
  plain segment -> normalize_step stack segment = segment :: stack.
Proof.
  intros (H1 & H2 & H3). unfold normalize_step.
  by rewrite !bool_decide_eq_false_2.
Qed.

Lemma normalize_step_keeps_plain (stack : list string) (segment : string) :
  Forall plain stack -> Forall plain (normalize_step stack segment).
Proof.
  intros Hs. unfold normalize_step.
  case_bool_decide as H1; [done|]. case_bool_decide as H2; [done|].
  case_bool_decide as H3; cbn [orb].
  - destruct Hs; [done|]. done.
  - by constructor.
Qed.

Lemma fold_normalize_plain (segments stack : list string) :
  Forall plain segments ->
  fold_left normalize_step segments stack = rev segments ++ stack.
Proof.
  revert stack. induction segments as [|x l IH]; intros stack Hl; [done|].
  apply Forall_cons in Hl as [Hx Hl]. cbn [fold_left rev].
  rewrite (normalize_step_plain _ _ Hx), (IH _ Hl).
  by rewrite <- app_assoc.
Qed.

Lemma fold_normalize_keeps_plain (segments stack : list string) :
  Forall plain stack -> Forall plain (fold_left normalize_step segments stack).
Proof.
  revert stack. induction segments as [|x l IH]; intros stack Hs; [done|].
  cbn [fold_left]. by apply IH, normalize_step_keeps_plain.
Qed.

Lemma split_has_no_sep (sep : ascii) (s x : string) :
  x ∈ split sep s -> occurs sep x = false.
Proof.
  revert x. induction s as [|a s IH]; intros x; simpl.
  - by intros ->%list_elem_of_singleton.
  - case_bool_decide as Ha.
    + intros [->|Hx]%elem_of_cons; [done|]. by apply IH.
    + pose proof (split_nonempty sep s) as Hne.
      destruct (split sep s) as [|h t]; [done|].
      intros [->|Hx]%elem_of_cons.
      * simpl. rewrite bool_decide_eq_false_2 by done.
        apply IH. by left.
      * apply IH. by right.
Qed.

Lemma split_absent (sep : ascii) (s : string) :
  occurs sep s = false -> split sep s = [s].
Proof.
  induction s as [|a s IH]; [done|]. simpl.
  intros [Ha Hs]%orb_false_iff. by rewrite Ha, (IH Hs).
Qed.

(** The segments that [resolve] returns are plain and have no slash. *)
Lemma resolve_path_plain (cwd : path) (pathSegments : list string) :
  Forall (fun x => plain x /\ occurs "/" x = false)
         (resolve_path cwd pathSegments).
Proof.
  unfold resolve_path. destruct (gather _ _) as [r a].
  unfold normalize. apply Forall_rev.
  assert (Forall (fun x => occurs "/" x = false) (split "/" r)) as Hsplit.
  { apply Forall_forall. intros x. apply split_has_no_sep. }
  revert Hsplit. generalize (split "/" r).
  assert (Forall (fun x => plain x /\ occurs "/" x = false)
                 ([] : list string)) as Hstack by constructor.
  revert Hstack. generalize ([] : list string).
  intros stack Hstack l. revert stack Hstack.
  induction l as [|x l IH]; intros stack Hstack Hl; [done|].
  apply Forall_cons in Hl as [Hx Hl]. cbn [fold_left]. apply IH; [|done].
  unfold normalize_step.
  case_bool_decide as H1; [done|]. case_bool_decide as H2; [done|].
  case_bool_decide as H3; cbn [orb].
  - destruct Hstack; [done|]. done.
  - by constructor.
Qed.

Lemma split_join (p : list string) :
  Forall (fun x => occurs "/" x = false) p -> p <> [] ->
  split "/" (join p) = p.
Proof.
  induction p as [|a p IH]; [done|]. intros [Ha Hp]%Forall_cons _.
  destruct p as [|b p].
  - by apply split_absent.
  - change (join (a :: b :: p)) with (a +:+ String "/" (join (b :: p))).
    rewrite split_app_sep, (split_absent _ _ Ha), IH; done.
Qed.

(** Resolving the string of a resolved path gives the path back. *)
Lemma resolve_path_string (cwd : path) (p : path) :
  Forall (fun x => plain x /\ occurs "/" x = false) p ->
  resolve_path cwd [path_string p] = p.
Proof.
  intros Hp. unfold resolve_path.
  change (rev [path_string p] ++ [path_string cwd])
    with [path_string p; path_string cwd].
  rewrite gather_cons.
  change (path_string p) with (String "/" (join p)).
  cbn [truthy negb startsWith]. rewrite bool_decide_eq_true_2 by done.
  cbn [andb]. rewrite app_String.
  change ("/" +:+ "") with (String "/" "").
  cbn [split]. rewrite bool_decide_eq_true_2 by done.
  rewrite split_app_sep. change (split "/" "") with [""].
  rewrite app_comm_cons, normalize_snoc_empty.
  unfold normalize. cbn [fold_left].
  change (normalize_step [] "") with ([] : list string).
  destruct (decide (p = [])) as [->|Hne]; [done|].
  rewrite split_join; [|by eapply Forall_impl; [exact Hp|intros ? []]|done].
  rewrite fold_normalize_plain by (eapply Forall_impl; [exact Hp|by intros ? []]).
  by rewrite app_nil_r, rev_involutive.
Qed.

(** A last argument made of plain segments is appended. *)
Lemma resolve_path_child (cwd : path) (destination name : string) :
  Forall plain (split "/" name) ->
  resolve_path cwd [destination; name]
  = resolve_path cwd [destination] ++ split "/" name.
Proof.
  intros Hplain.
  assert (truthy name = true) as Hf.
  { destruct name; [|done]. apply Forall_cons in Hplain as [[H _] _]. done. }
  assert (startsWith "/" name = false) as Hrel.
  { destruct name as [|a name]; [done|]. cbn [startsWith split] in *.
    destruct (decide (a = "/"%char)) as [->|Hne].
    - rewrite bool_decide_eq_true_2 in Hplain by done.
      apply Forall_cons in Hplain as [[H _] _]. done.
    - rewrite bool_decide_eq_false_2; [done|]. by intros <-. }
  destruct (resolve_path_relative cwd destination name Hf Hrel)
    as (stack & -> & ->).
  by rewrite (fold_normalize_plain _ _ Hplain), rev_app_distr, rev_involutive.
Qed.

End ResolveFacts.

(* ===================================================================== *)
(** * Where [downloadNpmPackage] writes an entry *)
(* ===================================================================== *)

Section WriteEntry.
Import JS Path Fs Fetcher Scenario.
Local Open Scope fetch_scope.

Lemma fs_update_run (f : tree -> result fs_error tree) (s : state) :
  fs_update f s
  = match f (files s) with
    | Ok fs' => (Return tt, State fs' (requests s) (invocations s))
    | Err e => (Throw (FsError e), s)
    end.
Proof. done. Qed.

(** Whatever the outcome, nothing changes except at the target and the
    directories above it. *)
Lemma write_entry_frame (w : World) (destination : string)
    (entry : TarEntry.t) (s : state) (q : path) :
  ~ q `prefix_of` target_of w destination entry ->
  files (write_entry w destination entry s).2 !! q = files s !! q.
Proof.
  intros Hq. unfold write_entry. fold (target_of w destination entry).
  set (target := target_of w destination entry) in *.
  case_bool_decide.
  - rewrite fs_update_run. destruct (ensureDir (files s) target) eqn:E; [|done].
    by apply (ensureDir_frame _ _ _ _ E).
  - unfold bind. rewrite fs_update_run.
    destruct (ensureFile (files s) target) as [fs1|e] eqn:E1; [|done].
    rewrite fs_update_run. cbn [files].
    destruct (open_copy_close fs1 target (TarEntry.content entry))
      as [fs2|e] eqn:E2; cbn [snd files].
    + rewrite (open_copy_close_frame _ _ _ q _ E2) by by intros ->.
      by apply (ensureFile_frame _ _ _ _ E1).
    + by apply (ensureFile_frame _ _ _ _ E1).
Qed.

(** After a successful step the entry is at the target. *)
Lemma write_entry_written (w : World) (destination : string)
    (entry : TarEntry.t) (s s' : state) :
  write_entry w destination entry s = (Return tt, s') ->
  if bool_decide (TarEntry.type entry = "directory")
  then lookup_node (files s') (target_of w destination entry) = Some Dir
  else exists old,
         lookup_node (files s') (target_of w destination entry)
         = Some (File (TarEntry.content entry
                       ++ drop (length (TarEntry.content entry)) old)).
Proof.
  unfold write_entry. fold (target_of w destination entry).
  set (target := target_of w destination entry) in *.
  case_bool_decide.
  - rewrite fs_update_run. destruct (ensureDir (files s) target) eqn:E; [|done].
    intros [= <-]. by apply (ensureDir_dir _ _ _ E).
  - intros (_ & s1 & _ & H2)%bind_inv_Return. rewrite fs_update_run in H2.
    destruct (open_copy_close (files s1) target (TarEntry.content entry))
      as [fs2|e] eqn:E2; [|done].
    injection H2 as <-. by apply (open_copy_close_file _ _ _ _ E2).
Qed.

(** Entries that stay inside change nothing outside the destination and the
    directories above it. *)
Lemma safe_entries_frame (w : World) (destination : string)
    (entries : list TarEntry.t) (s : state) (q : path) :
  Forall (fun e => stays_inside (TarEntry.fileName e)) entries ->
  ~ within (resolve_path (cwd w) [destination]) q ->
  ~ q `prefix_of` resolve_path (cwd w) [destination] ->
  files (for_each (write_entry w destination) entries s).2 !! q = files s !! q.
Proof.
  intros Hsafe Hout Habove. revert s.
  induction Hsafe as [|e entries He _ IH]; intros s; [done|].
  assert (~ q `prefix_of` target_of w destination e) as Hq.
  { intros Hq.
    destruct (prefix_weak_total _ _ _ Hq
                (resolve_path_within (cwd w) destination _ He)); done. }
  pose proof (write_entry_frame w destination e s q Hq) as Hstep.
  cbn [for_each]. unfold bind.
  destruct (write_entry w destination e s) as [[[]| |] s1]; cbn [snd] in *;
    [|done..].
  by rewrite IH.
Qed.

(** C1, as the code has it. An entry is written at the path that
    [path.resolve] gives for the destination and the entry's path, with no
    test that this path lies within the destination: the step changes
    nothing but that path and the directories above it, and a successful
    step leaves the entry there. The path lies within the destination when
    the entry's path is relative and has no [..] segment, so that a loop
    over such entries changes nothing outside the destination and the
    directories above it. *)
Theorem entry_is_written_where_it_resolves (w : World) (destination : string)
    (entry : TarEntry.t) (s : state) :
  let root := resolve_path (cwd w) [destination] in
  let target := resolve_path (cwd w) [destination; TarEntry.fileName entry] in
  let run := write_entry w destination entry s in
  (forall q, ~ q `prefix_of` target -> files run.2 !! q = files s !! q)
  /\ (run.1 = Return tt ->
      if bool_decide (TarEntry.type entry = "directory")
      then lookup_node (files run.2) target = Some Dir
      else exists old,
             lookup_node (files run.2) target
             = Some (File (TarEntry.content entry
                           ++ drop (length (TarEntry.content entry)) old)))
  /\ (stays_inside (TarEntry.fileName entry) -> within root target)
  /\ forall entries q,
       Forall (fun e => stays_inside (TarEntry.fileName e)) entries ->
       ~ within root q -> ~ q `prefix_of` root ->
       files (for_each (write_entry w destination) entries s).2 !! q
       = files s !! q.
Proof.
  intros root target run. split; [|split; [|split]].
  - intros q. apply write_entry_frame.
  - intros Hrun. apply (write_entry_written w destination entry s run.2).
    destruct run as [[[]| |] s'] eqn:E; by simplify_eq/=.
  - apply resolve_path_within.
  - intros entries q. apply safe_entries_frame.
Qed.

(** C1 fails as stated: the entry "package/../evil" reaches the loop as
    "../evil", resolves against /srv/out to /srv/evil, which is not within
    /srv/out, and the download succeeds with the file created there. *)
Lemma traversal_is_not_rejected :
  let run := downloadNpmPackage 1 climbing_world into_srv_out start in
  strip_package (TarEntry.Make "package/../evil" "file" (bytes_of "outside"))
  = TarEntry.Make "../evil" "file" (bytes_of "outside")
  /\ resolve_path (cwd climbing_world) ["/srv/out"] = ["srv"; "out"]
  /\ resolve_path (cwd climbing_world) ["/srv/out"; "../evil"] = ["srv"; "evil"]
  /\ ~ within ["srv"; "out"] ["srv"; "evil"]
  /\ run.1 = Return tt
  /\ files start !! ["srv"; "evil"] = None
  /\ files run.2 !! ["srv"; "evil"] = Some (File (bytes_of "outside"))
  /\ files run.2 !! ["srv"; "out"; "index.js"]
     = Some (File (bytes_of "inside")).
Proof.
  cbv zeta. split; [done|]. split; [done|]. split; [done|]. split.
  - intros [k Hk]. discriminate Hk.
  - vm_compute. repeat split.
Qed.

End WriteEntry.

(* ===================================================================== *)
(** * Which candidate [findHighestSemVer] selects *)
(* ===================================================================== *)

Section VersionSelection.
Import JS SemVer.

(** What does not exceed [a] lies below what exceeds [a]. *)
Lemma precedes_below (a b c : triple) :
  ~ precedes a b -> precedes a c -> precedes b c.
Proof.
  destruct a as [[??]?], b as [[??]?], c as [[??]?]. unfold precedes. lia.
Qed.

Lemma selected_start (version : string) :
  selected version [] (Highest 0 0 0 None).
Proof.
  split; [done|]. intros c Hc. by apply elem_of_nil in Hc.
Qed.

Lemma selected_kept (version : string) (seen : list string) (h : highest)
    (c : string) :
  (semVerMatches version c = true ->
   ~ precedes (current h) (parsePackageVersion c)) ->
  selected version seen h -> selected version (seen ++ [c]) h.
Proof.
  unfold selected. intros Hc. destruct (highestVersion h) as [c0|].
  - intros (Hp & Hm & Hpos & before & after & -> & Hb & Ha).
    split; [done|]. split; [done|]. split; [done|].
    exists before, (after ++ [c]). split; [by rewrite <- app_assoc|].
    split; [done|].
    intros c' [Hc'|Hc']%elem_of_app Hm'; [by apply Ha|].
    apply list_elem_of_singleton in Hc'. subst c'. rewrite Hp. by apply Hc.
  - intros [Hz Hall]. split; [done|].
    intros c' [Hc'|Hc']%elem_of_app Hm'; [by apply Hall|].
    apply list_elem_of_singleton in Hc'. subst c'. rewrite <- Hz. by apply Hc.
Qed.

Lemma selected_visit (version : string) (seen : list string) (h : highest)
    (c : string) :
  selected version seen h -> selected version (seen ++ [c]) (visit version h c).
Proof.
  intros Hsel. unfold visit.
  destruct (semVerMatches version c) eqn:Hm; cbn [negb];
    [|apply selected_kept; [congruence|done]].
  destruct (parsePackageVersion c) as [[M m] p] eqn:Hp. cbv beta iota.
  destruct (isHighest h (M, m, p)) eqn:Hhi.
  - apply isHighest_precedes in Hhi. unfold selected in *.
    cbn [highestVersion]. rewrite Hp.
    change (current (Highest M m p (Some c))) with (M, m, p).
    split; [done|]. split; [done|].
    destruct (highestVersion h) as [c0|].
    + destruct Hsel as (Hp0 & Hm0 & Hpos & before & after & -> & Hb & Ha).
      rewrite Hp0 in *. split; [by eapply precedes_trans|].
      exists (before ++ c0 :: after), []. split; [done|].
      split; [|intros c' Hc'; by apply elem_of_nil in Hc'].
      intros c' [Hc'|[->|Hc']%elem_of_cons]%elem_of_app Hm'.
      * eapply precedes_trans; [by apply Hb|done].
      * by rewrite Hp0.
      * eapply precedes_below; [by apply Ha|done].
    + destruct Hsel as [Hz Hall]. rewrite Hz in Hhi. split; [done|].
      exists seen, []. split; [done|].
      split; [|intros c' Hc'; by apply elem_of_nil in Hc'].
      intros c' Hc' Hm'. eapply precedes_below; [by apply Hall|done].
  - apply selected_kept; [|done]. intros _. rewrite Hp. intros H.
    apply isHighest_precedes in H. congruence.
Qed.

Lemma selected_end (version : string) (versionList : list string) :
  selected version versionList
    (fold_left (visit version) versionList (Highest 0 0 0 None)).
Proof.
  induction versionList as [|c l IH] using rev_ind.
  - apply selected_start.
  - rewrite fold_left_app. simpl. by apply selected_visit.
Qed.

(** X1. [findHighestSemVer] returns the first of the matching candidates
    with the highest triple, provided that triple lies above 0.0.0: the
    returned candidate matches, every matching candidate before it in the
    list is strictly lower and no matching candidate after it is higher.
    It returns nothing exactly when no matching candidate lies above
    0.0.0. *)
Theorem findHighestSemVer_returns_first_highest (version : string)
    (versionList : list string) :
  match findHighestSemVer version versionList with
  | Some c =>
      semVerMatches version c = true
      /\ precedes (0, 0, 0) (parsePackageVersion c)
      /\ exists before after,
           versionList = before ++ c :: after
           /\ (forall c', c' ∈ before -> semVerMatches version c' = true ->
               precedes (parsePackageVersion c') (parsePackageVersion c))
           /\ (forall c', c' ∈ after -> semVerMatches version c' = true ->
               ~ precedes (parsePackageVersion c) (parsePackageVersion c'))
  | None =>
      forall c, c ∈ versionList -> semVerMatches version c = true ->
                ~ precedes (0, 0, 0) (parsePackageVersion c)
  end.
Proof.
  unfold findHighestSemVer.
  pose proof (selected_end version versionList) as H. unfold selected in H.
  destruct (highestVersion _) as [c|].
  - by destruct H as (_ & Hm & Hpos & H).
  - by destruct H as [_ H].
Qed.

(** With majors that round to the same double, the later candidate with
    the higher patch is the one returned. *)
Example findHighestSemVer_rounds :
  findHighestSemVer "*" ["9007199254740993.0.0"; "9007199254740992.0.1"]
  = Some "9007199254740992.0.1"
  /\ findHighestSemVer "^9007199254740993.0.0"
       ["9007199254740993.0.0"; "9007199254740992.5.0"]
     = Some "9007199254740992.5.0".
Proof. vm_compute. repeat split. Qed.

End VersionSelection.

(* ===================================================================== *)
(** * The forms of a specifier *)
(* ===================================================================== *)

Section SpecifierForms.
Import JS SemVer.

Lemma replaceAll_app (c : ascii) (r a b : string) :
  replaceAll c r (a +:+ b) = replaceAll c r a +:+ replaceAll c r b.
Proof.
  induction a as [|x a IH]; [done|]. rewrite app_String. simpl.
  case_bool_decide; rewrite IH; [by rewrite app_assoc_s|done].
Qed.

Lemma replaceAll_keeps (c x : ascii) (r s : string) :
  x <> c -> replaceAll c r (String x s) = String x (replaceAll c r s).
Proof. intros H. simpl. by rewrite bool_decide_eq_false_2. Qed.

Lemma trim_id (s : string) :
  all_chars (fun a => negb (is_white_space a)) s = true -> trim s = s.
Proof.
  intros H. unfold trim.
  assert (trimStart s = s) as ->; [|by apply trimEnd_id].
  destruct s as [|a s]; [done|]. simpl in *.
  apply andb_true_iff in H as [Ha _]. apply negb_true_iff in Ha.
  by rewrite Ha.
Qed.

Lemma digit_or_dot_not_space (s : string) :
  all_chars digit_or_dot s = true ->
  all_chars (fun a => negb (is_white_space a)) s = true.
Proof.
  apply all_chars_weaken. intros a. unfold digit_or_dot.
  intros [Ha| ->%bool_decide_eq_true]%orb_true_iff; [|done].
  by destruct (digit_not_sign a Ha) as (_ & _ & ->).
Qed.

Lemma numeral_chars (m : string) : numeral m -> all_chars digit_or_dot m = true.
Proof.
  intros [_ Hm]. eapply all_chars_weaken; [|exact Hm].
  intros a Ha. unfold digit_or_dot. by rewrite Ha.
Qed.

Lemma numeral_absent (m : string) (c : ascii) :
  numeral m -> is_digit c = false -> occurs c m = false.
Proof. intros [_ Hm] Hc. by apply (all_chars_absent is_digit). Qed.

Lemma has_digit_numeral (m : string) : numeral m -> has_digit m = true.
Proof.
  intros [Hne Hm]. destruct m as [|d m]; [done|]. simpl in *.
  apply andb_true_iff in Hm as [-> _]. done.
Qed.

Lemma wildcard_chars (q : string) :
  wildcard q ->
  all_chars digit_or_dot q = false /\ startsWith "~" q = false
  /\ startsWith "^" q = false /\ has_digit q = false
  /\ occurs "." q = false
  /\ all_chars (fun a => negb (is_white_space a)) q = true.
Proof.
  unfold wildcard. intros H.
  repeat (apply elem_of_cons in H as [->|H]; [by repeat split|]).
  by apply elem_of_nil in H.
Qed.

(** ** The decision table of [semVerMatches] *)

Lemma semVerMatches_table (version c : string) :
  trim version = version -> ~ wildcard version ->
  let t := parsePackageVersion version in
  let t' := parsePackageVersion c in
  semVerMatches version c
  = (major t =? major t')
    && (startsWith "^" version || (versionPartLength version =? 1)%nat
        || (minor t =? minor t'))
    && (startsWith "^" version || (versionPartLength version =? 1)%nat
        || startsWith "~" version || (versionPartLength version =? 2)%nat
        || (patch t =? patch t')).
Proof.
  intros Ht Hw. cbv zeta. unfold semVerMatches. rewrite Ht.
  rewrite bool_decide_eq_false_2 by done. fold (versionPartLength version).
  destruct (parsePackageVersion version) as [[M m] p].
  destruct (parsePackageVersion c) as [[M' m'] p'].
  unfold major, minor, patch. cbn [fst snd].
  destruct (startsWith "^" version), (versionPartLength version =? 1)%nat,
    (startsWith "~" version), (versionPartLength version =? 2)%nat,
    (M =? M'), (m =? m'), (p =? p'); reflexivity.
Qed.

(** ** Parsing part by part *)

Lemma replaceAll_head (c : ascii) (r m rest : string) :
  occurs c m = false -> c <> "."%char ->
  replaceAll c r (m +:+ String "." rest)
  = m +:+ String "." (replaceAll c r rest).
Proof.
  intros Hm Hc. rewrite replaceAll_app, (replaceAll_absent _ _ _ Hm).
  by rewrite replaceAll_keeps.
Qed.

(** The first part is read as the major component; the parts after it are
    read as a version of their own. *)
Lemma parse_head (m rest : string) :
  numeral m ->
  parsePackageVersion (m +:+ String "." rest)
  = (read m, major (parsePackageVersion rest),
     minor (parsePackageVersion rest)).
Proof.
  intros Hm. unfold parsePackageVersion, major, minor. cbv zeta. cbn [fst snd].
  rewrite (replaceAll_head "~") by (by apply numeral_absent || done).
  rewrite (replaceAll_head "^") by (by apply numeral_absent || done).
  rewrite (replaceAll_head "x") by (by apply numeral_absent || done).
  rewrite (replaceAll_head "X") by (by apply numeral_absent || done).
  rewrite (replaceAll_head "*") by (by apply numeral_absent || done).
  rewrite split_first by by apply numeral_absent.
  change ((m :: ?l) !! 0%nat) with (Some m).
  by rewrite parseInt_read.
Qed.

Lemma digits_stop (acc : option Z) (p : string) (c : ascii) (s : string) :
  all_chars is_digit p = true -> is_digit c = false ->
  digits acc (p +:+ String c s) = digits acc p.
Proof.
  revert acc. induction p as [|d p IH]; intros acc Hp Hc.
  - rewrite app_empty_l. simpl. by rewrite Hc.
  - rewrite app_String. simpl in *. apply andb_true_iff in Hp as [Hd Hp].
    rewrite Hd. by apply IH.
Qed.

(** [parseInt] stops at the first character that is no digit. *)
Lemma parseInt_numeral_then (p : string) (c : ascii) (s : string) :
  numeral p -> is_digit c = false ->
  default 0 (parseInt (Some (p +:+ String c s))) = read p.
Proof.
  intros [Hne Hp] Hc. destruct p as [|d p]; [done|].
  pose proof Hp as Hd. simpl in Hd. apply andb_true_iff in Hd as [Hd _].
  rewrite app_String, parseInt_from_digit by done.
  rewrite <- app_String. rewrite digits_stop, default_number_of by done.
  fold (numeral_value (String d p)). by rewrite numeral_value_decimal.
Qed.

Lemma split_head (sep : ascii) (p u : string) :
  occurs sep p = false ->
  split sep (p +:+ u)
  = match split sep u with h :: tl => (p +:+ h) :: tl | [] => [p] end.
Proof.
  induction p as [|a p IH]; intros H.
  - rewrite app_empty_l. pose proof (split_nonempty sep u).
    by destruct (split sep u).
  - rewrite app_String. simpl in *. apply orb_false_iff in H as [Ha Hp].
    rewrite Ha, (IH Hp). by destruct (split sep u).
Qed.

Lemma ends_number_spec (c : ascii) :
  ends_number c = true ->
  is_digit c = false
  /\ c <> "."%char /\ c <> "~"%char /\ c <> "^"%char /\ c <> "x"%char
  /\ c <> "X"%char /\ c <> "*"%char.
Proof.
  unfold ends_number. intros [Hd Hc]%andb_true_iff.
  apply negb_true_iff in Hd. apply negb_true_iff, bool_decide_eq_false in Hc.
  split; [done|]. repeat split; intros ->; apply Hc; set_solver.
Qed.

(** A part that is a numeral is read as its value, also when text that
    does not continue the number follows it. *)
Lemma parse_last (p : string) :
  numeral p -> major (parsePackageVersion p) = read p.
Proof.
  intros Hp. unfold parsePackageVersion, major. cbv zeta. cbn [fst].
  rewrite (replaceAll_absent "~") by by apply numeral_absent.
  rewrite (replaceAll_absent "^") by by apply numeral_absent.
  rewrite (replaceAll_absent "x") by by apply numeral_absent.
  rewrite (replaceAll_absent "X") by by apply numeral_absent.
  rewrite (replaceAll_absent "*") by by apply numeral_absent.
  rewrite split_absent by by apply numeral_absent.
  exact (parseInt_read p Hp).
Qed.

Lemma replaceAll_tail (x : ascii) (r p : string) (c : ascii) (s : string) :
  occurs x p = false -> c <> x ->
  replaceAll x r (p +:+ String c s) = p +:+ String c (replaceAll x r s).
Proof.
  intros Hp Hc. rewrite replaceAll_app, (replaceAll_absent _ _ _ Hp).
  by rewrite replaceAll_keeps.
Qed.

Lemma parse_last_then (p : string) (c : ascii) (s : string) :
  numeral p -> ends_number c = true ->
  major (parsePackageVersion (p +:+ String c s)) = read p.
Proof.
  intros Hp (Hd & Hdot & H1 & H2 & H3 & H4 & H5)%ends_number_spec.
  unfold parsePackageVersion, major. cbv zeta. cbn [fst].
  rewrite (replaceAll_tail "~") by (by apply numeral_absent || done).
  rewrite (replaceAll_tail "^") by (by apply numeral_absent || done).
  rewrite (replaceAll_tail "x") by (by apply numeral_absent || done).
  rewrite (replaceAll_tail "X") by (by apply numeral_absent || done).
  rewrite (replaceAll_tail "*") by (by apply numeral_absent || done).
  rewrite split_head by by apply numeral_absent.
  cbn [split]. rewrite bool_decide_eq_false_2 by done.
  destruct (split "." _) as [|h tl];
    change ((?a :: ?l) !! 0%nat) with (Some a);
    by apply parseInt_numeral_then.
Qed.

(** ** Counting the parts with a digit *)

Lemma versionPartLength_head (m rest : string) :
  occurs "." m = false ->
  versionPartLength (m +:+ String "." rest)
  = ((if has_digit m then 1 else 0) + versionPartLength rest)%nat.
Proof.
  intros Hm. unfold versionPartLength. rewrite split_first by done.
  cbn [List.filter]. by destruct (has_digit m).
Qed.

Lemma versionPartLength_last (m : string) :
  occurs "." m = false ->
  versionPartLength m = if has_digit m then 1%nat else 0%nat.
Proof.
  intros Hm. unfold versionPartLength. rewrite split_absent by done.
  cbn [List.filter]. by destruct (has_digit m).
Qed.

(** ** The forms made of numerals *)

Lemma three_part_eq (m n p : string) :
  three_part m n p = m +:+ String "." (n +:+ String "." p).
Proof. done. Qed.

Lemma parse_three_part (m n p : string) :
  numeral m -> numeral n -> numeral p ->
  parsePackageVersion (three_part m n p)
  = (read m, read n, read p).
Proof.
  intros Hm Hn Hp. rewrite three_part_eq, parse_head by done.
  rewrite parse_head by done. unfold major at 1, minor. cbn [fst snd].
  by rewrite parse_last.
Qed.

Lemma parse_two_part (m n : string) :
  numeral m -> numeral n ->
  major (parsePackageVersion (two_part m n)) = read m
  /\ minor (parsePackageVersion (two_part m n)) = read n.
Proof.
  intros Hm Hn. unfold two_part. change ("." +:+ n) with (String "." n).
  rewrite parse_head by done. unfold major at 1, minor at 1. cbn [fst snd].
  by rewrite parse_last.
Qed.

Lemma startsWith_digit (c d : ascii) (s : string) :
  is_digit d = true -> is_digit c = false ->
  startsWith (String c "") (String d s) = false.
Proof.
  intros Hd Hc. simpl. rewrite bool_decide_eq_false_2; [done|].
  intros ->. congruence.
Qed.

Lemma startsWith_numeral (c : ascii) (m rest : string) :
  numeral m -> is_digit c = false ->
  startsWith (String c "") (m +:+ rest) = false.
Proof.
  intros [Hne Hm] Hc. destruct m as [|d m]; [done|]. rewrite app_String.
  simpl in Hm. apply andb_true_iff in Hm as [Hd _]. by apply startsWith_digit.
Qed.

Lemma not_wildcard_numeral (m rest : string) :
  numeral m -> ~ wildcard (m +:+ rest).
Proof.
  intros [Hne Hm] Hw. destruct m as [|d m]; [done|].
  simpl in Hm. apply andb_true_iff in Hm as [Hd _].
  apply wildcard_chars in Hw as (_ & _ & _ & Hw & _).
  rewrite app_String in Hw. simpl in Hw. by rewrite Hd in Hw.
Qed.

Lemma trim_numerals (s : string) :
  all_chars digit_or_dot s = true -> trim s = s.
Proof. intros H. by apply trim_id, digit_or_dot_not_space. Qed.

Lemma two_part_chars (m n : string) :
  numeral m -> numeral n -> all_chars digit_or_dot (two_part m n) = true.
Proof.
  intros Hm Hn. unfold two_part.
  by rewrite !all_chars_app, (numeral_chars m), (numeral_chars n).
Qed.

(** X2. A specifier made of numerals fixes the components it spells out,
    each as the number it is read as (the double nearest to it, which is
    the numeral's own value below 2^53): "M" is matched exactly by the
    candidates whose major is that number for M, "M.N" by those whose major
    and minor are the numbers for M and N, and "M.N.P" by those whose
    triple is the one of the numbers for M, N and P. *)
Theorem numeric_specifier_fixes_its_parts (m n p c : string) :
  numeral m -> numeral n -> numeral p ->
  let t := parsePackageVersion c in
  semVerMatches m c = (read m =? major t)
  /\ semVerMatches (two_part m n) c
     = (read m =? major t) && (read n =? minor t)
  /\ semVerMatches (three_part m n p) c
     = (read m =? major t) && (read n =? minor t)
       && (read p =? patch t).
Proof.
  intros Hm Hn Hp t. split; [|split].
  - rewrite semVerMatches_table.
    + rewrite versionPartLength_last by by apply numeral_absent.
      rewrite has_digit_numeral, parse_last by done. cbn [Nat.eqb].
      by rewrite !orb_true_r, !andb_true_r.
    + by apply trim_numerals, numeral_chars.
    + rewrite <- (app_empty_r m). by apply not_wildcard_numeral.
  - destruct (parse_two_part m n Hm Hn) as [HM HN].
    rewrite semVerMatches_table.
    + rewrite HM, HN. unfold two_part. change ("." +:+ n) with (String "." n).
      rewrite versionPartLength_head by by apply numeral_absent.
      rewrite versionPartLength_last by by apply numeral_absent.
      rewrite !has_digit_numeral by done. cbn [Nat.eqb Nat.add].
      rewrite (startsWith_numeral "^") by done.
      by rewrite !orb_true_r, !andb_true_r.
    + by apply trim_numerals, two_part_chars.
    + by apply not_wildcard_numeral.
  - rewrite semVerMatches_table.
    + rewrite parse_three_part by done. unfold major at 1, minor at 1, patch at 1.
      cbn [fst snd]. rewrite three_part_eq.
      rewrite !versionPartLength_head by by apply numeral_absent.
      rewrite versionPartLength_last by by apply numeral_absent.
      rewrite !has_digit_numeral by done. cbn [Nat.eqb Nat.add].
      rewrite (startsWith_numeral "^"), (startsWith_numeral "~") by done.
      done.
    + by apply trim_numerals, body_chars.
    + by apply not_wildcard_numeral.
Qed.

Lemma numeric_specifier_fixes_its_parts_witness :
  let t := parsePackageVersion "1.2.3" in
  semVerMatches "1" "1.2.3" = (read "1" =? major t)
  /\ semVerMatches (two_part "1" "2") "1.2.3"
     = (read "1" =? major t) && (read "2" =? minor t)
  /\ semVerMatches (three_part "1" "2" "4") "1.2.3"
     = (read "1" =? major t) && (read "2" =? minor t)
       && (read "4" =? patch t).
Proof.
  apply (numeric_specifier_fixes_its_parts "1" "2" "4" "1.2.3"); by split.
Defined.

(** Above 2^53 the numbers are the doubles that the numerals round to: the
    specifier 2^53 + 1 is matched by the candidate with major 2^53. *)
Example numeric_specifier_rounds :
  read "9007199254740993" = 9007199254740992
  /\ semVerMatches "9007199254740993" "9007199254740992.0.0" = true
  /\ semVerMatches "9007199254740993" "9007199254740994.0.0" = false.
Proof. vm_compute. repeat split. Qed.

Lemma tilde_eq (m n p : string) :
  tilde m n p = String "~" m +:+ String "." (n +:+ String "." p).
Proof. done. Qed.

Lemma parse_tilde (body : string) :
  parsePackageVersion (String "~" body) = parsePackageVersion body.
Proof. done. Qed.

(** X3. The specifier "~M.N.P" is matched exactly by the candidates whose
    major and minor are the numbers that M and N are read as (the doubles
    nearest to them, M and N themselves below 2^53); their patch component
    and the P of the specifier play no role. *)
Theorem tilde_fixes_major_and_minor (m n p c : string) :
  numeral m -> numeral n -> numeral p ->
  semVerMatches (tilde m n p) c
  = (read m =? major (parsePackageVersion c))
    && (read n =? minor (parsePackageVersion c)).
Proof.
  intros Hm Hn Hp.
  assert (parsePackageVersion (tilde m n p)
          = (read m, read n, read p)) as Hparse.
  { change (tilde m n p) with (String "~" (three_part m n p)).
    by rewrite parse_tilde, parse_three_part. }
  assert (versionPartLength (tilde m n p) = 3%nat) as Hk.
  { rewrite tilde_eq.
    rewrite versionPartLength_head by by apply (numeral_absent m).
    rewrite versionPartLength_head by by apply numeral_absent.
    rewrite versionPartLength_last by by apply numeral_absent.
    change (has_digit (String "~" m)) with (has_digit m).
    by rewrite !has_digit_numeral. }
  rewrite semVerMatches_table.
  - rewrite Hparse, Hk.
    change (startsWith "^" (tilde m n p)) with false.
    change (startsWith "~" (tilde m n p)) with true.
    unfold major at 1, minor at 1. cbn [fst snd Nat.eqb orb].
    by rewrite andb_true_r.
  - apply trim_id. change (tilde m n p) with (String "~" (three_part m n p)).
    cbn [all_chars]. change (negb (is_white_space "~")) with true.
    by apply digit_or_dot_not_space, body_chars.
  - by intros (_ & [=] & _)%wildcard_chars.
Qed.

Lemma tilde_fixes_major_and_minor_witness :
  semVerMatches (tilde "1" "2" "3") "1.2.9"
  = (read "1" =? major (parsePackageVersion "1.2.9"))
    && (read "2" =? minor (parsePackageVersion "1.2.9")).
Proof.
  apply (tilde_fixes_major_and_minor "1" "2" "3" "1.2.9"); by split.
Defined.

(** ** Wildcards *)

Lemma wildcard_part (m q : string) :
  numeral m -> wildcard q ->
  trim (two_part m q) = two_part m q
  /\ versionPartLength (two_part m q) = 1%nat
  /\ major (parsePackageVersion (two_part m q)) = read m.
Proof.
  intros Hm Hq.
  destruct (wildcard_chars q Hq) as (_ & _ & _ & Hdigit & Hdot & Hspace).
  unfold two_part. change ("." +:+ q) with (String "." q). split; [|split].
  - apply trim_id. rewrite all_chars_app. cbn [all_chars].
    rewrite Hspace, (digit_or_dot_not_space m) by by apply numeral_chars.
    done.
  - rewrite versionPartLength_head by by apply numeral_absent.
    rewrite versionPartLength_last by done.
    by rewrite has_digit_numeral, Hdigit.
  - by rewrite parse_head.
Qed.

(** X4. A wildcard leaves free what it stands for: "x", "X" and "*" are
    matched by every candidate, "M.x" exactly by the candidates whose major
    is the number that M is read as, and "M.N.x" exactly by those whose
    major and minor are the numbers that M and N are read as (likewise
    with "X" or "*" in place of "x"). *)
Theorem wildcard_leaves_components_free (q m n c : string) :
  wildcard q -> numeral m -> numeral n ->
  let t := parsePackageVersion c in
  semVerMatches q c = true
  /\ semVerMatches (two_part m q) c = (read m =? major t)
  /\ semVerMatches (three_part m n q) c
     = (read m =? major t) && (read n =? minor t).
Proof.
  intros Hq Hm Hn t. split; [|split].
  - unfold semVerMatches. fold t. destruct t as [[M' m'] p'].
    unfold wildcard in Hq.
    repeat (apply elem_of_cons in Hq as [->|Hq]; [done|]).
    by apply elem_of_nil in Hq.
  - destruct (wildcard_part m q Hm Hq) as (Htrim & Hk & HM).
    rewrite semVerMatches_table; [|done|by apply not_wildcard_numeral].
    rewrite Hk, HM. cbn [Nat.eqb]. by rewrite !orb_true_r, !andb_true_r.
  - destruct (wildcard_part n q Hn Hq) as (Htrim & Hk & HM).
    destruct (wildcard_chars q Hq) as (_ & _ & _ & _ & _ & Hspace).
    rewrite semVerMatches_table; [| |by apply not_wildcard_numeral].
    + rewrite three_part_eq, parse_head by done.
      change (n +:+ String "." q) with (two_part n q).
      rewrite versionPartLength_head by by apply numeral_absent.
      rewrite Hk, HM, has_digit_numeral by done.
      unfold major at 1, minor at 1. cbn [fst snd Nat.eqb Nat.add].
      rewrite (startsWith_numeral "^") by done.
      by rewrite !orb_true_r, andb_true_r.
    + apply trim_id. rewrite three_part_eq, all_chars_app. cbn [all_chars].
      rewrite all_chars_app. cbn [all_chars].
      rewrite Hspace, !digit_or_dot_not_space by by apply numeral_chars.
      done.
Qed.

Lemma wildcard_leaves_components_free_witness :
  let t := parsePackageVersion "1.2.3" in
  semVerMatches "*" "1.2.3" = true
  /\ semVerMatches (two_part "1" "*") "1.2.3" = (read "1" =? major t)
  /\ semVerMatches (three_part "1" "2" "*") "1.2.3"
     = (read "1" =? major t) && (read "2" =? minor t).
Proof.
  apply (wildcard_leaves_components_free "*" "1" "2" "1.2.3");
    [set_solver|by split..].
Defined.

(** ** What [parsePackageVersion] reads *)

(** X5. [parsePackageVersion] reads "M.N.P" as the triple of the numbers
    that M, N and P are read as, and the same from "^M.N.P" and "~M.N.P";
    text after the patch number that does not continue it, such as the
    "-rc.1" of a pre-release, is ignored, so that "3.0.0-rc.1" counts as
    3.0.0. A numeral is read as the double nearest to the integer it
    denotes: as that integer when it lies below 2^53; from there on as
    the nearest number with 53 leading bits, the even one of two at the
    same distance, and as [Infinity] from 2^1024 - 2^970 on. *)
Theorem parsePackageVersion_reads_numerals (m n p : string) :
  numeral m -> numeral n -> numeral p ->
  let t := (read m, read n, read p) in
  parsePackageVersion (three_part m n p) = t
  /\ parsePackageVersion (caret m n p) = t
  /\ parsePackageVersion (tilde m n p) = t
  /\ (forall c s, ends_number c = true ->
        parsePackageVersion (three_part m n p +:+ String c s) = t)
  /\ (safe (decimal m) -> safe (decimal n) -> safe (decimal p) ->
      t = (decimal m, decimal n, decimal p))
  /\ forall q,
       numeral q -> 2 ^ 53 <= decimal q ->
       let ulp := 2 ^ (Z.log2 (decimal q) - 52) in
       (read q = 2 ^ 1024 <-> 2 ^ 1024 - 2 ^ 970 <= decimal q)
       /\ (read q = 2 ^ 1024
           \/ exists k,
                2 ^ 52 <= k <= 2 ^ 53 /\ read q = k * ulp
                /\ 2 * Z.abs (read q - decimal q) <= ulp
                /\ (2 * Z.abs (read q - decimal q) = ulp ->
                    Z.even k = true)).
Proof.
  intros Hm Hn Hp t.
  assert (forall q,
            numeral q -> 2 ^ 53 <= decimal q ->
            let ulp := 2 ^ (Z.log2 (decimal q) - 52) in
            (read q = 2 ^ 1024 <-> 2 ^ 1024 - 2 ^ 970 <= decimal q)
            /\ (read q = 2 ^ 1024
                \/ exists k,
                     2 ^ 52 <= k <= 2 ^ 53 /\ read q = k * ulp
                     /\ 2 * Z.abs (read q - decimal q) <= ulp
                     /\ (2 * Z.abs (read q - decimal q) = ulp ->
                         Z.even k = true))) as Hrounds.
  { intros q _ Hq ulp. unfold read. split.
    - by apply number_of_infinite.
    - by apply number_of_nearest. }
  split; [|split; [|split; [|split; [|split; [|exact Hrounds]]]]];
    [by apply parse_three_part..| |].
  - intros c s Hc. unfold three_part.
    rewrite !app_assoc_s.
    change ("." +:+ n +:+ "." +:+ p +:+ String c s)
      with (String "." (n +:+ String "." (p +:+ String c s))).
    rewrite !parse_head by done. unfold major at 1, minor. cbn [fst snd].
    by rewrite parse_last_then.
  - intros H1 H2 H3. unfold t, read. by rewrite !number_of_safe.
Qed.

Lemma parsePackageVersion_reads_numerals_witness :
  let t := (read "3", read "0", read "12") in
  parsePackageVersion (three_part "3" "0" "12") = t
  /\ parsePackageVersion (caret "3" "0" "12") = t
  /\ parsePackageVersion (tilde "3" "0" "12") = t
  /\ (forall c s, ends_number c = true ->
        parsePackageVersion (three_part "3" "0" "12" +:+ String c s) = t)
  /\ (safe (decimal "3") -> safe (decimal "0") -> safe (decimal "12") ->
      t = (3, 0, 12)).
Proof.
  destruct (parsePackageVersion_reads_numerals "3" "0" "12")
    as (H1 & H2 & H3 & H4 & H5 & _); [by split..|].
  repeat (split; [assumption|]). exact H5.
Defined.

(** Numerals from 2^53 on are rounded to the nearest double, ties to even,
    and to [Infinity] (here 2^1024) from 2^1024 - 2^970 on. *)
Example parsePackageVersion_rounds :
  parsePackageVersion "9007199254740993.9007199254740995.3-rc.1"
  = (9007199254740992, 9007199254740996, 3)
  /\ number_of (10 ^ 23) = 99999999999999991611392
  /\ number_of (2 ^ 1024 - 2 ^ 970 - 1) = 2 ^ 1024 - 2 ^ 971
  /\ number_of (2 ^ 1024 - 2 ^ 970) = 2 ^ 1024
  /\ number_of (10 ^ 400) = 2 ^ 1024
  /\ number_of (- (2 ^ 53 + 3)) = - (2 ^ 53 + 4).
Proof. vm_compute. repeat split. Qed.

End SpecifierForms.

(* ===================================================================== *)
(** * Tags *)
(* ===================================================================== *)

Section Tags.
Import JS SemVer Fetcher.
Local Open Scope fetch_scope.

Lemma letter_spec (a : ascii) :
  is_letter a = true ->
  is_digit a = false /\ is_white_space a = false
  /\ a <> "."%char /\ a <> "~"%char /\ a <> "^"%char
  /\ forall s, parseInt (Some (String a s))
               = number_of <$> digits None (String a s).
Proof.
  destruct a as [[] [] [] [] [] [] [] []]; intros H;
    try discriminate H; by repeat split.
Qed.

Lemma letters_absent (c : ascii) (s : string) :
  is_letter c = false -> all_chars is_letter s = true -> occurs c s = false.
Proof. apply all_chars_absent. Qed.

(** The characters of a tag once its [x] and [X] have become [0]. *)
Lemma replaceAll_letters (c : ascii) (r s : string) :
  let q := fun a => is_letter a || bool_decide (a = "0"%char) in
  all_chars q r = true -> all_chars q s = true ->
  all_chars q (replaceAll c r s) = true.
Proof.
  intros q Hr. induction s as [|a s IH]; [done|]. simpl.
  intros [Ha Hs]%andb_true_iff. case_bool_decide.
  - by rewrite all_chars_app, Hr, IH.
  - simpl. by rewrite Ha, IH.
Qed.

Lemma digits_zero (acc : option Z) (s : string) :
  default 0 acc = 0 ->
  all_chars (fun a => is_letter a || bool_decide (a = "0"%char)) s = true ->
  default 0 (digits acc s) = 0.
Proof.
  revert acc. induction s as [|a s IH]; intros acc Hacc; [done|]. simpl.
  intros [Ha Hs]%andb_true_iff. destruct (is_digit a) eqn:Hd; [|done].
  apply IH; [|done]. rewrite Hacc.
  apply orb_true_iff in Ha as [Ha| ->%bool_decide_eq_true]; [|done].
  apply letter_spec in Ha as (Hd' & _). congruence.
Qed.

Lemma parseInt_zero (s : string) :
  all_chars (fun a => is_letter a || bool_decide (a = "0"%char)) s = true ->
  default 0 (parseInt (Some s)) = 0.
Proof.
  intros Hs. destruct s as [|a s]; [done|].
  assert (parseInt (Some (String a s))
          = number_of <$> digits None (String a s)) as ->.
  { simpl in Hs. apply andb_true_iff in Hs as [Ha _].
    apply orb_true_iff in Ha as [Ha| ->%bool_decide_eq_true]; [|done].
    by apply letter_spec in Ha as (_ & _ & _ & _ & _ & ->). }
  by rewrite default_number_of, digits_zero.
Qed.

Lemma parse_tag (tag : string) :
  all_chars is_letter tag = true -> parsePackageVersion tag = (0, 0, 0).
Proof.
  intros Htag. unfold parsePackageVersion. cbv zeta.
  set (normal := replaceAll "*" "0" _).
  assert (all_chars (fun a => is_letter a || bool_decide (a = "0"%char))
            normal = true) as Hnormal.
  { unfold normal. repeat (apply replaceAll_letters; [done|]).
    eapply all_chars_weaken; [|exact Htag]. by intros a ->. }
  rewrite split_absent
    by (by apply (all_chars_absent _ "." normal eq_refl Hnormal)).
  change ([normal] !! 0%nat) with (Some normal).
  change ([normal] !! 1%nat) with (@None string).
  change ([normal] !! 2%nat) with (@None string).
  by rewrite parseInt_zero.
Qed.

Lemma tag_matches (tag c : string) :
  all_chars is_letter tag = true -> ~ wildcard tag ->
  semVerMatches tag c = true -> parsePackageVersion c = (0, 0, 0).
Proof.
  intros Htag Hw. rewrite semVerMatches_table; [|apply trim_id|done].
  - rewrite parse_tag by done.
    rewrite versionPartLength_last by by apply letters_absent.
    assert (has_digit tag = false) as ->.
    { clear Hw. induction tag as [|a tag IH]; [done|]. simpl in *.
      apply andb_true_iff in Htag as [Ha Htag].
      apply letter_spec in Ha as (-> & _). by apply IH. }
    assert (startsWith "^" tag = false /\ startsWith "~" tag = false)
      as [-> ->].
    { destruct tag as [|a tag]; [done|]. simpl in *.
      apply andb_true_iff in Htag as [Ha _].
      apply letter_spec in Ha as (_ & _ & _ & H1 & H2 & _).
      by rewrite !bool_decide_eq_false_2. }
    destruct (parsePackageVersion c) as [[M m] p].
    unfold major, minor, patch. cbn [fst snd Nat.eqb orb].
    intros [[HM Hm]%andb_true_iff Hp]%andb_true_iff.
    apply Z.eqb_eq in HM, Hm, Hp. by subst.
  - eapply all_chars_weaken; [|exact Htag].
    intros a Ha. by apply letter_spec in Ha as (_ & -> & _).
Qed.

Lemma findHighestSemVer_tag (tag : string) (versionList : list string) :
  all_chars is_letter tag = true -> ~ wildcard tag ->
  findHighestSemVer tag versionList = None.
Proof.
  intros Htag Hw. apply findHighestSemVer_None. intros c _ Hmatch.
  rewrite (tag_matches tag c Htag Hw Hmatch). apply precedes_irrefl.
Qed.

(** X6. A specifier made of letters only, other than the wildcards "x"
    and "X", is never resolved from a version list: it parses to 0.0.0 with
    every component exact, so only candidates that parse to 0.0.0 match it,
    and [findHighestSemVer] returns nothing whatever the list holds.
    Distribution tags such as "next" or "beta" are of this kind. *)
Theorem tag_is_never_resolved (tag : string) :
  all_chars is_letter tag = true -> ~ wildcard tag ->
  parsePackageVersion tag = (0, 0, 0)
  /\ (forall c, semVerMatches tag c = true ->
                parsePackageVersion c = (0, 0, 0))
  /\ forall versionList, findHighestSemVer tag versionList = None.
Proof.
  intros Htag Hw. split; [by apply parse_tag|]. split.
  - intros c. by apply tag_matches.
  - intros versionList. by apply findHighestSemVer_tag.
Qed.

Lemma tag_is_never_resolved_witness :
  parsePackageVersion "next" = (0, 0, 0)
  /\ (forall c, semVerMatches "next" c = true ->
                parsePackageVersion c = (0, 0, 0))
  /\ forall versionList, findHighestSemVer "next" versionList = None.
Proof.
  apply (tag_is_never_resolved "next"); [reflexivity|].
  unfold wildcard. intros H.
  repeat (apply elem_of_cons in H as [H|H]; [discriminate H|]).
  by apply elem_of_nil in H.
Defined.

Lemma registryNeedsVersion_tag (tag : string) :
  all_chars is_letter tag = true -> tag <> "latest" ->
  registryNeedsVersion tag = false.
Proof.
  intros Htag Hlatest. unfold registryNeedsVersion.
  rewrite bool_decide_eq_false_2 by done.
  destruct tag as [|a tag]; [done|].
  simpl in Htag. apply andb_true_iff in Htag as [Ha _].
  apply letter_spec in Ha as (Hd & Hs & Hdot & _).
  unfold digits_dots_spaces. cbn [truthy all_chars andb].
  by rewrite Hd, Hs, bool_decide_eq_false_2.
Qed.

(** X7. [fetchNpmPackage] never returns for a version that is such a tag
    and not "latest": it requests the version list at {packageName} and
    nothing else, and when the registry answers with a version list it
    throws the error that the version was not found in the registry. *)
Theorem tag_other_than_latest_is_not_found (w : World)
    (packageName tag : string) (s : state) :
  all_chars is_letter tag = true -> ~ wildcard tag -> tag <> "latest" ->
  let run := fetchNpmPackage w packageName (Some tag) s in
  requests run.2 = requests s ++ [registry +:+ packageName]
  /\ (forall data, run.1 <> Return data)
  /\ forall r versionless,
       http w (registry +:+ packageName) = Some r ->
       Response.ok r = true ->
       json w (Response.blob r) = Some (JsonVersionless versionless) ->
       run.1 = Throw (VersionNotFound packageName tag).
Proof.
  intros Htag Hw Hlatest run.
  pose proof (registryNeedsVersion_tag tag Htag Hlatest) as Hneeds.
  split; [|split].
  - unfold run. rewrite fetchNpmPackage_requests. unfold registry_url.
    change (default "latest" (Some tag)) with tag. by rewrite Hneeds.
  - intros data Hrun.
    destruct run as [o s'] eqn:Erun. cbn [fst] in Hrun. subst o.
    apply fetchNpmPackage_Return in Erun.
    destruct Erun as (_ & _ & _ & _ & r & _ & _ & Hrec).
    unfold record_of in Hrec.
    change (default "latest" (Some tag)) with tag in Hrec.
    rewrite Hneeds in Hrec.
    destruct Hrec as (v & highest & _ & Hfind & _).
    by rewrite findHighestSemVer_tag in Hfind by done.
  - intros r versionless Hr Hok Hjson. unfold run, fetchNpmPackage.
    change (default "latest" (Some tag)) with tag. cbv zeta.
    rewrite Hneeds. unfold bind, fetch. rewrite Hr, Hok.
    cbn [negb]. rewrite Hjson.
    by rewrite findHighestSemVer_tag by done.
Qed.

End Tags.

(* ===================================================================== *)
(** * The outcomes of [fetchNpmPackage] *)
(* ===================================================================== *)

Section FetchOutcomes.
Import JS SemVer Path Fs Fetcher Scenario.
Local Open Scope fetch_scope.

Lemma tag_other_than_latest_is_not_found_witness :
  let run := fetchNpmPackage pkg_world "Pkg" (Some "next") start in
  requests run.2 = requests start ++ [registry +:+ "Pkg"]
  /\ (forall data, run.1 <> Return data)
  /\ forall r versionless,
       http pkg_world (registry +:+ "Pkg") = Some r ->
       Response.ok r = true ->
       json pkg_world (Response.blob r) = Some (JsonVersionless versionless) ->
       run.1 = Throw (VersionNotFound "Pkg" "next").
Proof.
  apply (tag_other_than_latest_is_not_found pkg_world "Pkg" "next" start);
    [reflexivity| |discriminate].
  unfold wildcard. intros H.
  repeat (apply elem_of_cons in H as [H|H]; [discriminate H|]).
  by apply elem_of_nil in H.
Defined.

(** A selected version is not the empty string. *)
Lemma findHighestSemVer_truthy (version : string) (versionList : list string)
    (c : string) :
  findHighestSemVer version versionList = Some c -> truthy c = true.
Proof.
  intros (_ & _ & Hpos & _)%findHighestSemVer_Some.
  destruct c; [|done]. by apply precedes_irrefl in Hpos.
Qed.

Lemma state_eq (s s' : state) :
  files s' = files s -> requests s' = requests s ->
  invocations s' = invocations s -> s' = s.
Proof. destruct s, s'. simpl. by intros -> -> ->. Qed.

Lemma fetchNpmPackage_state (w : World) (packageName : string)
    (version : option string) (s : state) :
  (fetchNpmPackage w packageName version s).2
  = requested (registry_url packageName (default "latest" version)) s.
Proof.
  destruct (fetchNpmPackage_quiet w packageName version s) as [Hf Hi].
  apply state_eq; [done| |done]. apply fetchNpmPackage_requests.
Qed.

(** X8. When the registry answers the one request of [fetchNpmPackage]
    with a success status and a record comes out of the answer (the answer
    itself, read as a package record, on a direct lookup; the entry of the
    version that [findHighestSemVer] selects on a lookup of the version
    list), the call returns the given name, the version of the record and
    the record, and the state has the one request more. Whenever the call
    returns, the request was answered with a success status, the name
    returned is the name given, and the state has the one request more. *)
Theorem fetchNpmPackage_returns_the_record (w : World) (packageName : string)
    (version : option string) (s : state) :
  let version' := default "latest" version in
  let url := registry_url packageName version' in
  (forall r p,
     http w url = Some r -> Response.ok r = true -> record_of w version' r p ->
     fetchNpmPackage w packageName version s
     = (Return (fetched packageName version' p), requested url s))
  /\ (forall data s',
        fetchNpmPackage w packageName version s = (Return data, s') ->
        s' = requested url s
        /\ FetchedNpmPackageData.packageName data = packageName
        /\ exists r, http w url = Some r /\ Response.ok r = true).
Proof.
  intros version' url. split.
  - intros r p Hr Hok Hrec. unfold url in *.
    unfold fetched, fetchNpmPackage, record_of in *. unfold registry_url in *.
    fold version'. cbv zeta.
    destruct (registryNeedsVersion version') eqn:Hneeds;
      unfold bind, fetch; rewrite Hr, Hok; cbn [negb].
    + by rewrite Hrec.
    + destruct Hrec as (versionless & highest & -> & Hfind & Hp).
      rewrite Hfind, (findHighestSemVer_truthy _ _ _ Hfind). cbn [negb].
      by rewrite Hp.
  - intros data s' H.
    pose proof (fetchNpmPackage_state w packageName version s) as Hs.
    rewrite H in Hs. cbn [snd] in Hs.
    apply fetchNpmPackage_Return in H.
    destruct H as (H1 & H2 & H3 & H4 & r & Hr & Hok & Hrec).
    split; [done|]. split; [done|]. by exists r.
Qed.

(** X9. Whatever its outcome, [fetchNpmPackage] makes exactly one request
    and touches neither the file system nor anything else. When the
    request fails it throws a network error; when the registry answers
    with a status outside 200-299 it throws before reading the answer:
    "doesn't exist" for 404 and the general failure otherwise, naming
    {packageName}@{version} after a direct lookup and {packageName}
    after a lookup of the version list. *)
Theorem fetchNpmPackage_failed_lookup (w : World) (packageName : string)
    (version : option string) (s : state) :
  let version' := default "latest" version in
  let url := registry_url packageName version' in
  let name := errorMessagePackageName packageName version' in
  let run := fetchNpmPackage w packageName version s in
  run.2 = requested url s
  /\ (http w url = None -> run.1 = Throw (NetworkError url))
  /\ forall r, http w url = Some r -> Response.ok r = false ->
       run.1 = Throw (if (Response.status r =? 404)%N
                      then DoesNotExist name else RegistryFailed name).
Proof.
  intros version' url name run. split; [apply fetchNpmPackage_state|].
  unfold run, url, name, fetchNpmPackage, registry_url,
    errorMessagePackageName.
  fold version'. cbv zeta.
  destruct (registryNeedsVersion version'); unfold bind, fetch; split.
  - by intros ->.
  - intros r -> ->. cbn [negb]. by destruct (_ =? _)%N.
  - by intros ->.
  - intros r -> ->. cbn [negb]. by destruct (_ =? _)%N.
Qed.

(** ** Which specifiers are looked up directly *)

Lemma numeral_first (m rest : string) :
  numeral m -> exists d r, m +:+ rest = String d r /\ is_digit d = true.
Proof.
  intros [Hne Hm]. destruct m as [|d m]; [done|]. simpl in Hm.
  apply andb_true_iff in Hm as [Hd _]. exists d, (m +:+ rest). by split.
Qed.

Lemma registryNeedsVersion_numerals (body : string) :
  all_chars digit_or_dot body = true -> body <> "" ->
  registryNeedsVersion body
  = (length (split "." body) =? 3)%nat.
Proof.
  intros Hbody Hne. unfold registryNeedsVersion.
  rewrite bool_decide_eq_false_2.
  - unfold digits_dots_spaces. apply truthy_true in Hne. rewrite Hne.
    assert (all_chars
              (fun c => is_digit c || bool_decide (c = "."%char)
                        || is_white_space c) body = true) as ->.
    { eapply all_chars_weaken; [|exact Hbody]. intros a. unfold digit_or_dot.
      by intros ->. }
    by destruct (_ =? _)%nat.
  - intros ->. discriminate Hbody.
Qed.

Lemma registryNeedsVersion_prefixed (c : ascii) (body : string) :
  is_digit c = false -> c <> "."%char -> is_white_space c = false ->
  c <> "l"%char ->
  registryNeedsVersion (String c body) = false.
Proof.
  intros Hd Hdot Hs Hl. unfold registryNeedsVersion.
  rewrite bool_decide_eq_false_2 by (by intros [=]).
  unfold digits_dots_spaces. cbn [truthy all_chars andb].
  by rewrite Hd, Hs, bool_decide_eq_false_2.
Qed.

(** X10. Only "latest" and versions of three parts are looked up directly:
    for "M.N.P" the one request of [fetchNpmPackage] goes to
    {packageName}/M.N.P, while for "^M.N.P", "~M.N.P", "M.N", "M" and the
    wildcards it goes to the version list at {packageName}. *)
Theorem three_part_versions_are_looked_up_directly (w : World)
    (packageName m n p : string) (s : state) :
  numeral m -> numeral n -> numeral p ->
  let requested_for version :=
    requests (fetchNpmPackage w packageName (Some version) s).2 in
  requested_for (three_part m n p)
  = requests s ++ [registry +:+ packageName +:+ "/" +:+ three_part m n p]
  /\ forall version,
       version = caret m n p \/ version = tilde m n p
       \/ version = two_part m n \/ version = m \/ wildcard version ->
       requested_for version = requests s ++ [registry +:+ packageName].
Proof.
  intros Hm Hn Hp requested_for. unfold requested_for. split.
  - rewrite fetchNpmPackage_requests. unfold registry_url.
    change (default "latest" (Some ?v)) with v.
    rewrite registryNeedsVersion_numerals.
    + rewrite three_part_eq, !split_first by by apply numeral_absent.
      by rewrite split_absent by by apply numeral_absent.
    + by apply body_chars.
    + destruct (numeral_first m ("." +:+ n +:+ "." +:+ p) Hm) as (d & r & E & _).
      unfold three_part. by rewrite E.
  - intros version Hversion. rewrite fetchNpmPackage_requests.
    unfold registry_url. change (default "latest" (Some ?v)) with v.
    assert (registryNeedsVersion version = false) as ->; [|done].
    destruct Hversion as [->|[->|[->|[->|Hw]]]].
    + by apply registryNeedsVersion_prefixed.
    + by apply registryNeedsVersion_prefixed.
    + rewrite registryNeedsVersion_numerals.
      * unfold two_part. change ("." +:+ n) with (String "." n).
        rewrite split_first by by apply numeral_absent.
        by rewrite split_absent by by apply numeral_absent.
      * by apply two_part_chars.
      * destruct (numeral_first m ("." +:+ n) Hm) as (d & r & E & _).
        unfold two_part. by rewrite E.
    + rewrite registryNeedsVersion_numerals.
      * by rewrite split_absent by by apply numeral_absent.
      * by apply numeral_chars.
      * by destruct Hm.
    + unfold wildcard in Hw.
      repeat (apply elem_of_cons in Hw as [->|Hw]; [done|]).
      by apply elem_of_nil in Hw.
Qed.

Lemma three_part_versions_are_looked_up_directly_witness :
  let requested_for version :=
    requests (fetchNpmPackage pkg_world "Pkg" (Some version) start).2 in
  requested_for (three_part "0" "0" "4")
  = requests start ++ [registry +:+ "Pkg" +:+ "/" +:+ three_part "0" "0" "4"]
  /\ forall version,
       version = caret "0" "0" "4" \/ version = tilde "0" "0" "4"
       \/ version = two_part "0" "0" \/ version = "0" \/ wildcard version ->
       requested_for version = requests start ++ [registry +:+ "Pkg"].
Proof.
  apply (three_part_versions_are_looked_up_directly pkg_world "Pkg"
           "0" "0" "4" start); by split.
Defined.

(** ** The checks of [getPackageContents] *)

(** X11. [getPackageContents] makes exactly one request, for the tarball,
    and touches nothing else. It tests the status first: a status outside
    200-299 gives the status error whatever the bytes are. The test for a
    missing body comes after the checksum test and reads the missing body
    as no bytes, so the error "response body is null" is reached only when
    the declared checksum is the SHA-1 digest of the empty input. *)
Theorem getPackageContents_checks_in_order (w : World)
    (data : FetchedNpmPackageData.t) (s : state) (r : Response.t) :
  http w (tarball_of data) = Some r ->
  let run := getPackageContents w data s in
  run.2 = requested (tarball_of data) s
  /\ (Response.ok r = false ->
      run.1 = Throw (InvalidStatus (FetchedNpmPackageData.packageName data)
                       (FetchedNpmPackageData.requestedVersion data)
                       (FetchedNpmPackageData.url data) (Response.status r)))
  /\ (run.1 = Throw BodyIsNull ->
      Response.ok r = true /\ Response.body r = None
      /\ shasum_of data = "da39a3ee5e6b4b0d3255bfef95601890afd80709").
Proof.
  intros Hr run. unfold run, getPackageContents, bind, fetch.
  fold (tarball_of data). fold (shasum_of data). rewrite Hr.
  destruct (Response.ok r); cbn [negb]; [|by repeat split].
  case_bool_decide as Hsum; cbn [negb]; [|by repeat split].
  unfold Response.blob in Hsum.
  destruct (Response.body r) as [bytes|]; [by repeat split|].
  split; [done|]. split; [done|]. intros _. split; [done|]. split; [done|].
  by rewrite <- Hsum.
Qed.

Lemma getPackageContents_checks_in_order_witness :
  (getPackageContents tarball_not_found pkg_latest after_pkg_latest).1
  = Throw (InvalidStatus "Pkg" "latest"
             "https://registry.npmjs.org/Pkg/latest" 404)
  /\ Sha1.hashHex (Sha1.digest (bytes_of "tarball of pkg 2.0.0"))
     = shasum_of pkg_latest
  /\ (getPackageContents tarball_without_body empty_latest
        after_pkg_latest).1
     = Throw BodyIsNull
  /\ shasum_of empty_latest = "da39a3ee5e6b4b0d3255bfef95601890afd80709".
Proof.
  destruct (getPackageContents_checks_in_order tarball_not_found pkg_latest
              after_pkg_latest
              (Response.Make 404 (Some (bytes_of "tarball of pkg 2.0.0")))
              eq_refl) as (_ & Hstatus & _).
  destruct (getPackageContents_checks_in_order tarball_without_body
              empty_latest after_pkg_latest (Response.Make 204 None)
              eq_refl) as (_ & _ & Hbody).
  assert ((getPackageContents tarball_without_body empty_latest
             after_pkg_latest).1 = Throw BodyIsNull) as Hnull
    by (vm_compute; reflexivity).
  split; [exact (Hstatus eq_refl)|]. split; [vm_compute; reflexivity|].
  split; [exact Hnull|]. exact (proj2 (proj2 (Hbody Hnull))).
Defined.

End FetchOutcomes.

(* ===================================================================== *)
(** * What a download leaves on disk *)
(* ===================================================================== *)

Section DownloadFacts.
Import JS SemVer Path Fs Fetcher Scenario.
Local Open Scope fetch_scope.

Lemma fs_update_Return (f : tree -> result fs_error tree) (s s' : state) :
  fs_update f s = (Return tt, s') ->
  f (files s) = Ok (files s') /\ requests s' = requests s
  /\ invocations s' = invocations s.
Proof.
  rewrite fs_update_run. destruct (f (files s)); [|done]. by intros [= <-].
Qed.

Lemma lstat_file (fs : tree) (p : path) (c : list byte) :
  lstat fs p = Ok (File c) -> p <> [] /\ fs !! p = Some (File c).
Proof.
  intros H. destruct p as [|a p]; [done|]. split; [done|].
  by apply (walk_lookup fs []) in H.
Qed.

(** X12. A file entry is written into the file at its target from the
    first byte on, and the file is not truncated: when the target was not
    there before, it holds exactly the bytes of the entry afterwards; when
    it was a file before, the bytes of the entry replace its beginning and
    whatever the old content had beyond their length stays. *)
Theorem file_entry_is_written_in_place (w : World) (destination : string)
    (entry : TarEntry.t) (s s' : state) :
  TarEntry.type entry <> "directory" ->
  write_entry w destination entry s = (Return tt, s') ->
  let target := target_of w destination entry in
  let content := TarEntry.content entry in
  files s' !! target
  = Some (File (match lstat (files s) target with
                | Ok (File old) => content ++ drop (length content) old
                | _ => content
                end)).
Proof.
  intros Htype Hrun target content. unfold write_entry in Hrun.
  fold (target_of w destination entry) in Hrun. fold target content in Hrun.
  rewrite bool_decide_eq_false_2 in Hrun by done.
  apply bind_inv_Return in Hrun as ([] & s1 & H1 & H2).
  apply fs_update_Return in H1 as (H1 & _), H2 as (H2 & _).
  unfold ensureFile in H1. unfold open_copy_close in H2.
  destruct (lstat (files s) target) as [[|old]|e] eqn:El; [done| |].
  - injection H1 as H1. rewrite <- H1, El in H2. injection H2 as <-.
    apply lookup_insert_eq.
  - destruct e; try done.
    destruct (ensureDir (files s) (dirname target)) as [fs1|e]; [|done].
    unfold writeFile in H1. destruct target as [|a target]; [done|].
    destruct (lstat fs1 (dirname (a :: target))) as [[|c]|e]; [|done..].
    assert (files s1 = <[a :: target := File []]> fs1) as Hs1.
    { destruct (lookup_node fs1 (a :: target)) as [[|c]|]; by simplify_eq. }
    destruct (lstat (files s1) (a :: target)) as [[|old]|e] eqn:El1;
      [done| |done].
    apply lstat_file in El1 as [_ El1].
    rewrite Hs1, lookup_insert_eq in El1. injection El1 as <-.
    injection H2 as <-. by rewrite lookup_insert_eq, drop_nil, app_nil_r.
Qed.

Lemma file_entry_is_written_in_place_witness :
  let entry := TarEntry.Make "index.js" "file" (bytes_of "new") in
  let before :=
    State {[ ["srv"] := Dir; ["srv"; "index.js"] := File (bytes_of "older") ]}
          [] [] in
  files (write_entry pkg_world "/srv" entry before).2 !! ["srv"; "index.js"]
  = Some (File (bytes_of "newer")).
Proof.
  cbv zeta.
  exact (file_entry_is_written_in_place pkg_world "/srv"
           (TarEntry.Make "index.js" "file" (bytes_of "new"))
           (State {[ ["srv"] := Dir;
                     ["srv"; "index.js"] := File (bytes_of "older") ]} [] [])
           _ ltac:(discriminate) eq_refl).
Defined.

(** ** The default destination *)

Lemma default_directory (w : World) (packageName version : string) :
  Forall (fun x => plain x /\ occurs "/" x = false) (cwd w) ->
  Forall plain (split "/" packageName) ->
  Forall plain (split "/" version) ->
  resolve_path (cwd w)
    [path_string (cwd w);
     "./npm_packages/" +:+ packageName +:+ "/" +:+ version]
  = cwd w ++ "npm_packages" :: split "/" packageName ++ split "/" version.
Proof.
  intros Hcwd Hname Hversion.
  destruct (resolve_path_relative (cwd w) (path_string (cwd w))
              ("./npm_packages/" +:+ packageName +:+ "/" +:+ version))
    as (stack & Hstack & ->); [done..|].
  rewrite resolve_path_string in Hstack by done.
  change ("./npm_packages/" +:+ packageName +:+ "/" +:+ version)
    with ("." +:+ String "/"
            ("npm_packages"
               +:+ String "/" (packageName +:+ String "/" version))).
  rewrite !split_app_sep.
  change (split "/" ".") with ["."].
  change (split "/" "npm_packages") with ["npm_packages"].
  cbn [app fold_left].
  change (normalize_step stack ".") with stack.
  change (normalize_step stack "npm_packages") with ("npm_packages" :: stack).
  rewrite fold_normalize_plain by by apply Forall_app.
  rewrite rev_app_distr, rev_involutive. cbn [rev].
  by rewrite <- Hstack, <- app_assoc.
Qed.

(** X13. Without a destination, or with the empty one, [downloadNpmPackage]
    does what it does when called with the destination
    npm_packages/{packageName}/{version} below the working directory, where
    the version is the one of the record that [fetchNpmPackage] returned
    and not the specifier that was asked for; a successful step of its loop
    for an entry with a plain relative path leaves the entry below that
    directory, at the segments of its path. *)
Theorem default_destination_is_under_npm_packages (depth : nat) (w : World)
    (options : Options.t) (s s1 : state) (data : FetchedNpmPackageData.t) :
  default "" (Options.destination options) = "" ->
  fetchNpmPackage w (Options.packageName options)
    (Some (default "latest" (Options.version options))) s
  = (Return data, s1) ->
  Forall (fun x => plain x /\ occurs "/" x = false) (cwd w) ->
  Forall plain (split "/" (Options.packageName options)) ->
  Forall plain (split "/" (FetchedNpmPackageData.version data)) ->
  let directory :=
    cwd w ++ "npm_packages"
      :: split "/" (Options.packageName options)
      ++ split "/" (FetchedNpmPackageData.version data) in
  downloadNpmPackage (S depth) w options s
  = downloadNpmPackage (S depth) w
      (Options.Make (Options.packageName options) (Options.version options)
         (Some (path_string directory))
         (Options.downloadDependencies options)
         (Options.downloadDevDependencies options)) s
  /\ forall entry s2 s3,
       Forall plain (split "/" (TarEntry.fileName entry)) ->
       write_entry w (path_string directory) entry s2 = (Return tt, s3) ->
       exists node,
         lookup_node (files s3)
           (directory ++ split "/" (TarEntry.fileName entry)) = Some node
         /\ (node = Dir <-> TarEntry.type entry = "directory").
Proof.
  intros Hdest Hfetch Hcwd Hname Hversion directory.
  pose proof (fetchNpmPackage_Return _ _ _ _ _ _ Hfetch) as (Hdata & _).
  pose proof (default_directory w _ _ Hcwd Hname Hversion) as Hdir.
  fold directory in Hdir. split.
  - cbn [downloadNpmPackage Options.packageName Options.version
         Options.destination Options.downloadDependencies
         Options.downloadDevDependencies].
    rewrite !(bind_Return _ _ _ _ _ Hfetch). rewrite Hdest, Hdata.
    cbn [truthy negb]. unfold resolve. rewrite Hdir.
    change (default "" (Some ?d)) with d.
    change (truthy (path_string directory)) with true. done.
  - intros entry s2 s3 Hentry Hrun.
    assert (target_of w (path_string directory) entry
            = directory ++ split "/" (TarEntry.fileName entry)) as <-.
    { unfold target_of. rewrite resolve_path_child by done.
      rewrite resolve_path_string; [done|].
      rewrite <- Hdir. apply resolve_path_plain. }
    pose proof (write_entry_written _ _ _ _ _ Hrun) as Hwritten.
    case_bool_decide as Htype.
    + exists Dir. by split.
    + destruct Hwritten as [old Hold]. eexists. split; [exact Hold|].
      by split.
Qed.

Lemma default_destination_is_under_npm_packages_witness :
  let options := Options.Make "Pkg" None None None None in
  let directory := ["home"; "me"; "npm_packages"; "Pkg"; "2.0.0"] in
  downloadNpmPackage 1 pkg_world options start
  = downloadNpmPackage 1 pkg_world
      (Options.Make "Pkg" None (Some "/home/me/npm_packages/Pkg/2.0.0")
         None None) start
  /\ forall entry s2 s3,
       Forall plain (split "/" (TarEntry.fileName entry)) ->
       write_entry pkg_world (path_string directory) entry s2
       = (Return tt, s3) ->
       exists node,
         lookup_node (files s3)
           (directory ++ split "/" (TarEntry.fileName entry)) = Some node
         /\ (node = Dir <-> TarEntry.type entry = "directory").
Proof.
  apply (default_destination_is_under_npm_packages 0 pkg_world
           (Options.Make "Pkg" None None None None) start after_pkg_latest
           pkg_latest);
    [reflexivity|vm_compute; reflexivity|repeat constructor; done..].
Defined.

(** The files of pkg 2.0.0 under the default destination. *)
Example download_pkg_by_default :
  let run :=
    downloadNpmPackage 1 pkg_world (Options.Make "Pkg" None None None None)
      start in
  run.1 = Return tt
  /\ files run.2
       !! ["home"; "me"; "npm_packages"; "Pkg"; "2.0.0"; "package.json"]
     = Some (File (bytes_of "{}"))
  /\ files run.2 !! ["home"; "me"; "npm_packages"; "Pkg"; "latest"] = None.
Proof. vm_compute. repeat split. Qed.

(** ** Downloads without dependencies *)



















End DownloadFacts.

(* ===================================================================== *)
(** * The depth of nested downloads *)
(* ===================================================================== *)

Section Depth.
Import JS Path Fs Fetcher Scenario DependencyScenario.
Local Open Scope fetch_scope.

(** X16. The nested downloads end only at packages without dependencies:
    where every manifest declares a dependency, as in a dependency cycle,
    a download that asks for dependencies never returns, however deep it
    is explored. *)
Theorem download_never_returns_without_a_leaf (depth : nat) (w : World)
    (options : Options.t) (s : state) :
  always_depends w ->
  Options.downloadDependencies options = Some true ->
  (downloadNpmPackage depth w options s).1 <> Return tt.
Proof.
  intros Hall. revert options s.
  induction depth as [|depth IH]; intros options s Hdep; [done|].
  destruct (downloadNpmPackage (S depth) w options s) as [o s'] eqn:E.
  cbn [fst]. intros ->. cbn [downloadNpmPackage] in E. rewrite Hdep in E.
  change (default false (Some true)) with true in E. cbn [orb] in E.
  apply bind_inv_Return in E as (fetchedData & s1 & _ & E).
  apply bind_inv_Return in E as ([] & s2 & _ & E).
  apply bind_inv_Return in E as (packageJsonStr & s3 & _ & E).
  destruct (manifest w packageJsonStr) as [packageJson|] eqn:Em; [|done].
  destruct (Hall _ _ Em) as ([packageName version] & rest & Hdeps).
  apply bind_inv_Return in E as ([] & s4 & E & _).
  rewrite Hdeps in E. unfold downloadPackageDependencies in E.
  change (default [] (Some ?l)) with l in E. cbn [for_each] in E.
  apply bind_inv_Return in E as ([] & s5 & E & _).
  apply bind_inv_Return in E as ([] & s6 & _ & E).
  eapply IH; [|by rewrite E]. done.
Qed.

Lemma download_never_returns_without_a_leaf_witness :
  (downloadNpmPackage 3 loop_world loop_options start).1 <> Return tt.
Proof.
  apply (download_never_returns_without_a_leaf 3 loop_world loop_options
           start); [|reflexivity].
  intros b packageJson. unfold loop_world, world_of, manifest. cbn [property].
  case_bool_decide; [|done]. intros [= <-]. by eexists _, _.
Defined.

End Depth.

(* ===================================================================== *)
(** * The rendering of the digest can be read back *)
(* ===================================================================== *)

Section HexRoundTrip.
Import JS Sha1.

Lemma hex_value_digit (d : Z) : 0 <= d < 16 -> hex_value (hex_digit d) = d.
Proof.
  intros Hd. rewrite <- (Z2Nat.id d) by lia.
  assert (Z.to_nat d < 16)%nat as Hn by lia.
  remember (Z.to_nat d) as n eqn:En. clear En Hd.
  do 16 (destruct n as [|n]; [reflexivity|]). lia.
Qed.

Lemma padded_value (b : Z) :
  octet b ->
  exists h l, padStart2 (toString16 b) = String h (String l "")
              /\ 16 * hex_value h + hex_value l = b.
Proof.
  intros Hb. unfold octet in Hb. unfold toString16.
  destruct (Z.ltb_spec b 16).
  - exists "0"%char, (hex_digit b). split; [done|].
    rewrite hex_value_digit by lia. done.
  - exists (hex_digit (b / 16)), (hex_digit (b mod 16)). split; [done|].
    rewrite !hex_value_digit.
    + symmetry. apply Z.div_mod. lia.
    + apply Z.mod_pos_bound. lia.
    + split; [apply Z.div_pos; lia|apply Z.div_lt_upper_bound; lia].
Qed.

Lemma unhex_hashHex (hashArray : list Z) :
  Forall octet hashArray -> unhex (hashHex hashArray) = hashArray.
Proof.
  induction 1 as [|b l Hb _ IH]; [done|].
  destruct (padded_value b Hb) as (h & lo & E & Hv).
  cbn [hashHex fold_right]. fold (hashHex l).
  rewrite E, !app_String, app_empty_l. cbn [unhex]. by rewrite Hv, IH.
Qed.

(** X17. The rendering of the digest loses nothing: every number between
    0 and 255 becomes exactly two hexadecimal digits, so the numbers can be
    read back from the string, and two digests with the same rendering are
    the same digest. Comparing the rendering with the declared checksum
    therefore compares the digest itself. *)
Theorem hashHex_is_injective (a b : list Z) :
  Forall octet a -> Forall octet b ->
  unhex (hashHex a) = a /\ (hashHex a = hashHex b -> a = b).
Proof.
  intros Ha Hb. split; [by apply unhex_hashHex|]. intros E.
  by rewrite <- (unhex_hashHex a Ha), E, unhex_hashHex.
Qed.

Lemma hashHex_is_injective_witness :
  unhex (hashHex [1; 17; 255]) = [1; 17; 255]
  /\ (hashHex [1; 17; 255] = hashHex [1; 1; 7] -> [1; 17; 255] = [1; 1; 7]).
Proof.
  apply (hashHex_is_injective [1; 17; 255] [1; 1; 7]);
    repeat constructor; unfold octet; lia.
Defined.

(** The digest of a message is such a list of numbers. *)
Example digest_read_back (msg : list byte) :
  unhex (hashHex (digest msg)) = digest msg.
Proof. apply unhex_hashHex, digest_octets. Qed.

End HexRoundTrip.

(* ===================================================================== *)
(** * The earlier [downloadNpmPackage] and the present one *)
(* ===================================================================== *)

Section Earlier.
Import JS Path Fs Fetcher Scenario DependencyScenario.
Local Open Scope fetch_scope.

Lemma entryPath_in_package (entry : TarEntry.t) :
  in_package entry ->
  Historical.entryPath (TarEntry.fileName entry)
  = Ok (TarEntry.fileName (strip_package entry))
  /\ TarEntry.type (strip_package entry) = TarEntry.type entry
  /\ TarEntry.content (strip_package entry) = TarEntry.content entry.
Proof.
  unfold in_package, Historical.entryPath, strip_package. by intros ->.
Qed.

Lemma as_earlier_bind (m : M unit) (k : M unit)
    (k' : M (result string unit)) (s : state) :
  (forall s1, k' s1 = as_earlier (k s1)) ->
  (m ;;; k') s = as_earlier ((m ;;; k) s).
Proof.
  intros Hk. unfold bind. destruct (m s) as [[[]| |] s1]; [apply Hk|done..].
Qed.

Lemma asserting_bind (fileName : string) (m : M unit) (k : M unit)
    (k' : M (result string unit)) (s : state) :
  (forall s1, k' s1 = asserting fileName (k s1)) ->
  (m ;;; k') s = asserting fileName ((m ;;; k) s).
Proof.
  intros Hk. unfold bind. destruct (m s) as [[[]| |] s1]; [apply Hk|done..].
Qed.

(** On entries in [package/] the earlier loop is the present one. *)
Lemma write_entries_in_package (w : World) (destination : string)
    (entries : list TarEntry.t) (s : state) :
  Forall in_package entries ->
  Historical.write_entries w destination entries s
  = as_earlier
      (for_each (write_entry w destination)
         (List.map strip_package entries) s).
Proof.
  intros Hall. revert s. induction Hall as [|entry rest He _ IH]; intros s;
    [done|].
  destruct (entryPath_in_package entry He) as (Hpath & Htype & Hcontent).
  cbn [Historical.write_entries List.map for_each]. rewrite Hpath.
  unfold write_entry. rewrite Htype, Hcontent. by apply as_earlier_bind.
Qed.

(** The earlier loop up to an entry outside [package/]. *)
Lemma write_entries_outside (w : World) (destination : string)
    (before after : list TarEntry.t) (entry : TarEntry.t) (s : state) :
  Forall in_package before -> ~ in_package entry ->
  Historical.write_entries w destination (before ++ entry :: after) s
  = asserting (TarEntry.fileName entry)
      (for_each (write_entry w destination)
         (List.map strip_package before) s).
Proof.
  intros Hall Hout. revert s. induction Hall as [|e rest He _ IH]; intros s.
  - cbn [app Historical.write_entries List.map for_each].
    unfold Historical.entryPath. unfold in_package in Hout.
    by destruct (startsWith "package/" (TarEntry.fileName entry)).
  - destruct (entryPath_in_package e He) as (Hpath & Htype & Hcontent).
    rewrite <- app_comm_cons.
    cbn [Historical.write_entries List.map for_each]. rewrite Hpath.
    unfold write_entry. rewrite Htype, Hcontent. by apply asserting_bind.
Qed.

Lemma for_each_app {A} (body : A -> M unit) (l l' : list A) (s : state) :
  for_each body (l ++ l') s = (for_each body l ;;; for_each body l') s.
Proof.
  revert s. induction l as [|a l IH]; intros s; [done|].
  cbn [app for_each]. unfold bind.
  destruct (body a s) as [[[]| |] s1]; [|done..]. by rewrite IH.
Qed.

(** X18. On an archive whose entries all lie in [package/], for a version
    that the present code looks up directly and a registry that answers
    with a success status, the earlier [downloadNpmPackage] and the present
    one without dependencies do the same: the same requests, the same
    files, the same outcome. *)
Theorem earlier_download_agrees (depth : nat) (w : World)
    (packageName : string) (version destination : option string)
    (s : state) :
  registryNeedsVersion (default "latest" version) = true ->
  (forall r,
     http w (registry +:+ packageName +:+ "/" +:+ default "latest" version)
     = Some r ->
     Response.ok r = true) ->
  (forall bytes, Forall in_package (Archive.entries (untar w bytes))) ->
  Historical.downloadNpmPackage w packageName version destination s
  = as_earlier
      (downloadNpmPackage (S depth) w
         (Options.Make packageName version destination None None) s).
Proof.
  intros Hneeds Hok Hin. unfold Historical.downloadNpmPackage.
  cbn [downloadNpmPackage Options.packageName Options.version
       Options.destination Options.downloadDependencies
       Options.downloadDevDependencies].
  change (default false None) with false. cbn [orb].
  unfold fetchNpmPackage.
  change (default "latest" (Some ?v)) with v. cbv zeta. rewrite Hneeds.
  set (version' := default "latest" version) in *.
  set (url := registry +:+ packageName +:+ "/" +:+ version') in *.
  unfold for_await, getPackageContents, bind, fetch, ret, throw.
  destruct (http w url) as [r|] eqn:Hr; [|done]. rewrite (Hok r eq_refl).
  cbn [negb].
  destruct (json w (Response.blob r)) as [[p|v]|]; [|done..].
  cbn [FetchedNpmPackageData.packageName FetchedNpmPackageData.version
       FetchedNpmPackageData.registryData
       FetchedNpmPackageData.requestedVersion FetchedNpmPackageData.url
       files requests invocations].
  set (destination' := if negb (truthy _) then _ else _).
  destruct (http w (NpmPackageDist.tarball (NpmPackage.dist p))) as [t|];
    [|done].
  destruct (Response.ok t); cbn [negb]; [|done].
  case_bool_decide; cbn [negb]; [|done].
  destruct (Response.body t) as [bytes|]; [|done].
  cbn [Archive.entries Archive.broken].
  rewrite write_entries_in_package by done.
  destruct (for_each _ _ _) as [[[]| |] s1]; cbn [as_earlier]; [|done..].
  by destruct (Archive.broken (untar w bytes)).
Qed.

Lemma earlier_download_agrees_witness :
  Historical.downloadNpmPackage app_world "app" (Some "1.0.0")
    (Some "/srv/app") start
  = as_earlier
      (downloadNpmPackage 1 app_world
         (Options.Make "app" (Some "1.0.0") (Some "/srv/app") None None)
         start).
Proof.
  apply (earlier_download_agrees 0 app_world "app" (Some "1.0.0")
           (Some "/srv/app") start).
  - reflexivity.
  - intros r [= <-]. reflexivity.
  - intros bytes. unfold app_world, world_of, untar.
    generalize (text_of bytes). intros t. cbn [property].
    repeat case_bool_decide; repeat constructor.
Defined.

(** X19. The earlier loop stops at the first entry outside [package/]: the
    entries before it are written as the present code writes them and stay
    on disk, the assertion error names the entry, and no entry after it is
    read. The present loop goes on instead: it writes that entry under its
    own path and then the entries after it. *)
Theorem earlier_download_stops_outside_package (w : World)
    (destination : string) (before after : list TarEntry.t)
    (entry : TarEntry.t) (s : state) :
  Forall in_package before -> ~ in_package entry ->
  Historical.write_entries w destination (before ++ entry :: after) s
  = asserting (TarEntry.fileName entry)
      (for_each (write_entry w destination)
         (List.map strip_package before) s)
  /\ for_each (write_entry w destination)
       (List.map strip_package (before ++ entry :: after)) s
     = (for_each (write_entry w destination) (List.map strip_package before) ;;;
        write_entry w destination entry ;;;
        for_each (write_entry w destination) (List.map strip_package after)) s.
Proof.
  intros Hbefore Hout. split; [by apply write_entries_outside|].
  rewrite map_app, for_each_app. cbn [List.map for_each].
  rewrite strip_package_other; [done|].
  unfold in_package in Hout. by destruct (startsWith _ _).
Qed.

Lemma earlier_download_stops_outside_package_witness :
  let run :=
    Historical.write_entries pkg_world "/srv/out"
      (Archive.entries pkg_archive) start in
  run.1 = Return (Err "other/readme.md")
  /\ files run.2 !! ["srv"; "out"; "package.json"]
     = Some (File (bytes_of "{}"))
  /\ files run.2 !! ["srv"; "out"; "other"; "readme.md"] = None.
Proof.
  cbv zeta.
  destruct (earlier_download_stops_outside_package pkg_world "/srv/out"
              [TarEntry.Make "package/" "directory" [];
               TarEntry.Make "package/package.json" "file" (bytes_of "{}")]
              []
              (TarEntry.Make "other/readme.md" "file" (bytes_of "read me"))
              start) as [H _].
  - by repeat constructor.
  - unfold in_package. discriminate.
  - change (Archive.entries pkg_archive)
      with ([TarEntry.Make "package/" "directory" [];
             TarEntry.Make "package/package.json" "file" (bytes_of "{}")]
            ++ [TarEntry.Make "other/readme.md" "file" (bytes_of "read me")]).
    rewrite H. vm_compute. repeat split.
Defined.

End Earlier.

(* ===================================================================== *)
(** * Further properties of the matcher and of failed downloads *)
(* ===================================================================== *)

Section Further.
Import JS SemVer Path Fs Fetcher Scenario DependencyScenario.
Local Open Scope fetch_scope.

Lemma caret_selects_highest_positive_witness :
  exists c,
    findHighestSemVer (caret "1" "0" "0") ["1.0.0"; "1.2.0"; "2.0.0"] = Some c
    /\ c ∈ ["1.0.0"; "1.2.0"; "2.0.0"]
    /\ major (parsePackageVersion c) = read "1"
    /\ forall c', c' ∈ ["1.0.0"; "1.2.0"; "2.0.0"] ->
         major (parsePackageVersion c') = read "1" ->
         ~ precedes (parsePackageVersion c) (parsePackageVersion c').
Proof.
  apply (caret_selects_highest_positive "1" "0" "0"
           ["1.0.0"; "1.2.0"; "2.0.0"]); [by split..|reflexivity|].
  exists "1.0.0". split; [set_solver|reflexivity].
Defined.

(** ** White space around a specifier *)

Lemma trimEnd_idempotent (s : string) : trimEnd (trimEnd s) = trimEnd s.
Proof.
  induction s as [|a s IH]; [done|]. cbn [trimEnd].
  destruct (trimEnd s) as [|b r] eqn:E.
  - destruct (is_white_space a) eqn:Ha; [done|]. cbn [trimEnd]. by rewrite Ha.
  - cbn [trimEnd] in *. by rewrite IH.
Qed.

Lemma trimStart_length (s : string) :
  (String.length (trimStart s) <= String.length s)%nat.
Proof.
  induction s as [|a s IH]; [done|]. cbn [trimStart].
  destruct (is_white_space a); cbn [String.length]; lia.
Qed.

Lemma trimStart_trimEnd (s : string) :
  trimStart s = s -> trimStart (trimEnd s) = trimEnd s.
Proof.
  destruct s as [|a s]; [done|]. cbn [trimStart trimEnd].
  destruct (is_white_space a) eqn:Ha.
  - intros H. pose proof (trimStart_length s) as Hlen.
    rewrite H in Hlen. cbn [String.length] in Hlen. lia.
  - intros _. destruct (trimEnd s); cbn [trimStart]; by rewrite Ha.
Qed.

Lemma trimStart_idempotent (s : string) : trimStart (trimStart s) = trimStart s.
Proof.
  induction s as [|a s IH]; [done|]. cbn [trimStart].
  destruct (is_white_space a) eqn:Ha; [done|]. cbn [trimStart]. by rewrite Ha.
Qed.

Lemma trim_idempotent (s : string) : trim (trim s) = trim s.
Proof.
  unfold trim. rewrite trimStart_trimEnd by apply trimStart_idempotent.
  apply trimEnd_idempotent.
Qed.

(** X21. The matcher ignores white space around the specifier: a
    specifier matches the candidates that it matches once trimmed, and
    [findHighestSemVer] selects the same version for both. *)
Theorem matcher_ignores_outer_white_space (version : string)
    (versionList : list string) :
  (forall c, semVerMatches version c = semVerMatches (trim version) c)
  /\ findHighestSemVer version versionList
     = findHighestSemVer (trim version) versionList.
Proof.
  assert (forall c, semVerMatches version c = semVerMatches (trim version) c)
    as Hmatch.
  { intros c. unfold semVerMatches. by rewrite trim_idempotent. }
  split; [done|]. unfold findHighestSemVer. f_equal.
  generalize (Highest 0 0 0 None).
  induction versionList as [|c l IH]; intros h; [done|]. cbn [fold_left].
  rewrite IH. f_equal. unfold visit. by rewrite Hmatch.
Qed.

(** ** Failures before the first entry *)

(** X20. Nothing is written unless the lookup and every check of the
    tarball have passed: when [fetchNpmPackage] throws, or when
    [getPackageContents] throws before its first entry (a failed request, a
    status outside 200-299, a checksum mismatch, a missing body),
    [downloadNpmPackage] ends with that very error and with the file
    system it started with. *)
Theorem nothing_is_written_before_the_checks_pass (depth : nat) (w : World)
    (options : Options.t) (s : state) (e : error) :
  let lookup :=
    fetchNpmPackage w (Options.packageName options)
      (Some (default "latest" (Options.version options))) s in
  lookup.1 = Throw e
  \/ (exists data, lookup.1 = Return data
                   /\ (getPackageContents w data lookup.2).1 = Throw e) ->
  let run := downloadNpmPackage (S depth) w options s in
  run.1 = Throw e /\ files run.2 = files s.
Proof.
  intros lookup H run. unfold run, lookup in *. clear lookup run.
  pose proof (fetchNpmPackage_quiet w (Options.packageName options)
                (Some (default "latest" (Options.version options))) s)
    as [Hfiles _].
  destruct (fetchNpmPackage w (Options.packageName options)
              (Some (default "latest" (Options.version options))) s)
    as [[data| |] s1] eqn:E; cbn [fst snd] in *.
  - destruct H as [H|(data' & [= <-] & H)]; [done|].
    pose proof (getPackageContents_quiet w data s1) as [Hfiles' _].
    destruct (getPackageContents w data s1) as [o s2] eqn:G.
    cbn [fst snd] in *. subst o.
    assert (downloadNpmPackage (S depth) w options s = (Throw e, s2)) as ->.
    { cbn [downloadNpmPackage]. rewrite (bind_Return _ _ _ _ _ E).
      apply bind_Throw. unfold for_await. by apply bind_Throw. }
    split; [done|]. cbn [snd]. congruence.
  - destruct H as [[= <-]|(data & [=] & _)].
    assert (downloadNpmPackage (S depth) w options s = (Throw e0, s1)) as ->.
    { cbn [downloadNpmPackage]. by apply bind_Throw. }
    done.
  - by destruct H as [H|(data & H & _)].
Qed.

Lemma nothing_is_written_before_the_checks_pass_witness :
  let run :=
    downloadNpmPackage 1 pkg_world
      (Options.Make "Nope" None (Some "/srv/out") None None) start in
  run.1 = Throw (NetworkError "https://registry.npmjs.org/Nope/latest")
  /\ files run.2 = files start.
Proof.
  apply (nothing_is_written_before_the_checks_pass 0 pkg_world
           (Options.Make "Nope" None (Some "/srv/out") None None) start).
  left. reflexivity.
Defined.

(** The download of the package that depends on itself goes deeper as long
    as it is explored. *)
Example download_loop :
  let run := downloadNpmPackage 3 loop_world loop_options start in
  run.1 = Unfinished
  /\ length (invocations run.2) = 3%nat
  /\ files run.2
       !! ["srv"; "loop"; "node_modules"; "loop"; "node_modules"; "loop";
           "package.json"]
     = Some (File (bytes_of "manifest of loop")).
Proof. vm_compute. repeat split. Qed.

(** ** A dependency that fails *)

(** X23. The dependencies are downloaded one after the other, and the
    first download that throws ends the walk with its error: the
    dependencies after it are not downloaded, and the state is the one the
    failing download left, with everything the downloads before it wrote
    still in place. *)
Theorem failed_dependency_stops_the_walk (rec : Options.t -> M unit)
    (w : World) (before after : list (string * string))
    (packageName version destination : string) (s s1 s2 : state)
    (e : error) :
  downloadPackageDependencies rec w before destination s = (Return tt, s1) ->
  let options := dependency_options w destination packageName version in
  rec options (called destination options s1) = (Throw e, s2) ->
  downloadPackageDependencies rec w
    (before ++ (packageName, version) :: after) destination s
  = (Throw e, s2).
Proof.
  intros Hbefore options Hfails. unfold downloadPackageDependencies in *.
  rewrite for_each_app. rewrite (bind_Return _ _ _ _ _ Hbefore).
  cbn [for_each]. apply bind_Throw.
  erewrite bind_Return; [exact Hfails|done].
Qed.

Lemma failed_dependency_stops_the_walk_witness :
  let walk dependencies :=
    downloadPackageDependencies (downloadNpmPackage 2 app_world) app_world
      dependencies "/srv/app/node_modules" start in
  (walk [("dep", "^1.0.0"); ("ghost", "1.0.0"); ("tool", "1.0.0")]).1
  = Throw (NetworkError "https://registry.npmjs.org/ghost/1.0.0")
  /\ files (walk [("dep", "^1.0.0"); ("ghost", "1.0.0"); ("tool", "1.0.0")]).2
     = files (walk [("dep", "^1.0.0")]).2.
Proof.
  cbv beta zeta.
  pose proof
    (failed_dependency_stops_the_walk (downloadNpmPackage 2 app_world)
       app_world [("dep", "^1.0.0")] [("tool", "1.0.0")]
       "ghost" "1.0.0" "/srv/app/node_modules" start
       (downloadPackageDependencies (downloadNpmPackage 2 app_world)
          app_world [("dep", "^1.0.0")] "/srv/app/node_modules" start).2
       (downloadNpmPackage 2 app_world
          (dependency_options app_world "/srv/app/node_modules"
             "ghost" "1.0.0")
          (called "/srv/app/node_modules"
             (dependency_options app_world "/srv/app/node_modules"
                "ghost" "1.0.0")
             (downloadPackageDependencies
                (downloadNpmPackage 2 app_world) app_world
                [("dep", "^1.0.0")] "/srv/app/node_modules" start).2)).2
       (NetworkError "https://registry.npmjs.org/ghost/1.0.0")) as H.
  cbv zeta in H.
  change ([("dep", "^1.0.0")] ++ [("ghost", "1.0.0"); ("tool", "1.0.0")])
    with [("dep", "^1.0.0"); ("ghost", "1.0.0"); ("tool", "1.0.0")] in H.
  rewrite H; [|vm_compute; reflexivity..].
  split; [reflexivity|]. vm_compute. reflexivity.
Defined.

End Further.

(* ===================================================================== *)
(** * The downloads of dependencies *)
(* ===================================================================== *)

Section DependencyWalker.
Import JS Path Fs Fetcher Scenario DependencyScenario.
Local Open Scope fetch_scope.

(** ** The log of calls *)













(** ** Every dependency is walked *)















(** ** Where a dependency goes *)


(** ** Dev dependencies *)







End DependencyWalker.
